(** * git-log-ai: commit filter, batch analyzer and report merger

    A shallow embedding of [git-log-ai.ts].  JavaScript strings are sequences
    of UTF-16 code units, arrays are lists, thrown errors are the left
    injection of a sum, and the services the program talks to (git, the
    language model, the file system, the host's Unicode tables) are
    parameters of the sections that need them. *)

From Stdlib Require Import String Ascii NArith List Lia Bool DecimalString DecimalNat.
From stdpp Require Import base list.
From Equations Require Import Equations.
Import ListNotations.

Local Open Scope N_scope.

(** ** JavaScript strings *)

(** A string is its sequence of UTF-16 code units. *)
Abbreviation jsstring := (list N).

(** Literals are written as Rocq strings (UTF-8 bytes in this file) and
    decoded to code units; a code point above U+FFFF becomes a surrogate
    pair. *)
Fixpoint utf8_decode (bs : list N) : jsstring :=
  match bs with
  | [] => []
  | b0 :: r0 =>
    if b0 <? 128 then b0 :: utf8_decode r0
    else if b0 <? 224 then
      match r0 with
      | b1 :: r1 => ((b0 - 192) * 64 + (b1 - 128)) :: utf8_decode r1
      | [] => []
      end
    else if b0 <? 240 then
      match r0 with
      | b1 :: b2 :: r2 =>
        ((b0 - 224) * 4096 + (b1 - 128) * 64 + (b2 - 128)) :: utf8_decode r2
      | _ => []
      end
    else
      match r0 with
      | b1 :: b2 :: b3 :: r3 =>
        let cp := (b0 - 240) * 262144 + (b1 - 128) * 4096
                  + (b2 - 128) * 64 + (b3 - 128) in
        let v := cp - 65536 in
        (55296 + v / 1024) :: (56320 + v mod 1024) :: utf8_decode r3
      | _ => []
      end
  end.

Definition js (s : string) : jsstring :=
  utf8_decode (map N_of_ascii (list_ascii_of_string s)).

Definition TAB : N := 9.
Definition LF : N := 10.

(** ECMAScript WhiteSpace and LineTerminator code points: what
    [String.prototype.trim] strips and what the class [\s] matches. *)
Definition isWhiteSpace (c : N) : bool :=
  (c =? 9) || (c =? 10) || (c =? 11) || (c =? 12) || (c =? 13)
  || (c =? 32) || (c =? 160) || (c =? 5760)
  || ((8192 <=? c) && (c <=? 8202))
  || (c =? 8232) || (c =? 8233) || (c =? 8239) || (c =? 8287)
  || (c =? 12288) || (c =? 65279).

Fixpoint trimStart (s : jsstring) : jsstring :=
  match s with
  | [] => []
  | c :: s' => if isWhiteSpace c then trimStart s' else s
  end.

Definition trimEnd (s : jsstring) : jsstring := rev (trimStart (rev s)).

(** [s.trim()] *)
Definition trim (s : jsstring) : jsstring := trimEnd (trimStart s).

(** A string in a boolean position: the empty string is falsy. *)
Definition truthy (s : jsstring) : bool :=
  match s with [] => false | _ :: _ => true end.

(** [x || ''] where [x] is a string or [undefined]. *)
Definition orEmpty (x : option jsstring) : jsstring :=
  match x with Some s => if truthy s then s else [] | None => [] end.

(** [s.split(sep)] for a separator of one code unit. *)
Fixpoint split (sep : N) (s : jsstring) : list jsstring :=
  match s with
  | [] => [[]]
  | c :: s' =>
    if c =? sep then [] :: split sep s'
    else match split sep s' with
         | w :: ws => (c :: w) :: ws
         | [] => [[c]]
         end
  end.

(** [parts.join(sep)] *)
Fixpoint join (sep : jsstring) (parts : list jsstring) : jsstring :=
  match parts with
  | [] => []
  | [p] => p
  | p :: rest => p ++ sep ++ join sep rest
  end.

(** [arr.slice(start, end)] for non-negative indices. *)
Definition slice {A} (start stop : nat) (l : list A) : list A :=
  drop start (take stop l).

(** Decimal rendering of a natural number, as in a template literal. *)
Definition decimal (n : nat) : jsstring :=
  map N_of_ascii (list_ascii_of_string (NilEmpty.string_of_uint (Nat.to_uint n))).

(** ** Regular expressions

    The fragment of the pattern language that the program's patterns use:
    the assertions [^] and [$], literal characters, escaped syntax
    characters, the class [\s], and the quantifier [*]. *)

Inductive atom :=
| Lit (c : N)
| Space.

Inductive term :=
| AssertStart
| AssertEnd
| One (a : atom)
| Star (a : atom).

Abbreviation regex := (list term).

Definition isSyntaxCharacter (c : N) : bool :=
  existsb (N.eqb c) (js "^$\.*+?()[]{}|").

(** The atom an escape [\e] denotes: [\s], or an escaped syntax character or
    slash standing for itself. *)
Definition escapeAtom (e : N) : option atom :=
  if e =? 115 then Some Space
  else if isSyntaxCharacter e || (e =? 47) then Some (Lit e)
  else None.

(** [new RegExp(pattern)]; [None] stands for a thrown SyntaxError or for a
    construct outside the fragment. *)
Fixpoint RegExp (pattern : jsstring) : option regex :=
  match pattern with
  | [] => Some []
  | c :: p1 =>
    if c =? 94 then cons AssertStart <$> RegExp p1
    else if c =? 36 then cons AssertEnd <$> RegExp p1
    else if c =? 92 then
      match p1 with
      | [] => None
      | e :: p2 =>
        match escapeAtom e with
        | None => None
        | Some a =>
          match p2 with
          | q :: p3 =>
            if q =? 42 then cons (Star a) <$> RegExp p3
            else cons (One a) <$> RegExp p2
          | [] => Some [One a]
          end
        end
      end
    else if isSyntaxCharacter c then None
    else
      match p1 with
      | q :: p2 =>
        if q =? 42 then cons (Star (Lit c)) <$> RegExp p2
        else cons (One (Lit c)) <$> RegExp p1
      | [] => Some [One (Lit c)]
      end
  end.

Definition atomMatches (a : atom) (c : N) : bool :=
  match a with
  | Lit d => c =? d
  | Space => isWhiteSpace c
  end.

(** Backtracking match of [re] against a prefix of [s]; [bol] tells whether
    [s] begins at index 0 of the subject. *)
Fixpoint matchHere (re : regex) (bol : bool) (s : jsstring) {struct re} : bool :=
  match re with
  | [] => true
  | AssertStart :: re' => bol && matchHere re' bol s
  | AssertEnd :: re' =>
    match s with
    | [] => matchHere re' bol s
    | _ :: _ => false
    end
  | One a :: re' =>
    match s with
    | c :: s' => atomMatches a c && matchHere re' false s'
    | [] => false
    end
  | Star a :: re' =>
    (fix star (bol : bool) (s : jsstring) {struct s} : bool :=
       matchHere re' bol s
       || match s with
          | c :: s' => atomMatches a c && star false s'
          | [] => false
          end) bol s
  end.

Fixpoint searchFrom (re : regex) (bol : bool) (s : jsstring) : bool :=
  matchHere re bol s
  || match s with
     | _ :: s' => searchFrom re false s'
     | [] => false
     end.

(** [regex.test(s)] for a regex without flags: a match starting anywhere. *)
Definition test (re : regex) (s : jsstring) : bool := searchFrom re true s.

(** ** JSON values and a reference parser

    [JSON.parse] is a service of the host.  The program is stated over any
    such function; [parseJSON] below implements the JSON grammar so that the
    program can be run on concrete texts. *)

#[local] Set Warnings "-register-all".

Inductive json :=
| JNull
| JBool (b : bool)
| JNumber (literal : jsstring)
| JString (s : jsstring)
| JArray (elements : list json)
| JObject (members : list (jsstring * json)).

Definition isJsonSpace (c : N) : bool :=
  (c =? 32) || (c =? 9) || (c =? 10) || (c =? 13).

Fixpoint skipWs (s : jsstring) : jsstring :=
  match s with
  | [] => []
  | c :: s' => if isJsonSpace c then skipWs s' else s
  end.

Fixpoint stripPrefix (p s : jsstring) : option jsstring :=
  match p, s with
  | [], _ => Some s
  | a :: p', b :: s' => if a =? b then stripPrefix p' s' else None
  | _ :: _, [] => None
  end.

Definition isDigit (c : N) : bool := (48 <=? c) && (c <=? 57).

Definition hexValue (c : N) : option N :=
  if isDigit c then Some (c - 48)
  else if (97 <=? c) && (c <=? 102) then Some (c - 87)
  else if (65 <=? c) && (c <=? 70) then Some (c - 55)
  else None.

Definition simpleEscape (c : N) : option N :=
  if c =? 34 then Some 34
  else if c =? 92 then Some 92
  else if c =? 47 then Some 47
  else if c =? 98 then Some 8
  else if c =? 102 then Some 12
  else if c =? 110 then Some 10
  else if c =? 114 then Some 13
  else if c =? 116 then Some 9
  else None.

(** The characters of a string literal after its opening quote, up to and
    including the closing quote. *)
Fixpoint parseString (s : jsstring) : option (jsstring * jsstring) :=
  match s with
  | [] => None
  | c :: s1 =>
    if c =? 34 then Some ([], s1)
    else if c <? 32 then None
    else if c =? 92 then
      match s1 with
      | [] => None
      | e :: s2 =>
        if e =? 117 then
          match s2 with
          | h1 :: h2 :: h3 :: h4 :: s6 =>
            match hexValue h1, hexValue h2, hexValue h3, hexValue h4 with
            | Some a, Some b, Some c', Some d =>
              match parseString s6 with
              | Some (str, r) => Some ((a * 4096 + b * 256 + c' * 16 + d) :: str, r)
              | None => None
              end
            | _, _, _, _ => None
            end
          | _ => None
          end
        else
          match simpleEscape e with
          | Some u =>
            match parseString s2 with
            | Some (str, r) => Some (u :: str, r)
            | None => None
            end
          | None => None
          end
      end
    else
      match parseString s1 with
      | Some (str, r) => Some (c :: str, r)
      | None => None
      end
  end.

Fixpoint spanDigits (s : jsstring) : jsstring * jsstring :=
  match s with
  | [] => ([], [])
  | c :: s' =>
    if isDigit c then let (d, r) := spanDigits s' in (c :: d, r)
    else ([], s)
  end.

(** The parts of a number token: an optional minus sign, an integer part
    without leading zero, an optional fraction and an optional exponent.
    Each returns the text it read and the rest. *)
Definition signPart (s : jsstring) : jsstring * jsstring :=
  match s with
  | c :: r => if c =? 45 then ([c], r) else ([], s)
  | [] => ([], s)
  end.

Definition intPart (s : jsstring) : option (jsstring * jsstring) :=
  match s with
  | [] => None
  | c :: r =>
    if negb (isDigit c) then None
    else if c =? 48 then Some ([c], r)
    else let (d, r') := spanDigits r in Some (c :: d, r')
  end.

Definition fracPart (s : jsstring) : option (jsstring * jsstring) :=
  match s with
  | dot :: r =>
    if dot =? 46 then
      let (d, r') := spanDigits r in
      match d with [] => None | _ :: _ => Some (dot :: d, r') end
    else Some ([], s)
  | [] => Some ([], s)
  end.

Definition expPart (s : jsstring) : option (jsstring * jsstring) :=
  match s with
  | e :: r =>
    if (e =? 101) || (e =? 69) then
      let (sg, r1) :=
        match r with
        | g :: r' => if (g =? 43) || (g =? 45) then ([g], r') else ([], r)
        | [] => ([], r)
        end in
      let (d, r') := spanDigits r1 in
      match d with [] => None | _ :: _ => Some (e :: sg ++ d, r') end
    else Some ([], s)
  | [] => Some ([], s)
  end.

(** A number token; the value keeps its text. *)
Definition parseNumber (s : jsstring) : option (jsstring * jsstring) :=
  let (sign, s1) := signPart s in
  match intPart s1 with
  | None => None
  | Some (int, s2) =>
    match fracPart s2 with
    | None => None
    | Some (fr, s3) =>
      match expPart s3 with
      | None => None
      | Some (ex, s4) => Some (sign ++ int ++ fr ++ ex, s4)
      end
    end
  end.

(** One level of the grammar, over the parsers of the level below. *)
Section ParserSteps.

Variable parseValue' : jsstring -> option (json * jsstring).
Variable parseElements' : jsstring -> list json -> option (json * jsstring).
Variable parseMembers' :
  jsstring -> list (jsstring * json) -> option (json * jsstring).

(** [true], [false], [null] or a number. *)
Definition parseAtom (s : jsstring) : option (json * jsstring) :=
  match stripPrefix (js "true") s with
  | Some r => Some (JBool true, r)
  | None =>
    match stripPrefix (js "false") s with
    | Some r => Some (JBool false, r)
    | None =>
      match stripPrefix (js "null") s with
      | Some r => Some (JNull, r)
      | None =>
        match parseNumber s with
        | Some (lit, r) => Some (JNumber lit, r)
        | None => None
        end
      end
    end
  end.

Definition valueStep (s : jsstring) : option (json * jsstring) :=
  match skipWs s with
  | [] => None
  | c :: r =>
    if c =? 123 then
      match skipWs r with
      | d :: r' =>
        if d =? 125 then Some (JObject [], r') else parseMembers' r []
      | [] => None
      end
    else if c =? 91 then
      match skipWs r with
      | d :: r' =>
        if d =? 93 then Some (JArray [], r') else parseElements' r []
      | [] => None
      end
    else if c =? 34 then
      match parseString r with
      | Some (str, r') => Some (JString str, r')
      | None => None
      end
    else parseAtom (c :: r)
  end.

(** The elements of an array after its opening bracket, [acc] being those
    already read. *)
Definition elementsStep (s : jsstring) (acc : list json)
  : option (json * jsstring) :=
  match parseValue' s with
  | None => None
  | Some (v, r) =>
    match skipWs r with
    | d :: r' =>
      if d =? 44 then parseElements' r' (acc ++ [v])
      else if d =? 93 then Some (JArray (acc ++ [v]), r')
      else None
    | [] => None
    end
  end.

(** The members of an object after its opening brace. *)
Definition membersStep (s : jsstring) (acc : list (jsstring * json))
  : option (json * jsstring) :=
  match skipWs s with
  | [] => None
  | q :: r =>
    if negb (q =? 34) then None
    else
      match parseString r with
      | None => None
      | Some (key, r1) =>
        match skipWs r1 with
        | [] => None
        | colon :: r2 =>
          if negb (colon =? 58) then None
          else
            match parseValue' r2 with
            | None => None
            | Some (v, r3) =>
              match skipWs r3 with
              | d :: r4 =>
                if d =? 44 then parseMembers' r4 (acc ++ [(key, v)])
                else if d =? 125 then Some (JObject (acc ++ [(key, v)]), r4)
                else None
              | [] => None
              end
            end
        end
      end
  end.

End ParserSteps.

(** The parsers, by recursion on the nesting that is left. *)
Fixpoint parseValue (fuel : nat) (s : jsstring) : option (json * jsstring) :=
  match fuel with
  | O => None
  | S fuel' => valueStep (parseElements fuel') (parseMembers fuel') s
  end
with parseElements (fuel : nat) (s : jsstring) (acc : list json)
  : option (json * jsstring) :=
  match fuel with
  | O => None
  | S fuel' => elementsStep (parseValue fuel') (parseElements fuel') s acc
  end
with parseMembers (fuel : nat) (s : jsstring) (acc : list (jsstring * json))
  : option (json * jsstring) :=
  match fuel with
  | O => None
  | S fuel' => membersStep (parseValue fuel') (parseMembers fuel') s acc
  end.

(** A whole text: one value, surrounded by optional white space.  Twice the
    length of the text bounds the nesting. *)
Definition parseJSON (text : jsstring) : option json :=
  match parseValue (2 * length text + 2) text with
  | Some (v, r) => match skipWs r with [] => Some v | _ :: _ => None end
  | None => None
  end.

(** [obj[key]] on a parsed object: a later duplicate of a key overwrites an
    earlier one. *)
Fixpoint getMember (key : jsstring) (members : list (jsstring * json))
  : option json :=
  match members with
  | [] => None
  | (k, v) :: rest =>
    match getMember key rest with
    | Some v' => Some v'
    | None => if decide (k = key) then Some v else None
    end
  end.

Local Close Scope N_scope.

(** ** Commits *)

Record CommitInfo := {
  hash : jsstring;
  date : jsstring;
  author : jsstring;
  email : jsstring;
  subject : jsstring;
  body : jsstring
}.

(** The [map] callback of [fetchGitLog]:
    [const [hash, date, name, email, subject, ...bodyParts] = line.split('\t')]. *)
Definition parseLine (line : jsstring) : CommitInfo :=
  let parts := split TAB line in
  let bodyParts := drop 5 parts in
  let body := trim (join [TAB] bodyParts) in
  {| hash := orEmpty (parts !! 0%nat);
     date := orEmpty (parts !! 1%nat);
     author := orEmpty (parts !! 2%nat);
     email := orEmpty (parts !! 3%nat);
     subject := orEmpty (parts !! 4%nat);
     body := orEmpty (Some body) |}.

Definition meaninglessPatterns : list jsstring :=
  [ js "^$";
    js "^\s*$";
    js "^\*\s*$";
    js "^feat:\s*$";
    js "^fix:\s*$";
    js "^chore:\s*$";
    js "^docs:\s*$";
    js "^style:\s*$";
    js "^refactor:\s*$";
    js "^test:\s*$" ].

(** ** Thrown errors *)

(** An [Error] is identified with its message; [inl] is a throw. *)
Definition result (A : Type) : Type := jsstring + A.

Definition throw {A} (message : jsstring) : result A := inl message.

(** ** The commit filter: [fetchGitLog] *)

Section CommitFilter.

(** [String.prototype.toLowerCase], the host's Unicode case mapping. *)
Variable toLowerCase : jsstring -> jsstring.

(** [patterns.some(pattern => new RegExp(pattern).test(subject))] *)
Definition isMeaningless (patterns : list jsstring) (subject : jsstring) : bool :=
  existsb (fun pattern =>
             match RegExp pattern with
             | Some regex => test regex subject
             | None => false
             end) patterns.

(** The second [filter] callback of [fetchGitLog], over a list of patterns. *)
Definition keepCommitWith (patterns : list jsstring) (commit : CommitInfo) : bool :=
  if negb (truthy (hash commit)) || negb (truthy (date commit))
     || negb (truthy (author commit)) || negb (truthy (subject commit))
  then false
  else if length (trim (subject commit)) <? 3 then false
  else if negb (truthy (trim (author commit)))
          || negb (truthy (trim (email commit)))
  then false
  else
    let subject := trim (toLowerCase (subject commit)) in
    if isMeaningless patterns subject then false else true.

Definition keepCommit : CommitInfo -> bool := keepCommitWith meaninglessPatterns.

(** [fetchGitLog] from the text that [runGitCommand] returned. *)
Definition fetchGitLogWith (patterns : list jsstring) (output : jsstring)
  : list CommitInfo :=
  List.filter (keepCommitWith patterns)
    (map parseLine
       (List.filter (fun line => truthy (trim line)) (split LF output))).

Definition fetchGitLog : jsstring -> list CommitInfo :=
  fetchGitLogWith meaninglessPatterns.

End CommitFilter.

(** The record written back in the format of the log query: six fields
    separated by tabs, one record per line. *)
Definition serializeCommit (c : CommitInfo) : jsstring :=
  join [TAB] [hash c; date c; author c; email c; subject c; body c].

Definition serializeLog (commits : list CommitInfo) : jsstring :=
  join [LF] (map serializeCommit commits).

(** ** The report merger: [mergeBatchAnalyses] *)

Record ResumeAnalysis := {
  summary : jsstring;
  keyAchievements : list jsstring;
  technicalSkills : list jsstring;
  businessImpact : list jsstring;
  problemSolving : list jsstring;
  leadership : list jsstring
}.

(** The five list fields. *)
Definition listFields : list (ResumeAnalysis -> list jsstring) :=
  [keyAchievements; technicalSkills; businessImpact; problemSolving; leadership].

(** One round of the [forEach]: [merged.f.push(...analysis.f)] for each list
    field [f]. *)
Definition pushAll (merged analysis : ResumeAnalysis) : ResumeAnalysis :=
  {| summary := summary merged;
     keyAchievements := keyAchievements merged ++ keyAchievements analysis;
     technicalSkills := technicalSkills merged ++ technicalSkills analysis;
     businessImpact := businessImpact merged ++ businessImpact analysis;
     problemSolving := problemSolving merged ++ problemSolving analysis;
     leadership := leadership merged ++ leadership analysis |}.

(** A [Set] of strings is the list of its elements in insertion order. *)
Definition Set_add (s : list jsstring) (x : jsstring) : list jsstring :=
  if decide (x ∈ s) then s else s ++ [x].

(** [new Set(items)] *)
Definition Set_from (items : list jsstring) : list jsstring :=
  fold_left Set_add items [].

(** [[...new Set(items)].slice(0, 5)] *)
Definition uniqueFirst5 (items : list jsstring) : list jsstring :=
  slice 0 5 (Set_from items).

Definition mergeBatchAnalyses (analyses : list ResumeAnalysis) : ResumeAnalysis :=
  let merged :=
    {| summary := join (js " ") (map summary analyses);
       keyAchievements := [];
       technicalSkills := [];
       businessImpact := [];
       problemSolving := [];
       leadership := [] |} in
  let merged := fold_left pushAll analyses merged in
  {| summary := summary merged;
     keyAchievements := uniqueFirst5 (keyAchievements merged);
     technicalSkills := uniqueFirst5 (technicalSkills merged);
     businessImpact := uniqueFirst5 (businessImpact merged);
     problemSolving := uniqueFirst5 (problemSolving merged);
     leadership := uniqueFirst5 (leadership merged) |}.

(** Deduplication that keeps the first occurrence of every string and drops
    the later ones, written after the specification's words. *)
Fixpoint dedupFirstSeen (l : list jsstring) : list jsstring :=
  match l with
  | [] => []
  | x :: rest => x :: List.filter (fun y => negb (bool_decide (y = x))) (dedupFirstSeen rest)
  end.

(** ** The batch partition of [analyzeCommitsWithGPT] *)

Definition batchSize : nat := 20.

Unset Equations With Funext.

(** [for (let i = 0; i < commits.length; i += batchSize)
      batches.push(commits.slice(i, i + batchSize))] *)
Equations? batchLoop {A} (commits : list A) (i : nat) (batches : list (list A))
  : list (list A) by wf (length commits - i) lt :=
  batchLoop commits i batches with decide (i < length commits) => {
    | left _ => batchLoop commits (i + batchSize)
                  (batches ++ [slice i (i + batchSize) commits]);
    | right _ => batches }.
Proof. unfold batchSize. lia. Qed.

Definition splitBatches {A} (commits : list A) : list (list A) :=
  batchLoop commits 0 [].

(** ** The project context: [getProjectContext] *)

(** What the function reads from its surroundings. *)
Record projectDir := {
  (** [process.cwd()]; [None] when it throws *)
  process_cwd : option jsstring;
  (** [existsSync(join(process.cwd(), 'package.json'))] *)
  existsSync_packageJson : bool;
  (** [execSync('cat package.json')]; [None] when the command fails *)
  cat_packageJson : option jsstring
}.

Definition fallbackContext : jsstring :=
  js "프로젝트 컨텍스트를 가져올 수 없습니다.".

(** [key] as an array index: a canonical decimal numeral below 2^32 - 1. *)
Definition arrayIndex (key : jsstring) : option N :=
  match key with
  | [] => None
  | c :: rest =>
    if forallb isDigit key && (negb (c =? 48)%N || negb (truthy rest)) then
      let n := fold_left (fun acc d => acc * 10 + (d - 48))%N key 0%N in
      if (n <? 4294967295)%N then Some n else None
    else None
  end.

Fixpoint insertIndex (x : N * jsstring) (l : list (N * jsstring))
  : list (N * jsstring) :=
  match l with
  | [] => [x]
  | y :: l' => if (fst x <=? fst y)%N then x :: l else y :: insertIndex x l'
  end.

Definition sortIndices (l : list (N * jsstring)) : list (N * jsstring) :=
  foldr insertIndex [] l.

(** The own keys of a parsed object: array indices in ascending order, then
    the other keys in the order of their first appearance. *)
Definition ownKeys (members : list (jsstring * json)) : list jsstring :=
  let keys := Set_from (map fst members) in
  let indices :=
    omap (fun k => match arrayIndex k with
                   | Some n => Some (n, k)
                   | None => None
                   end) keys in
  map snd (sortIndices indices)
  ++ List.filter (fun k => match arrayIndex k with
                           | Some _ => false
                           | None => true
                           end) keys.

(** [Object.keys(v)] for a value that is neither [null] nor [undefined]. *)
Definition Object_keys (v : json) : list jsstring :=
  match v with
  | JObject members => ownKeys members
  | JArray elements => map decimal (seq 0 (length elements))
  | JString s => map decimal (seq 0 (length s))
  | JNull | JBool _ | JNumber _ => []
  end.

Section ProjectContext.

(** [JSON.parse]; [inl message] is a thrown SyntaxError. *)
Variable JSON_parse : jsstring -> result json.

(** Conversions of a number, given by the text of its token. *)
Variable Number_toString : jsstring -> jsstring.
Variable Number_toBoolean : jsstring -> bool.

(** A value in a boolean position; [None] is [undefined]. *)
Definition toBoolean (v : option json) : bool :=
  match v with
  | None => false
  | Some JNull => false
  | Some (JBool b) => b
  | Some (JNumber literal) => Number_toBoolean literal
  | Some (JString s) => truthy s
  | Some (JArray _) => true
  | Some (JObject _) => true
  end.

(** [v || d] *)
Definition orDefault (v : option json) (d : json) : json :=
  match v with
  | Some x => if toBoolean v then x else d
  | None => d
  end.

(** [v.key] for a property name that no prototype defines; [None] is the
    TypeError of reading a property of [null]. *)
Definition getProperty (v : json) (key : jsstring) : option (option json) :=
  match v with
  | JNull => None
  | JObject members => Some (getMember key members)
  | JBool _ | JNumber _ | JString _ | JArray _ => Some None
  end.

(** The string a value becomes inside a template literal; [None] is the
    TypeError of an object whose own [toString] property is not callable. *)
Fixpoint ToString (v : json) : option jsstring :=
  match v with
  | JNull => Some (js "null")
  | JBool true => Some (js "true")
  | JBool false => Some (js "false")
  | JNumber literal => Some (Number_toString literal)
  | JString s => Some s
  | JArray elements =>
    let fix each (l : list json) : option (list jsstring) :=
      match l with
      | [] => Some []
      | e :: l' =>
        match (match e with JNull => Some [] | _ => ToString e end), each l' with
        | Some x, Some xs => Some (x :: xs)
        | _, _ => None
        end
      end in
    match each elements with
    | Some parts => Some (join (js ",") parts)
    | None => None
    end
  | JObject members =>
    match getMember (js "toString") members with
    | Some _ => None
    | None => Some (js "[object Object]")
    end
  end.

(** The template literal, from its four interpolated strings. *)
Definition contextText (name description : jsstring)
  (dependencies devDependencies : list jsstring) : jsstring :=
  js "프로젝트명: " ++ name ++ [LF]
  ++ js "설명: " ++ description ++ [LF]
  ++ js "주요 의존성: " ++ join (js ", ") dependencies ++ [LF]
  ++ js "개발 의존성: " ++ join (js ", ") devDependencies.

Definition renderContext (packageJson : json) : option jsstring :=
  name ← getProperty packageJson (js "name");
  nameText ← ToString (orDefault name (JString (js "Unknown")));
  description ← getProperty packageJson (js "description");
  descriptionText ← ToString (orDefault description (JString (js "No description")));
  dependencies ← getProperty packageJson (js "dependencies");
  devDependencies ← getProperty packageJson (js "devDependencies");
  Some (contextText nameText descriptionText
          (slice 0 10 (Object_keys (orDefault dependencies (JObject []))))
          (slice 0 5 (Object_keys (orDefault devDependencies (JObject []))))).

(** The [try] block: [None] when something is thrown, [Some None] when the
    block ends without returning. *)
Definition tryProjectContext (dir : projectDir) : option (option jsstring) :=
  match process_cwd dir with
  | None => None
  | Some _ =>
    if existsSync_packageJson dir then
      match cat_packageJson dir with
      | None => None
      | Some text =>
        match JSON_parse text with
        | inl _ => None
        | inr packageJson =>
          match renderContext packageJson with
          | Some context => Some (Some context)
          | None => None
          end
        end
      end
    else Some None
  end.

Definition getProjectContext (dir : projectDir) : result jsstring :=
  match tryProjectContext dir with
  | Some (Some context) => inr context
  | Some None => inr fallbackContext
  | None => inr fallbackContext
  end.

End ProjectContext.

(** ** The batch analyzer: [analyzeBatch] and [analyzeCommitsWithGPT] *)

(** What [openai.chat.completions.create] does with a request. *)
Inductive completion :=
| CallFailed (message : jsstring)
| Content (response : option jsstring).

(** The shape that the annotation [Promise<ResumeAnalysis>] asserts of a
    parsed response. *)
Definition asString (v : json) : option jsstring :=
  match v with JString s => Some s | _ => None end.

Definition asStringArray (v : json) : option (list jsstring) :=
  match v with JArray elements => mapM asString elements | _ => None end.

Definition asResumeAnalysis (v : json) : option ResumeAnalysis :=
  match v with
  | JObject members =>
    s ← getMember (js "summary") members ≫= asString;
    k ← getMember (js "keyAchievements") members ≫= asStringArray;
    t ← getMember (js "technicalSkills") members ≫= asStringArray;
    b ← getMember (js "businessImpact") members ≫= asStringArray;
    p ← getMember (js "problemSolving") members ≫= asStringArray;
    l ← getMember (js "leadership") members ≫= asStringArray;
    Some {| summary := s; keyAchievements := k; technicalSkills := t;
            businessImpact := b; problemSolving := p; leadership := l |}
  | _ => None
  end.

(** The parsed responses on which [mergeBatchAnalyses] runs as on a
    [ResumeAnalysis]: the five list fields are arrays of strings, and
    [summary] is a string, or is [null] or absent, which [join] renders as
    the empty string. *)
Definition summaryText (v : option json) : option jsstring :=
  match v with
  | None => Some []
  | Some JNull => Some []
  | Some (JString s) => Some s
  | Some (JBool _) => None
  | Some (JNumber _) => None
  | Some (JArray _) => None
  | Some (JObject _) => None
  end.

Definition asMergeable (v : json) : option ResumeAnalysis :=
  match v with
  | JObject members =>
    s ← summaryText (getMember (js "summary") members);
    k ← getMember (js "keyAchievements") members ≫= asStringArray;
    t ← getMember (js "technicalSkills") members ≫= asStringArray;
    b ← getMember (js "businessImpact") members ≫= asStringArray;
    p ← getMember (js "problemSolving") members ≫= asStringArray;
    l ← getMember (js "leadership") members ≫= asStringArray;
    Some {| summary := s; keyAchievements := k; technicalSkills := t;
            businessImpact := b; problemSolving := p; leadership := l |}
  | _ => None
  end.

(** ** [mergeBatchAnalyses] on the values that [JSON.parse] returns

    [analyzeBatch] returns whatever [JSON.parse] gives, and nothing checks it
    against [ResumeAnalysis]: at run time [mergeBatchAnalyses] works on
    arbitrary JSON values.  Reading a property of [null] and spreading a value
    that is not iterable throw a TypeError; [None] stands for it. *)

Definition isHighSurrogate (c : N) : bool := (55296 <=? c)%N && (c <=? 56319)%N.
Definition isLowSurrogate (c : N) : bool := (56320 <=? c)%N && (c <=? 57343)%N.

(** The strings that the iterator of a string yields, one for each code
    point: a surrogate pair is kept together. *)
Fixpoint codePoints (s : jsstring) : list jsstring :=
  match s with
  | [] => []
  | c :: rest =>
    match rest with
    | d :: rest' =>
      if isHighSurrogate c && isLowSurrogate d then [c; d] :: codePoints rest'
      else [c] :: codePoints rest
    | [] => [[c]]
    end
  end.

(** The arguments that [...v] stands for: the elements of an array, the code
    points of a string; [None] is the TypeError of any other value,
    [undefined] included, none of which is iterable. *)
Definition spread (v : option json) : option (list json) :=
  match v with
  | Some (JArray elements) => Some elements
  | Some (JString s) => Some (map JString (codePoints s))
  | Some JNull => None
  | Some (JBool _) => None
  | Some (JNumber _) => None
  | Some (JObject _) => None
  | None => None
  end.

Module Untyped.

(** The merged object, with the entries that the run-time values put into
    it. *)
Record ResumeAnalysis := {
  summary : jsstring;
  keyAchievements : list json;
  technicalSkills : list json;
  businessImpact : list json;
  problemSolving : list json;
  leadership : list json
}.

Section Merge.

Variable Number_toString : jsstring -> jsstring.

(** What [join] makes of an element: [undefined] and [null] give the empty
    string, any other value its string. *)
Definition joinPart (v : option json) : option jsstring :=
  match v with
  | None => Some []
  | Some JNull => Some []
  | Some x => ToString Number_toString x
  end.

(** The equality of [Set] (SameValueZero).  Numbers are the same when they
    are written the same by [toString], which tells all numbers apart but
    the two zeros; arrays and objects are compared by identity, and the
    values met here sit at different places of freshly parsed values, so no
    two of them are the same. *)
Definition sameValueZero (x y : json) : bool :=
  match x, y with
  | JNull, JNull => true
  | JBool a, JBool b => bool_decide (a = b)
  | JNumber a, JNumber b => bool_decide (Number_toString a = Number_toString b)
  | JString a, JString b => bool_decide (a = b)
  | _, _ => false
  end.

Definition Set_add (s : list json) (x : json) : list json :=
  if existsb (sameValueZero x) s then s else s ++ [x].

(** [new Set(items)] *)
Definition Set_from (items : list json) : list json :=
  fold_left Set_add items [].

(** [[...new Set(items)].slice(0, 5)] *)
Definition uniqueFirst5 (items : list json) : list json :=
  slice 0 5 (Set_from items).

(** One round of the [forEach]: [merged.f.push(...analysis.f)] for each list
    field [f]. *)
Definition pushAll (merged : ResumeAnalysis) (analysis : json)
  : option ResumeAnalysis :=
  k ← getProperty analysis (js "keyAchievements") ≫= spread;
  t ← getProperty analysis (js "technicalSkills") ≫= spread;
  b ← getProperty analysis (js "businessImpact") ≫= spread;
  p ← getProperty analysis (js "problemSolving") ≫= spread;
  l ← getProperty analysis (js "leadership") ≫= spread;
  Some {| summary := summary merged;
          keyAchievements := keyAchievements merged ++ k;
          technicalSkills := technicalSkills merged ++ t;
          businessImpact := businessImpact merged ++ b;
          problemSolving := problemSolving merged ++ p;
          leadership := leadership merged ++ l |}.

Fixpoint forEach (analyses : list json) (merged : ResumeAnalysis)
  : option ResumeAnalysis :=
  match analyses with
  | [] => Some merged
  | analysis :: rest => pushAll merged analysis ≫= forEach rest
  end.

Definition mergeBatchAnalyses (analyses : list json) : option ResumeAnalysis :=
  summaries ← mapM (fun a => getProperty a (js "summary")) analyses;
  parts ← mapM joinPart summaries;
  merged ← forEach analyses
             {| summary := join (js " ") parts;
                keyAchievements := [];
                technicalSkills := [];
                businessImpact := [];
                problemSolving := [];
                leadership := [] |};
  Some {| summary := summary merged;
          keyAchievements := uniqueFirst5 (keyAchievements merged);
          technicalSkills := uniqueFirst5 (technicalSkills merged);
          businessImpact := uniqueFirst5 (businessImpact merged);
          problemSolving := uniqueFirst5 (problemSolving merged);
          leadership := uniqueFirst5 (leadership merged) |}.

End Merge.

End Untyped.

(** A report of strings, as the object that holds it at run time. *)
Definition untyped (analysis : ResumeAnalysis) : Untyped.ResumeAnalysis :=
  {| Untyped.summary := summary analysis;
     Untyped.keyAchievements := map JString (keyAchievements analysis);
     Untyped.technicalSkills := map JString (technicalSkills analysis);
     Untyped.businessImpact := map JString (businessImpact analysis);
     Untyped.problemSolving := map JString (problemSolving analysis);
     Untyped.leadership := map JString (leadership analysis) |}.

(** How a run of [analyzeCommitsWithGPT] ends: with a report, which is a
    [ResumeAnalysis] when the parsed values are within [asMergeable] and the
    merged object as it is otherwise; with an error that carries a message;
    or with the TypeError that [mergeBatchAnalyses] throws, whose message is
    the engine's. *)
Inductive outcome :=
| Resolved (analysis : ResumeAnalysis)
| ResolvedUntyped (report : Untyped.ResumeAnalysis)
| Rejected (message : jsstring)
| RejectedTypeError.

(** The report that the caller gets, if any. *)
Definition returned (o : outcome) : option Untyped.ResumeAnalysis :=
  match o with
  | Resolved analysis => Some (untyped analysis)
  | ResolvedUntyped report => Some report
  | Rejected _ => None
  | RejectedTypeError => None
  end.

Definition noResponseMessage : jsstring := js "GPT 응답을 받지 못했습니다.".

Definition missingKeyMessage : jsstring :=
  js "OPENAI_API_KEY 환경변수가 설정되지 않았습니다.".

(** The message of the error that [analyzeBatch] rethrows. *)
Definition batchError (batchNum : nat) (message : jsstring) : jsstring :=
  js "배치 " ++ decimal batchNum ++ js " 분석 실패: " ++ message.

Section Analysis.

Variable JSON_parse : jsstring -> result json.
Variable Number_toString : jsstring -> jsstring.
Variable Number_toBoolean : jsstring -> bool.

(** [new OpenAI({apiKey})]; [None] is an absent key. *)
Variable newOpenAI : option jsstring -> result unit.

(** The language-model service, as a function of the arguments of
    [analyzeBatch], which determine the prompt. *)
Variable createCompletion :
  list CommitInfo -> nat -> nat -> jsstring -> completion.

Variable OPENAI_API_KEY : option jsstring.

Definition analyzeBatch (batch : list CommitInfo) (batchNum totalBatches : nat)
  (projectContext : jsstring) : result json :=
  match newOpenAI OPENAI_API_KEY with
  | inl e => throw e
  | inr _ =>
    let attempt : result json :=
      match createCompletion batch batchNum totalBatches projectContext with
      | CallFailed message => throw message
      | Content response =>
        match response with
        | Some text =>
          if truthy text then JSON_parse text else throw noResponseMessage
        | None => throw noResponseMessage
        end
      end in
    match attempt with
    | inl message => throw (batchError batchNum message)
    | inr v => inr v
    end
  end.

(** The loop over [batches], from index [i] on. *)
Fixpoint analyzeLoop (batches : list (list CommitInfo)) (i totalBatches : nat)
  (projectContext : jsstring) (batchAnalyses : list json) : result (list json) :=
  match batches with
  | [] => inr batchAnalyses
  | batch :: rest =>
    match analyzeBatch batch (i + 1) totalBatches projectContext with
    | inl e => inl e
    | inr batchAnalysis =>
      analyzeLoop rest (S i) totalBatches projectContext
        (batchAnalyses ++ [batchAnalysis])
    end
  end.

(** The run ends in [mergeBatchAnalyses] on the parsed values, whatever they
    are: for values within [asMergeable] the report is given as a
    [ResumeAnalysis], for the others as the merged object or the TypeError. *)
Definition analyzeCommitsWithGPT (dir : projectDir) (commits : list CommitInfo)
  : outcome :=
  match newOpenAI OPENAI_API_KEY with
  | inl e => Rejected e
  | inr _ =>
    if negb (truthy (default [] OPENAI_API_KEY)) then Rejected missingKeyMessage
    else
      match getProjectContext JSON_parse Number_toString Number_toBoolean dir with
      | inl e => Rejected e
      | inr projectContext =>
        let batches := splitBatches commits in
        match analyzeLoop batches 0 (length batches) projectContext [] with
        | inl e => Rejected e
        | inr batchAnalyses =>
          match mapM asMergeable batchAnalyses with
          | Some analyses => Resolved (mergeBatchAnalyses analyses)
          | None =>
            match Untyped.mergeBatchAnalyses Number_toString batchAnalyses with
            | Some report => ResolvedUntyped report
            | None => RejectedTypeError
            end
          end
        end
      end
  end.

End Analysis.

(** ** Concrete hosts, for running the program on examples *)

(** Lower-casing of the Basic Latin letters; every other code unit is kept. *)
Definition asciiLower (c : N) : N :=
  if (65 <=? c)%N && (c <=? 90)%N then (c + 32)%N else c.

Definition asciiLowerCase (s : jsstring) : jsstring := map asciiLower s.

(** [JSON.parse] through the reference parser. *)
Definition JSON_parse_ref (text : jsstring) : result json :=
  match parseJSON text with
  | Some v => inr v
  | None => throw (js "Unexpected token in JSON")
  end.

(** A JSON text written with ['] standing for the double quote. *)
Definition jsq (s : string) : jsstring :=
  map (fun c => if (c =? 39)%N then 34%N else c) (js s).

(** ** Vocabulary of the specification *)

(** A string of white space only. *)
Definition blank (s : jsstring) : Prop :=
  Forall (fun c => isWhiteSpace c = true) s.

(** A string that does not start with white space. *)
Definition startsClean (s : jsstring) : bool :=
  match s with
  | [] => true
  | c :: _ => negb (isWhiteSpace c)
  end.

(** A string that neither starts nor ends with white space. *)
Definition trimmed (s : jsstring) : Prop :=
  startsClean s = true /\ startsClean (rev s) = true.

Definition conventionalPrefixes : list jsstring :=
  [js "feat:"; js "fix:"; js "chore:"; js "docs:"; js "style:";
   js "refactor:"; js "test:"].

(** A bare conventional-commit prefix: the prefix and nothing but white
    space after it. *)
Definition barePrefix (s : jsstring) : Prop :=
  exists p w, p ∈ conventionalPrefixes /\ s = p ++ w /\ blank w.

(** The meaningless subjects: empty, white space only, a bare asterisk, or a
    bare conventional-commit prefix. *)
Definition meaninglessSubject (s : jsstring) : Prop :=
  s = [] \/ blank s \/ (exists w, s = js "*" ++ w /\ blank w) \/ barePrefix s.

(** The regular expression of a pattern [^p\s*$] for a literal [p]. *)
Definition barePattern (p : jsstring) : regex :=
  AssertStart :: map (fun c => One (Lit c)) p ++ [Star Space; AssertEnd].

(** A parser whose rest is shorter than its input. *)
Definition consuming (p : jsstring -> option (json * jsstring)) : Prop :=
  forall s v r, p s = Some (v, r) -> length r < length s.

Definition consumingWith {A} (p : jsstring -> A -> option (json * jsstring))
  : Prop :=
  forall s a v r, p s a = Some (v, r) -> length r < length s.

(** What is assumed of the host's [toLowerCase]: the result is the
    concatenation of one piece per code unit; a Basic Latin code unit or a
    white-space code unit gives its Basic Latin lower case, and any other
    code unit gives at least one code unit, none of them white space and
    none of them in Basic Latin unless a lower-case letter. *)
Definition isAsciiLowerLetter (c : N) : bool := (97 <=? c)%N && (c <=? 122)%N.

Definition lowerPiece (c : N) (p : jsstring) : Prop :=
  if (c <? 128)%N || isWhiteSpace c then p = [asciiLower c]
  else p <> []
       /\ Forall (fun d => isWhiteSpace d = false
                           /\ ((d <? 128)%N = true -> isAsciiLowerLetter d = true)) p.

Definition CaseMapping (toLowerCase : jsstring -> jsstring) : Prop :=
  forall s, exists ps, toLowerCase s = concat ps /\ Forall2 lowerPiece s ps.

(** The part of [lowerPiece] that trimming depends on. *)
Definition cleanPiece (c : N) (p : jsstring) : Prop :=
  if isWhiteSpace c then p = [c]
  else p <> [] /\ Forall (fun d => isWhiteSpace d = false) p.

Definition isBlank (s : jsstring) : bool := forallb isWhiteSpace s.

(** The lines of a text that are not blank. *)
Definition nonBlankLines (output : jsstring) : list jsstring :=
  List.filter (fun line => negb (isBlank line)) (split LF output).

(** A log line whose body field starts with a space. *)
Definition indentedBodyLine : jsstring :=
  join [TAB] [js "a1b2c3"; js "2023-06-01"; js "Jane Doe"; js "jane@x.com";
              js "Add retry logic to uploader";
              js " Handles transient 5xx errors"].

(** What makes a record survive a second pass of the filter unchanged. *)
Definition survivesRefilter (toLowerCase : jsstring -> jsstring)
  (c : CommitInfo) : Prop :=
  parseLine (serializeCommit c) = c
  /\ (LF ∉ serializeCommit c)
  /\ isBlank (serializeCommit c) = false
  /\ keepCommit toLowerCase c = true.

(** Two partial reports whose key achievements together exceed five. *)
Definition partialFirst : ResumeAnalysis :=
  {| summary := js "one";
     keyAchievements := [js "a1"; js "a2"; js "a3"];
     technicalSkills := []; businessImpact := [];
     problemSolving := []; leadership := [] |}.

Definition partialSecond : ResumeAnalysis :=
  {| summary := js "two";
     keyAchievements := [js "b1"; js "b2"; js "b3"];
     technicalSkills := []; businessImpact := [];
     problemSolving := []; leadership := [] |}.




(** A run on one commit in which the service answers every request with a
    report that lacks its summary, and a directory without [package.json]. *)
Definition sampleCommit : CommitInfo :=
  {| hash := js "a1b2c3"; date := js "2023-06-01"; author := js "Jane Doe";
     email := js "jane@x.com"; subject := js "Add retry logic to uploader";
     body := js "Handles transient 5xx errors" |}.

Definition summarylessText : jsstring :=
  jsq "{'keyAchievements': ['x'], 'technicalSkills': [], 'businessImpact': [], 'problemSolving': [], 'leadership': []}".

Definition summarylessService
  : list CommitInfo -> nat -> nat -> jsstring -> completion :=
  fun _ _ _ _ => Content (Some summarylessText).


Definition bareDir : projectDir :=
  {| process_cwd := Some (js "/work");
     existsSync_packageJson := false;
     cat_packageJson := None |}.

(** A directory holding an ordinary [package.json]. *)
Definition sampleDir : projectDir :=
  {| process_cwd := Some (js "/work");
     existsSync_packageJson := true;
     cat_packageJson :=
       Some (jsq "{'name': 'git-log-ai', 'dependencies': {'openai': '^4.0.0', 'dotenv': '^16.0.0'}, 'devDependencies': {'a': '1', 'b': '1', 'c': '1', 'd': '1', 'e': '1', 'f': '1'}}") |}.

(** A number token taken as its own rendering, and as truthy: enough for
    texts without numbers. *)
Definition literalText (literal : jsstring) : jsstring := literal.
Definition literalTruthy (literal : jsstring) : bool := true.

(** ** The prompt of [analyzeBatch] *)

(** One commit of the prompt: the date, the first 100 code units of the
    subject and, for a non-empty body, its first 150 code units on a line of
    their own. *)
Definition commitText (commit : CommitInfo) : jsstring :=
  let subject := take 100 (subject commit) in
  let body := if truthy (body commit) then take 150 (body commit) else [] in
  js "[" ++ date commit ++ js "] " ++ subject
  ++ (if truthy body then [LF] ++ js "  " ++ body else []).

(** [batch.map(...).join('\n\n')] *)
Definition commitsText (batch : list CommitInfo) : jsstring :=
  join [LF; LF] (map commitText batch).

(** The user message, line by line. *)
Definition buildPrompt (batch : list CommitInfo) (batchNum totalBatches : nat)
  (projectContext : jsstring) : jsstring :=
  join [LF]
    [js "당신은 시니어 개발자 채용담당자입니다. 다음 Git 커밋 로그를 분석하여 이력서용 경험을 정리해주세요.";
     [];
     js "프로젝트 컨텍스트:";
     projectContext;
     [];
     js "커밋 로그 (배치 " ++ decimal batchNum ++ js "/" ++ decimal totalBatches ++ js "):";
     commitsText batch;
     [];
     js "분석 기준:";
     js "- 기술적 깊이와 복잡성 강조";
     js "- 비즈니스 임팩트와 수치화된 성과 포함";
     js "- 문제 해결 과정과 의사결정 근거 설명";
     js "- 팀 리더십과 협업 경험 구체화";
     [];
     js "JSON 형식으로 응답:";
     js "{";
     jsq "  'summary': '이 배치의 개발 경험을 2-3문장으로 요약 (기술스택, 규모, 역할 강조)',";
     jsq "  'keyAchievements': [";
     jsq "    '구체적 수치와 함께 기술적 성과 (예: 성능 40% 향상, 메모리 사용량 50% 감소)',";
     jsq "    '비즈니스 임팩트가 명확한 성과 (예: 사용자 이탈률 25% 감소, 매출 15% 증가)',";
     jsq "    '팀/조직에 기여한 성과 (예: 코드 리뷰 프로세스 도입으로 버그 60% 감소)'";
     js "  ],";
     jsq "  'technicalSkills': [";
     jsq "    '사용한 기술스택과 아키텍처 패턴',";
     jsq "    '성능 최적화나 확장성 관련 경험',";
     jsq "    '개발 도구와 프로세스 개선 경험'";
     js "  ],";
     jsq "  'businessImpact': [";
     jsq "    '사용자 경험 개선 사례와 수치',";
     jsq "    '운영 효율성 향상 사례',";
     jsq "    '비즈니스 목표 달성에 기여한 부분'";
     js "  ],";
     jsq "  'problemSolving': [";
     jsq "    '복잡한 기술적 문제 해결 과정',";
     jsq "    '리스크 관리와 예외 상황 대응',";
     jsq "    '성능 이슈나 확장성 문제 해결'";
     js "  ],";
     jsq "  'leadership': [";
     jsq "    '기획-개발 간 의사결정 과정과 기준 수립',";
     jsq "    '코드 품질 향상과 팀 프로세스 개선',";
     jsq "    '멘토링과 지식 공유 경험'";
     js "  ]";
     js "}";
     [];
     js "각 항목은 구체적이고 측정 가능한 결과를 포함하여 작성해주세요."].

(** ** Command-line arguments: [parseArgs] *)

Module Cli.

Section Args.

(** The numbers of the host, and [parseInt] on a string or [undefined]. *)
Variable number : Type.
Variable parseInt : option jsstring -> number.

(** The flags [web], [help] and [analyze] are only ever set to [true];
    [false] stands for a flag that was not set. *)
Record CliArgs := {
  repo : option jsstring;
  author : option jsstring;
  since : option jsstring;
  web : bool;
  port : option number;
  help : bool;
  analyze : bool
}.

Definition noArgs : CliArgs :=
  {| repo := None; author := None; since := None; web := false;
     port := None; help := false; analyze := false |}.

Definition setRepo (v : option jsstring) (a : CliArgs) : CliArgs :=
  {| repo := v; author := author a; since := since a; web := web a;
     port := port a; help := help a; analyze := analyze a |}.

Definition setAuthor (v : option jsstring) (a : CliArgs) : CliArgs :=
  {| repo := repo a; author := v; since := since a; web := web a;
     port := port a; help := help a; analyze := analyze a |}.

Definition setSince (v : option jsstring) (a : CliArgs) : CliArgs :=
  {| repo := repo a; author := author a; since := v; web := web a;
     port := port a; help := help a; analyze := analyze a |}.

Definition setWeb (a : CliArgs) : CliArgs :=
  {| repo := repo a; author := author a; since := since a; web := true;
     port := port a; help := help a; analyze := analyze a |}.

Definition setPort (v : number) (a : CliArgs) : CliArgs :=
  {| repo := repo a; author := author a; since := since a; web := web a;
     port := Some v; help := help a; analyze := analyze a |}.

Definition setHelp (a : CliArgs) : CliArgs :=
  {| repo := repo a; author := author a; since := since a; web := web a;
     port := port a; help := true; analyze := analyze a |}.

Definition setAnalyze (a : CliArgs) : CliArgs :=
  {| repo := repo a; author := author a; since := since a; web := web a;
     port := port a; help := help a; analyze := true |}.

(** The flags whose case calls [next()]. *)
Definition takesValue (arg : jsstring) : bool :=
  bool_decide (arg ∈ [js "--repo"; js "--author"; js "--since"; js "--port"]).

(** The loop of [parseArgs] over the arguments that are left; [next()] takes
    the following argument, or [undefined] at the end. *)
Fixpoint parseLoop (argv : list jsstring) (args : CliArgs) : CliArgs :=
  match argv with
  | [] => args
  | arg :: rest =>
    if decide (arg = js "--repo") then
      match rest with
      | value :: rest' => parseLoop rest' (setRepo (Some value) args)
      | [] => setRepo None args
      end
    else if decide (arg = js "--author") then
      match rest with
      | value :: rest' => parseLoop rest' (setAuthor (Some value) args)
      | [] => setAuthor None args
      end
    else if decide (arg = js "--since") then
      match rest with
      | value :: rest' => parseLoop rest' (setSince (Some value) args)
      | [] => setSince None args
      end
    else if decide (arg = js "--web") then parseLoop rest (setWeb args)
    else if decide (arg = js "--port") then
      match rest with
      | value :: rest' => parseLoop rest' (setPort (parseInt (Some value)) args)
      | [] => setPort (parseInt None) args
      end
    else if decide (arg = js "--analyze") then parseLoop rest (setAnalyze args)
    else if decide (arg = js "-h") then parseLoop rest (setHelp args)
    else if decide (arg = js "--help") then parseLoop rest (setHelp args)
    else parseLoop rest args
  end.

(** [parseArgs(argv)]: the loop starts at index 2. *)
Definition parseArgs (argv : list jsstring) : CliArgs :=
  parseLoop (drop 2 argv) noArgs.

(** What [main] goes on to do with the parsed arguments: print the help,
    start the web server, or run on the command line.  [startWebServer]
    takes its default port when [args.port] is [undefined];
    [args.repo || process.cwd()], [args.author || ''] and
    [args.since || '2023-05-01'] give the arguments of the run. *)
Inductive Mode :=
| PrintHelp
| StartWebServer (port : number)
| RunCli (repoPath author since : jsstring) (analyze : bool).

(** The number 3000. *)
Variable port3000 : number.

Definition orElse (x : option jsstring) (d : jsstring) : jsstring :=
  match x with Some s => if truthy s then s else d | None => d end.

Definition main_dispatch (process_cwd : jsstring) (args : CliArgs) : Mode :=
  if help args then PrintHelp
  else if web args then StartWebServer (default port3000 (port args))
  else RunCli (orElse (repo args) process_cwd)
              (orElse (author args) [])
              (orElse (since args) (js "2023-05-01"))
              (analyze args).

(** *** Vocabulary *)

(** The assignment of the case of a flag that calls [next()]. *)
Definition applyValue (arg : jsstring) (v : option jsstring) (a : CliArgs)
  : CliArgs :=
  if decide (arg = js "--repo") then setRepo v a
  else if decide (arg = js "--author") then setAuthor v a
  else if decide (arg = js "--since") then setSince v a
  else setPort (parseInt v) a.

(** The assignment of the case of any other argument. *)
Definition applyFlag (arg : jsstring) (a : CliArgs) : CliArgs :=
  if decide (arg = js "--web") then setWeb a
  else if decide (arg = js "--analyze") then setAnalyze a
  else if decide (arg = js "-h") then setHelp a
  else if decide (arg = js "--help") then setHelp a
  else a.

(** The arguments end on a flag that still waits for its value. *)
Fixpoint dangling (argv : list jsstring) : bool :=
  match argv with
  | [] => false
  | arg :: rest =>
    if takesValue arg then
      match rest with
      | _ :: rest' => dangling rest'
      | [] => true
      end
    else dangling rest
  end.

(** [value] comes right after an occurrence of [flag]. *)
Definition follows (flag value : jsstring) (argv : list jsstring) : Prop :=
  exists pre post, argv = pre ++ flag :: value :: post.

End Args.

Arguments repo {number}.
Arguments author {number}.
Arguments since {number}.
Arguments web {number}.
Arguments port {number}.
Arguments help {number}.
Arguments analyze {number}.
Arguments noArgs {number}.
Arguments PrintHelp {number}.
Arguments StartWebServer {number}.
Arguments RunCli {number}.

End Cli.

(** The commit with its subject in Basic Latin lower case. *)
Definition lowerSubject (c : CommitInfo) : CommitInfo :=
  {| hash := hash c; date := date c; author := author c; email := email c;
     subject := asciiLowerCase (subject c); body := body c |}.

(** A response on which [analyzeBatch] returns [v]: a non-empty text that
    [JSON.parse] turns into [v]. *)
Definition batchReturns (JSON_parse : jsstring -> result json)
  (c : completion) (v : json) : Prop :=
  exists text, c = Content (Some text) /\ text <> [] /\ JSON_parse text = inr v.

(** The report of a run that merged nothing. *)
Definition emptyReport : ResumeAnalysis :=
  {| summary := []; keyAchievements := []; technicalSkills := [];
     businessImpact := []; problemSolving := []; leadership := [] |}.

(** The arguments that [fetchGitLog] passes to [runGitCommand], and the
    command line that [runGitCommand] hands to the shell. *)
Definition gitLogCommand (author since : jsstring) : list jsstring :=
  [js "log";
   jsq "--author='" ++ author ++ jsq "'";
   jsq "--since='" ++ since ++ jsq "'";
   jsq "--pretty=format:'%H%x09%ad%x09%an%x09%ae%x09%s%x09%b'";
   js "--date=short"].

Definition commandLine (command : list jsstring) : jsstring :=
  js "git " ++ join (js " ") command.

(** The double quote. *)
Definition QUOTE : N := 34.

(** A text in which every line feed is followed by something other than a
    line feed: no empty line inside, no line feed at the end. *)
Fixpoint paragraph (s : jsstring) : bool :=
  match s with
  | [] => true
  | c :: rest =>
    negb ((c =? LF)%N
          && match rest with [] => true | d :: _ => (d =? LF)%N end)
    && paragraph rest
  end.

(** The list fields of a report, by name. *)
Definition listFieldNames : list jsstring :=
  [js "keyAchievements"; js "technicalSkills"; js "businessImpact";
   js "problemSolving"; js "leadership"].

(** The values that [mergeBatchAnalyses] takes without a TypeError: objects
    whose five list fields are arrays or strings and whose summary, if it is
    there and not [null], has a string. *)
Definition mergeable (Number_toString : jsstring -> jsstring) (v : json)
  : Prop :=
  exists members,
    v = JObject members
    /\ is_Some (Untyped.joinPart Number_toString
                  (getMember (js "summary") members))
    /\ Forall (fun field => is_Some (spread (getMember field members)))
              listFieldNames.

(** Every batch returns, and [vals] holds the values in the order of the
    batches: batch [j], counted from 0, is asked for as number [j + 1] of
    the number of batches. *)
Definition batchesReturn (JSON_parse : jsstring -> result json)
  (createCompletion : list CommitInfo -> nat -> nat -> jsstring -> completion)
  (commits : list CommitInfo) (context : jsstring) (vals : list json) : Prop :=
  length vals = length (splitBatches commits)
  /\ forall j batch v,
       splitBatches commits !! j = Some batch -> vals !! j = Some v ->
       batchReturns JSON_parse
         (createCompletion batch (j + 1) (length (splitBatches commits)) context)
         v.

(** A run in which the service answers every request with a value that is
    not a report, a number for the summary and a string for a list, and
    one in which the answer lacks the lists. *)
Definition looseText : jsstring :=
  jsq "{'summary': 5, 'keyAchievements': 'ab', 'technicalSkills': [], 'businessImpact': [], 'problemSolving': [], 'leadership': []}".

Definition looseService
  : list CommitInfo -> nat -> nat -> jsstring -> completion :=
  fun _ _ _ _ => Content (Some looseText).

Definition looseReport : Untyped.ResumeAnalysis :=
  {| Untyped.summary := js "5";
     Untyped.keyAchievements := [JString (js "a"); JString (js "b")];
     Untyped.technicalSkills := []; Untyped.businessImpact := [];
     Untyped.problemSolving := []; Untyped.leadership := [] |}.

Definition listlessService
  : list CommitInfo -> nat -> nat -> jsstring -> completion :=
  fun _ _ _ _ => Content (Some (jsq "{'summary': 'x'}")).

(** ** The embedding on small inputs *)

Example trim_sample : trim (js "  fix: ") = js "fix:".
Proof. reflexivity. Qed.

Example trim_no_break_space : trim (160%N :: js "a b" ++ [65279%N]) = js "a b".
Proof. reflexivity. Qed.

Example split_sample :
  split TAB (js "a" ++ [TAB; TAB] ++ js "b" ++ [TAB]) = [js "a"; []; js "b"; []].
Proof. reflexivity. Qed.

Example split_empty : split LF [] = [[]].
Proof. reflexivity. Qed.

Example join_sample : join (js ", ") [js "a"; []; js "b"] = js "a, , b".
Proof. reflexivity. Qed.

Example RegExp_sample :
  RegExp (js "^fix:\s*$")
  = Some [AssertStart; One (Lit 102); One (Lit 105); One (Lit 120);
          One (Lit 58); Star Space; AssertEnd].
Proof. reflexivity. Qed.

Example RegExp_unsupported : RegExp (js "a|b") = None.
Proof. reflexivity. Qed.

Example test_unanchored :
  option_map (fun re => test re (js "a fix: b")) (RegExp (js "fix:\s*"))
  = Some true.
Proof. reflexivity. Qed.

Example test_anchored_sample :
  option_map (fun re => test re (js "a fix:")) (RegExp (js "^fix:\s*$"))
  = Some false.
Proof. reflexivity. Qed.

Example parseLine_short :
  parseLine (js "a1b2c3" ++ [TAB] ++ js "2023-06-01")
  = {| hash := js "a1b2c3"; date := js "2023-06-01"; author := [];
       email := []; subject := []; body := [] |}.
Proof. reflexivity. Qed.

Example parseJSON_sample :
  parseJSON (jsq " {'a': [1, -2.5e+3, true, null, 'x\u0041\n'], 'b': {}} ")
  = Some (JObject
            [(js "a", JArray [JNumber (js "1"); JNumber (js "-2.5e+3");
                              JBool true; JNull; JString (js "xA" ++ [LF])]);
             (js "b", JObject [])]).
Proof. vm_compute. reflexivity. Qed.

Example parseJSON_rejects :
  map parseJSON [js "[1,]"; js "01"; js "{'a':1}"; js "1 2"; js "tru"; []]
  = [None; None; None; None; None; None].
Proof. vm_compute. reflexivity. Qed.

Example ownKeys_order :
  ownKeys [(js "b", JNull); (js "10", JNull); (js "a", JNull); (js "2", JNull);
           (js "b", JBool true); (js "01", JNull)]
  = [js "2"; js "10"; js "b"; js "a"; js "01"].
Proof. vm_compute. reflexivity. Qed.

Example getMember_last :
  getMember (js "b") [(js "b", JNull); (js "a", JNull); (js "b", JBool true)]
  = Some (JBool true).
Proof. vm_compute. reflexivity. Qed.

Example uniqueFirst5_sample :
  uniqueFirst5 [js "a"; js "b"; js "a"; js "c"; js "b"; js "d"; js "e"; js "f"]
  = [js "a"; js "b"; js "c"; js "d"; js "e"].
Proof. vm_compute. reflexivity. Qed.

Example splitBatches_sample :
  splitBatches (seq 0 45) = [seq 0 20; seq 20 20; seq 40 5].
Proof. reflexivity. Qed.

(** ** Strings: trimming *)

Lemma trimStart_decompose (s : jsstring) :
  exists w, s = w ++ trimStart s /\ blank w /\ startsClean (trimStart s) = true.
Proof.
  induction s as [|c s IH]; simpl.
  - exists []. repeat split; constructor.
  - destruct (isWhiteSpace c) eqn:Hc.
    + destruct IH as (w & Hs & Hw & Hclean).
      exists (c :: w). simpl. rewrite <- Hs. repeat split; auto.
      constructor; auto.
    + exists []. simpl. rewrite Hc. repeat split; constructor.
Qed.

Lemma trimStart_blank_app (w s : jsstring) :
  blank w -> trimStart (w ++ s) = trimStart s.
Proof.
  induction 1 as [|c w Hc _ IH]; simpl; [reflexivity|]. now rewrite Hc.
Qed.

Lemma trimStart_clean (s : jsstring) : startsClean s = true -> trimStart s = s.
Proof.
  destruct s as [|c s]; simpl; [reflexivity|].
  intros H. apply negb_true_iff in H. now rewrite H.
Qed.

Lemma blank_rev (w : jsstring) : blank w -> blank (rev w).
Proof. unfold blank. intros H. now apply Forall_rev. Qed.

Lemma blank_app (u v : jsstring) : blank u -> blank v -> blank (u ++ v).
Proof. unfold blank. intros. now apply Forall_app. Qed.

Lemma trimStart_blank (w : jsstring) : blank w -> trimStart w = [].
Proof.
  intros H. rewrite <- (app_nil_r w). now rewrite trimStart_blank_app.
Qed.

(** [trim] removes a blank prefix and a blank suffix around a trimmed core. *)
Lemma trim_sandwich (w1 m w2 : jsstring) :
  blank w1 -> blank w2 -> trimmed m -> trim (w1 ++ m ++ w2) = m.
Proof.
  intros H1 H2 [Hs He]. unfold trim, trimEnd.
  rewrite trimStart_blank_app by assumption.
  destruct m as [|c m].
  - simpl. rewrite (trimStart_blank w2) by assumption. reflexivity.
  - rewrite (trimStart_clean ((c :: m) ++ w2)) by exact Hs.
    rewrite rev_app_distr.
    rewrite trimStart_blank_app by now apply blank_rev.
    rewrite trimStart_clean by exact He.
    apply rev_involutive.
Qed.

Lemma trim_decompose (s : jsstring) :
  exists w1 w2,
    s = w1 ++ trim s ++ w2 /\ blank w1 /\ blank w2 /\ trimmed (trim s).
Proof.
  destruct (trimStart_decompose s) as (w1 & Hs & Hw1 & Hc1).
  destruct (trimStart_decompose (rev (trimStart s))) as (w2 & Hr & Hw2 & Hc2).
  assert (Ht : trimStart s = trim s ++ rev w2).
  { unfold trim, trimEnd. rewrite <- rev_app_distr, <- Hr.
    now rewrite rev_involutive. }
  exists w1, (rev w2). repeat split.
  - now rewrite <- Ht.
  - assumption.
  - now apply blank_rev.
  - destruct (trim s) as [|c t] eqn:E; [reflexivity|].
    rewrite Ht in Hc1. exact Hc1.
  - unfold trim, trimEnd. now rewrite rev_involutive.
Qed.

Lemma trim_idempotent (s : jsstring) : trim (trim s) = trim s.
Proof.
  destruct (trim_decompose s) as (_ & _ & _ & _ & _ & Ht).
  rewrite <- (app_nil_r (trim s)) at 1.
  apply (trim_sandwich [] (trim s) []); [apply Forall_nil_2 .. | exact Ht].
Qed.

Lemma trim_nil_blank (s : jsstring) : trim s = [] -> blank s.
Proof.
  intros H. destruct (trim_decompose s) as (w1 & w2 & Hs & H1 & H2 & _).
  rewrite H in Hs. rewrite Hs. simpl. now apply blank_app.
Qed.

Lemma trim_blank (s : jsstring) : blank s -> trim s = [].
Proof.
  intros H. rewrite <- (app_nil_r s).
  change (trim (s ++ [] ++ []) = []).
  apply trim_sandwich; [assumption|apply Forall_nil_2|split; reflexivity].
Qed.

Lemma trimmed_blank_nil (s : jsstring) : trimmed s -> blank s -> s = [].
Proof.
  intros [Hs _] Hb. destruct s as [|c s]; [reflexivity|].
  inversion Hb as [|? ? Hc _]; subst. simpl in Hs. now rewrite Hc in Hs.
Qed.

Lemma truthy_true (s : jsstring) : truthy s = true <-> s <> [].
Proof. destruct s; simpl; split; congruence. Qed.

Lemma orEmpty_Some (s : jsstring) : orEmpty (Some s) = s.
Proof. now destruct s. Qed.

(** ** Strings: splitting and joining *)

Lemma split_not_nil (sep : N) (s : jsstring) : split sep s <> [].
Proof.
  induction s as [|c s IH]; simpl; [discriminate|].
  destruct (c =? sep)%N; [discriminate|].
  destruct (split sep s); [contradiction|discriminate].
Qed.

(** No part of a split contains the separator. *)
Lemma split_no_sep (sep : N) (s : jsstring) :
  Forall (fun w => sep ∉ w) (split sep s).
Proof.
  induction s as [|c s IH]; simpl.
  - constructor; [apply not_elem_of_nil|constructor].
  - destruct (N.eqb_spec c sep) as [->|Hne].
    + constructor; [apply not_elem_of_nil|assumption].
    + pose proof (split_not_nil sep s) as Hnil.
      destruct (split sep s) as [|w ws]; [contradiction|].
      inversion IH as [|? ? Hw Hws]; subst.
      constructor; [|assumption].
      intros Hin. apply elem_of_cons in Hin as [Heq|Hin]; [congruence|auto].
Qed.

Lemma join_cons (sep p : jsstring) (rest : list jsstring) :
  rest <> [] -> join sep (p :: rest) = p ++ sep ++ join sep rest.
Proof. destruct rest; [contradiction|reflexivity]. Qed.

Lemma join_split (sep : N) (s : jsstring) : join [sep] (split sep s) = s.
Proof.
  induction s as [|c s IH]; simpl; [reflexivity|].
  destruct (N.eqb_spec c sep) as [->|Hne].
  - rewrite join_cons by apply split_not_nil. simpl. now rewrite IH.
  - pose proof (split_not_nil sep s) as Hnil.
    destruct (split sep s) as [|w ws]; [contradiction|].
    destruct ws as [|w' ws].
    + simpl in *. now rewrite IH.
    + rewrite (join_cons [sep] (c :: w)) by discriminate.
      rewrite (join_cons [sep] w) in IH by discriminate.
      rewrite <- IH. reflexivity.
Qed.

Lemma split_whole (sep : N) (s : jsstring) : sep ∉ s -> split sep s = [s].
Proof.
  induction s as [|c s IH]; simpl; [reflexivity|].
  intros Hnot. apply not_elem_of_cons in Hnot as [Hne Hnot].
  destruct (N.eqb_spec c sep) as [->|_]; [contradiction|].
  now rewrite IH.
Qed.

Lemma split_app_sep (sep : N) (a b : jsstring) :
  sep ∉ a -> split sep (a ++ sep :: b) = a :: split sep b.
Proof.
  induction a as [|c a IH]; simpl.
  - intros _. now rewrite N.eqb_refl.
  - intros Hnot. apply not_elem_of_cons in Hnot as [Hne Hnot].
    destruct (N.eqb_spec c sep) as [->|_]; [contradiction|].
    now rewrite IH.
Qed.

(** Splitting undoes joining when no part contains the separator. *)
Lemma split_join (sep : N) (parts : list jsstring) :
  parts <> [] -> Forall (fun w => sep ∉ w) parts ->
  split sep (join [sep] parts) = parts.
Proof.
  induction parts as [|p rest IH]; [contradiction|].
  intros _ Hall. inversion Hall as [|? ? Hp Hrest]; subst.
  destruct rest as [|q rest].
  - simpl. now apply split_whole.
  - rewrite join_cons by discriminate.
    change (p ++ [sep] ++ join [sep] (q :: rest))
      with (p ++ sep :: join [sep] (q :: rest)).
    rewrite split_app_sep by assumption.
    now rewrite IH.
Qed.

Lemma join_blank_elem (sep : jsstring) (parts : list jsstring) (c : N) :
  c ∈ join sep parts -> c ∈ sep \/ exists p, p ∈ parts /\ c ∈ p.
Proof.
  induction parts as [|p rest IH]; simpl.
  - intros H. now apply elem_of_nil in H.
  - destruct rest as [|q rest].
    + intros H. right. exists p. split; [apply list_elem_of_here|assumption].
    + intros H. apply elem_of_app in H as [H|H].
      * right. exists p. split; [apply list_elem_of_here|assumption].
      * apply elem_of_app in H as [H|H]; [now left|].
        destruct (IH H) as [Hs|(p' & Hp' & Hc)]; [now left|].
        right. exists p'. split; [now apply list_elem_of_further|assumption].
Qed.

(** ** The reference parser: the fuel is enough *)

Ltac break_match :=
  match goal with
  | H : context [match ?x with _ => _ end] |- _ => destruct x eqn:?
  end.

Ltac break_match_in H :=
  match type of H with
  | context [match ?x with _ => _ end] => destruct x eqn:?
  end.

Lemma skipWs_length (s : jsstring) : length (skipWs s) <= length s.
Proof.
  induction s as [|c s IH]; simpl; [lia|].
  destruct (isJsonSpace c); simpl; lia.
Qed.

Lemma stripPrefix_length (p s r : jsstring) :
  stripPrefix p s = Some r -> length s = length p + length r.
Proof.
  revert s. induction p as [|a p IH]; intros [|b s] H; simpl in *;
    try discriminate; try (injection H as <-; reflexivity).
  destruct (a =? b)%N; [|discriminate]. now rewrite (IH s H).
Qed.

Lemma parseString_length (n : nat) :
  forall s x r, length s <= n -> parseString s = Some (x, r) ->
                length r < length s.
Proof.
  induction n as [|n IH]; intros s x r Hn H.
  - destruct s; [discriminate|simpl in Hn; lia].
  - destruct s as [|c s1]; [discriminate|]. cbn [parseString] in H.
    repeat (break_match_in H; try discriminate);
      injection H as <- <-; simpl in *;
      repeat match goal with
             | E : parseString ?t = Some _ |- _ =>
               apply IH in E; [|simpl in *; lia]
             end;
      try (simpl in *; lia).
Qed.

Lemma spanDigits_length (s : jsstring) :
  length (snd (spanDigits s)) <= length s.
Proof.
  induction s as [|c s IH]; simpl; [lia|].
  destruct (isDigit c); [|simpl; lia].
  destruct (spanDigits s). simpl in *. lia.
Qed.

Ltac span_facts :=
  repeat match goal with
         | E : spanDigits ?t = _ |- _ =>
           let L := fresh "L" in
           pose proof (spanDigits_length t) as L; rewrite E in L; clear E
         end.

Lemma signPart_length (s : jsstring) : length (snd (signPart s)) <= length s.
Proof.
  destruct s as [|c r]; simpl; [lia|]. destruct (c =? 45)%N; simpl; lia.
Qed.

Lemma intPart_length (s x r : jsstring) :
  intPart s = Some (x, r) -> length r < length s.
Proof.
  unfold intPart. intros H.
  repeat (break_match_in H; try discriminate); injection H as <- <-;
    span_facts; simpl in *; lia.
Qed.

Lemma fracPart_length (s x r : jsstring) :
  fracPart s = Some (x, r) -> length r <= length s.
Proof.
  unfold fracPart. intros H.
  repeat (break_match_in H; try discriminate); injection H as <- <-;
    span_facts; simpl in *; lia.
Qed.

Lemma expPart_length (s x r : jsstring) :
  expPart s = Some (x, r) -> length r <= length s.
Proof.
  unfold expPart. intros H.
  repeat (break_match; try discriminate);
    repeat match goal with
           | E : (_, _) = (_, _) |- _ => injection E as <- <-
           | E : Some _ = Some _ |- _ => injection E as <- <-
           end;
    span_facts; simpl in *; lia.
Qed.

Lemma parseNumber_length (s lit r : jsstring) :
  parseNumber s = Some (lit, r) -> length r < length s.
Proof.
  unfold parseNumber. intros H.
  pose proof (signPart_length s) as Hs.
  destruct (signPart s) as [sign s1]. simpl in Hs.
  destruct (intPart s1) as [[int s2]|] eqn:Ei; [|discriminate].
  destruct (fracPart s2) as [[fr s3]|] eqn:Ef; [|discriminate].
  destruct (expPart s3) as [[ex s4]|] eqn:Ee; [|discriminate].
  injection H as <- <-.
  apply intPart_length in Ei. apply fracPart_length in Ef.
  apply expPart_length in Ee. lia.
Qed.

Lemma parseAtom_length (s : jsstring) (v : json) (r : jsstring) :
  parseAtom s = Some (v, r) -> length r < length s.
Proof.
  unfold parseAtom. intros H.
  repeat (break_match_in H; try discriminate); injection H as <- <-;
    try match goal with
        | E : stripPrefix _ _ = Some _ |- _ =>
          apply stripPrefix_length in E; rewrite E; simpl; lia
        end.
  match goal with
  | E : parseNumber _ = Some _ |- _ => now apply parseNumber_length in E
  end.
Qed.


Section ParserStepFacts.

Variables pv pv' : jsstring -> option (json * jsstring).
Variables pe pe' : jsstring -> list json -> option (json * jsstring).
Variables pm pm' :
  jsstring -> list (jsstring * json) -> option (json * jsstring).

Lemma valueStep_consuming :
  consumingWith pe -> consumingWith pm -> consuming (valueStep pe pm).
Proof.
  intros He Hm s v r H. unfold valueStep in H.
  pose proof (skipWs_length s) as Hs.
  destruct (skipWs s) as [|c t]; [discriminate|]. simpl in Hs.
  pose proof (skipWs_length t) as Ht.
  repeat (break_match_in H; try discriminate);
    try (injection H as <- <-);
    repeat match goal with
           | E : parseString _ = Some _ |- _ =>
             apply (parseString_length _ _ _ _ (le_n _)) in E
           | E : pe _ _ = Some _ |- _ => apply He in E
           | E : pm _ _ = Some _ |- _ => apply Hm in E
           | E : parseAtom _ = Some _ |- _ => apply parseAtom_length in E
           end;
    simpl in *; try lia.
Qed.

Lemma elementsStep_consuming :
  consuming pv -> consumingWith pe -> consumingWith (elementsStep pv pe).
Proof.
  intros Hv He s acc v r H. unfold elementsStep in H.
  destruct (pv s) as [[v0 r0]|] eqn:E; [|discriminate].
  apply Hv in E. pose proof (skipWs_length r0) as Hs.
  repeat (break_match_in H; try discriminate);
    try (injection H as <- <-);
    repeat match goal with
           | E : pe _ _ = Some _ |- _ => apply He in E
           end;
    simpl in *; lia.
Qed.

Lemma membersStep_consuming :
  consuming pv -> consumingWith pm -> consumingWith (membersStep pv pm).
Proof.
  intros Hv Hm s acc v r H. unfold membersStep in H.
  pose proof (skipWs_length s) as Hs.
  destruct (skipWs s) as [|q t]; [discriminate|]. simpl in Hs.
  destruct (negb (q =? 34)%N); [discriminate|].
  destruct (parseString t) as [[key r1]|] eqn:Ek; [|discriminate].
  apply (parseString_length _ _ _ _ (le_n _)) in Ek.
  pose proof (skipWs_length r1) as H1.
  destruct (skipWs r1) as [|colon r2]; [discriminate|]. simpl in H1.
  destruct (negb (colon =? 58)%N); [discriminate|].
  destruct (pv r2) as [[v0 r3]|] eqn:E; [|discriminate].
  apply Hv in E. pose proof (skipWs_length r3) as H3.
  repeat (break_match_in H; try discriminate);
    try (injection H as <- <-);
    repeat match goal with
           | E : pm _ _ = Some _ |- _ => apply Hm in E
           end;
    simpl in *; lia.
Qed.

(** A step gives the same result over parsers that agree on shorter
    inputs. *)
Lemma valueStep_ext (s : jsstring) :
  (forall r acc, length r < length s -> pe r acc = pe' r acc) ->
  (forall r acc, length r < length s -> pm r acc = pm' r acc) ->
  valueStep pe pm s = valueStep pe' pm' s.
Proof.
  intros He Hm. unfold valueStep.
  pose proof (skipWs_length s) as Hs.
  destruct (skipWs s) as [|c t]; [reflexivity|]. simpl in Hs.
  pose proof (skipWs_length t) as Ht.
  destruct (c =? 123)%N; [|destruct (c =? 91)%N; [|reflexivity]];
    destruct (skipWs t) as [|d t']; try reflexivity;
    match goal with |- (if ?b then _ else _) = _ => destruct b end;
    try reflexivity; [apply Hm|apply He]; lia.
Qed.

Lemma elementsStep_ext (s : jsstring) (acc : list json) :
  consuming pv ->
  pv s = pv' s ->
  (forall r a, length r + 2 <= length s -> pe r a = pe' r a) ->
  elementsStep pv pe s acc = elementsStep pv' pe' s acc.
Proof.
  intros Hc Hv He. unfold elementsStep. rewrite <- Hv.
  destruct (pv s) as [[v r]|] eqn:E; [|reflexivity].
  apply Hc in E. pose proof (skipWs_length r) as Hr.
  destruct (skipWs r) as [|d r']; [reflexivity|]. simpl in Hr.
  destruct (d =? 44)%N; [|reflexivity]. apply He. lia.
Qed.

Lemma membersStep_ext (s : jsstring) (acc : list (jsstring * json)) :
  consuming pv ->
  (forall r, length r < length s -> pv r = pv' r) ->
  (forall r a, length r + 2 <= length s -> pm r a = pm' r a) ->
  membersStep pv pm s acc = membersStep pv' pm' s acc.
Proof.
  intros Hc Hv Hm. unfold membersStep.
  pose proof (skipWs_length s) as Hs.
  destruct (skipWs s) as [|q t]; [reflexivity|]. simpl in Hs.
  destruct (negb (q =? 34)%N); [reflexivity|].
  destruct (parseString t) as [[key r1]|] eqn:Ek; [|reflexivity].
  apply (parseString_length _ _ _ _ (le_n _)) in Ek.
  pose proof (skipWs_length r1) as H1.
  destruct (skipWs r1) as [|colon r2]; [reflexivity|]. simpl in H1.
  destruct (negb (colon =? 58)%N); [reflexivity|].
  rewrite <- Hv by lia.
  destruct (pv r2) as [[v r3]|] eqn:E; [|reflexivity].
  apply Hc in E. pose proof (skipWs_length r3) as H3.
  destruct (skipWs r3) as [|d r4]; [reflexivity|]. simpl in H3.
  destruct (d =? 44)%N; [|reflexivity]. apply Hm. lia.
Qed.

End ParserStepFacts.

Lemma parse_consuming (fuel : nat) :
  consuming (parseValue fuel)
  /\ consumingWith (parseElements fuel)
  /\ consumingWith (parseMembers fuel).
Proof.
  induction fuel as [|fuel (Hv & He & Hm)].
  - repeat split; repeat intro; discriminate.
  - split; [|split].
    + now apply valueStep_consuming.
    + now apply elementsStep_consuming.
    + now apply membersStep_consuming.
Qed.

(** One more unit of fuel changes nothing once the fuel exceeds twice the
    length of the input. *)
Lemma parse_fuel_step (fuel : nat) :
  (forall s, 2 * length s + 1 <= fuel ->
             parseValue (S fuel) s = parseValue fuel s)
  /\ (forall s acc, 2 * length s + 2 <= fuel ->
                    parseElements (S fuel) s acc = parseElements fuel s acc)
  /\ (forall s acc, 2 * length s + 2 <= fuel ->
                    parseMembers (S fuel) s acc = parseMembers fuel s acc).
Proof.
  induction fuel as [|fuel (Hv & He & Hm)].
  - repeat split; intros; lia.
  - destruct (parse_consuming (S fuel)) as (Cv & _ & _).
    split; [|split].
    + intros s Hs.
      change (valueStep (parseElements (S fuel)) (parseMembers (S fuel)) s
              = valueStep (parseElements fuel) (parseMembers fuel) s).
      apply valueStep_ext; intros r acc Hr; [apply He|apply Hm]; lia.
    + intros s acc Hs.
      change (elementsStep (parseValue (S fuel)) (parseElements (S fuel)) s acc
              = elementsStep (parseValue fuel) (parseElements fuel) s acc).
      apply elementsStep_ext; [exact Cv|apply Hv; lia|].
      intros r a Hr. apply He. lia.
    + intros s acc Hs.
      change (membersStep (parseValue (S fuel)) (parseMembers (S fuel)) s acc
              = membersStep (parseValue fuel) (parseMembers fuel) s acc).
      apply membersStep_ext; [exact Cv| |].
      * intros r Hr. apply Hv. lia.
      * intros r a Hr. apply Hm. lia.
Qed.

(** The answer of the reference parser does not depend on the fuel: any
    fuel above the bound gives what [parseJSON] gives. *)
Lemma parseJSON_fuel (text : jsstring) (fuel : nat) :
  2 * length text + 2 <= fuel ->
  parseValue fuel text = parseValue (2 * length text + 2) text.
Proof.
  intros H.
  assert (Hk : forall k b, 2 * length text + 1 <= b ->
                           parseValue (k + b) text = parseValue b text).
  { induction k as [|k IH]; intros b Hb; [reflexivity|].
    change (S k + b) with (S (k + b)).
    destruct (parse_fuel_step (k + b)) as (Hv & _).
    rewrite Hv by lia. now apply IH. }
  replace fuel with ((fuel - (2 * length text + 2)) + (2 * length text + 2))
    by lia.
  apply Hk. lia.
Qed.

(** ** Regular expressions: what the patterns match *)

Lemma matchHere_star (a : atom) (re : regex) (bol : bool) (s : jsstring) :
  matchHere (Star a :: re) bol s
  = matchHere re bol s
    || match s with
       | c :: s' => atomMatches a c && matchHere (Star a :: re) false s'
       | [] => false
       end.
Proof. destruct s; reflexivity. Qed.

Lemma searchFrom_anchored (re : regex) (s : jsstring) :
  searchFrom (AssertStart :: re) false s = false.
Proof. induction s as [|c s IH]; simpl; [reflexivity|exact IH]. Qed.

Lemma test_anchored (re : regex) (s : jsstring) :
  test (AssertStart :: re) s = matchHere re true s.
Proof.
  unfold test. destruct s as [|c s]; simpl.
  - now rewrite orb_false_r.
  - now rewrite searchFrom_anchored, orb_false_r.
Qed.

Lemma matchHere_blank_tail (bol : bool) (s : jsstring) :
  matchHere [Star Space; AssertEnd] bol s = true <-> blank s.
Proof.
  revert bol. induction s as [|c s IH]; intros bol.
  - split; [intros _; apply Forall_nil_2|reflexivity].
  - rewrite matchHere_star. simpl matchHere at 1. simpl orb.
    rewrite andb_true_iff, IH. unfold blank. rewrite Forall_cons. reflexivity.
Qed.

Lemma matchHere_literal (p : jsstring) (re : regex) (bol : bool) (s : jsstring) :
  matchHere (map (fun c => One (Lit c)) p ++ re) bol s = true
  <-> exists s', s = p ++ s'
                 /\ matchHere re (match p with [] => bol | _ :: _ => false end) s' = true.
Proof.
  revert bol s. induction p as [|c p IH]; intros bol s.
  - simpl. split; [intros H; now exists s|intros (s' & -> & H); exact H].
  - destruct s as [|d s]; simpl.
    + split; [discriminate|intros (s' & Hs & _); discriminate].
    + rewrite andb_true_iff, IH. split.
      * intros [Hd (s' & -> & H)]. apply N.eqb_eq in Hd as ->.
        exists s'. split; [reflexivity|]. now destruct p.
      * intros (s' & Hs & H). injection Hs as -> ->.
        split; [apply N.eqb_refl|]. exists s'. split; [reflexivity|].
        now destruct p.
Qed.

(** [^p\s*$] matches exactly [p] followed by white space. *)
Lemma test_barePattern (p s : jsstring) :
  test (barePattern p) s = true <-> exists w, s = p ++ w /\ blank w.
Proof.
  unfold barePattern. rewrite test_anchored, matchHere_literal.
  split; intros (w & Hs & Hw); exists w; (split; [exact Hs|]).
  - now apply matchHere_blank_tail in Hw.
  - now apply matchHere_blank_tail.
Qed.

(** [^$] matches exactly the empty string. *)
Lemma test_empty_pattern (s : jsstring) :
  test [AssertStart; AssertEnd] s = true <-> s = [].
Proof.
  rewrite test_anchored. destruct s; simpl; split; congruence.
Qed.

Lemma isMeaningless_cons (pattern : jsstring) (patterns : list jsstring)
  (s : jsstring) :
  isMeaningless (pattern :: patterns) s
  = match RegExp pattern with
    | Some regex => test regex s
    | None => false
    end || isMeaningless patterns s.
Proof. reflexivity. Qed.

(** Patterns that compile to [^p\s*$] match the strings made of one of the
    [p] and white space. *)
Lemma isMeaningless_bare (patterns prefixes : list jsstring) (s : jsstring) :
  Forall2 (fun pattern p => RegExp pattern = Some (barePattern p))
    patterns prefixes ->
  isMeaningless patterns s = true
  <-> exists p w, p ∈ prefixes /\ s = p ++ w /\ blank w.
Proof.
  induction 1 as [|pattern p patterns prefixes Hp _ IH].
  - split; [discriminate|]. intros (p & w & Hin & _).
    now apply elem_of_nil in Hin.
  - rewrite isMeaningless_cons, Hp, orb_true_iff, test_barePattern, IH.
    split.
    + intros [(w & Hs & Hw)|(q & w & Hq & Hs & Hw)].
      * exists p, w. split; [apply list_elem_of_here|auto].
      * exists q, w. split; [now apply list_elem_of_further|auto].
    + intros (q & w & Hq & Hs & Hw).
      apply elem_of_cons in Hq as [->|Hq]; [left|right]; eauto.
Qed.

Lemma prefixPatterns_compiled :
  Forall2 (fun pattern p => RegExp pattern = Some (barePattern p))
    (drop 1 meaninglessPatterns) ([] :: js "*" :: conventionalPrefixes).
Proof. repeat constructor. Qed.

(** The seven prefix patterns match the bare prefixes. *)
Lemma isMeaningless_prefixes (s : jsstring) :
  isMeaningless (drop 3 meaninglessPatterns) s = true <-> barePrefix s.
Proof.
  apply isMeaningless_bare.
  pose proof prefixPatterns_compiled as H.
  inversion H as [|? ? ? ? _ H']; subst.
  inversion H' as [|? ? ? ? _ H'']; subst.
  exact H''.
Qed.

(** The ten patterns match the meaningless subjects. *)
Lemma isMeaningless_spec (s : jsstring) :
  isMeaningless meaninglessPatterns s = true <-> meaninglessSubject s.
Proof.
  change meaninglessPatterns with (js "^$" :: drop 1 meaninglessPatterns).
  rewrite isMeaningless_cons.
  change (RegExp (js "^$")) with (Some [AssertStart; AssertEnd]).
  rewrite orb_true_iff, test_empty_pattern.
  rewrite (isMeaningless_bare _ _ s prefixPatterns_compiled).
  unfold meaninglessSubject, barePrefix. split.
  - intros [H|(p & w & Hp & Hs & Hw)]; [now left|].
    apply elem_of_cons in Hp as [->|Hp]; [right; left; now subst|].
    apply elem_of_cons in Hp as [->|Hp]; [right; right; left; eauto|].
    right; right; right; eauto.
  - intros [H|[H|[(w & Hs & Hw)|(p & w & Hp & Hs & Hw)]]].
    + now left.
    + right. exists [], s. split; [apply list_elem_of_here|auto].
    + right. exists (js "*"), w.
      split; [apply list_elem_of_further, list_elem_of_here|auto].
    + right. exists p, w.
      split; [now do 2 apply list_elem_of_further|auto].
Qed.

(** ** The case mapping *)

Lemma isWhiteSpace_spec (c : N) :
  isWhiteSpace c = true
  <-> (c = 9 \/ c = 10 \/ c = 11 \/ c = 12 \/ c = 13 \/ c = 32 \/ c = 160
       \/ c = 5760 \/ (8192 <= c <= 8202) \/ c = 8232 \/ c = 8233 \/ c = 8239
       \/ c = 8287 \/ c = 12288 \/ c = 65279)%N.
Proof.
  unfold isWhiteSpace.
  rewrite !orb_true_iff, andb_true_iff, !N.eqb_eq, !N.leb_le. tauto.
Qed.

Lemma asciiLower_spec (c : N) :
  ((65 <= c <= 90)%N /\ asciiLower c = (c + 32)%N)
  \/ (~ (65 <= c <= 90)%N /\ asciiLower c = c).
Proof.
  unfold asciiLower.
  destruct (N.leb_spec 65 c), (N.leb_spec c 90); simpl; [left|right..]; lia.
Qed.

Lemma isWhiteSpace_asciiLower (c : N) :
  isWhiteSpace (asciiLower c) = isWhiteSpace c.
Proof.
  destruct (asciiLower_spec c) as [[Hc ->]|[_ ->]]; [|reflexivity].
  destruct (isWhiteSpace (c + 32)) eqn:E1, (isWhiteSpace c) eqn:E2;
    try reflexivity; exfalso.
  - apply isWhiteSpace_spec in E1. lia.
  - apply isWhiteSpace_spec in E2. lia.
Qed.

Lemma asciiLower_whiteSpace (c : N) : isWhiteSpace c = true -> asciiLower c = c.
Proof.
  intros H. apply isWhiteSpace_spec in H.
  destruct (asciiLower_spec c) as [[Hc _]|[_ ->]]; [exfalso; lia|reflexivity].
Qed.

Lemma lowerPiece_clean (c : N) (p : jsstring) : lowerPiece c p -> cleanPiece c p.
Proof.
  unfold lowerPiece, cleanPiece.
  destruct (isWhiteSpace c) eqn:Hws.
  - rewrite orb_true_r. intros ->. now rewrite asciiLower_whiteSpace.
  - rewrite orb_false_r. destruct (c <? 128)%N.
    + intros ->. split; [discriminate|].
      constructor; [|constructor]. now rewrite isWhiteSpace_asciiLower.
    + intros [Hne Hall]. split; [assumption|].
      eapply Forall_impl; [exact Hall|]. now intros d [Hd _].
Qed.

Lemma cleanPieces_blank (w : jsstring) (ps : list jsstring) :
  Forall2 cleanPiece w ps -> blank w -> concat ps = w.
Proof.
  induction 1 as [|c p w ps Hp _ IH]; [reflexivity|].
  intros Hb. inversion Hb as [|? ? Hc Hw]; subst.
  unfold cleanPiece in Hp. rewrite Hc in Hp. subst p. simpl.
  now rewrite IH.
Qed.

Lemma cleanPieces_length (m : jsstring) (ps : list jsstring) :
  Forall2 cleanPiece m ps -> length m <= length (concat ps).
Proof.
  induction 1 as [|c p m ps Hp _ IH]; simpl; [lia|].
  rewrite length_app.
  assert (1 <= length p); [|lia].
  unfold cleanPiece in Hp. destruct (isWhiteSpace c).
  - subst p. simpl. lia.
  - destruct Hp as [Hne _]. destruct p; [contradiction|simpl; lia].
Qed.

Lemma startsClean_app (x y : jsstring) :
  x <> [] -> startsClean (x ++ y) = startsClean x.
Proof. destruct x; [contradiction|reflexivity]. Qed.

Lemma endsClean_app (x y : jsstring) :
  y <> [] -> startsClean (rev (x ++ y)) = startsClean (rev y).
Proof.
  intros Hy. rewrite rev_app_distr. apply startsClean_app.
  intros H. apply (f_equal (@rev N)) in H. rewrite rev_involutive in H.
  contradiction.
Qed.

Lemma cleanPieces_starts (m : jsstring) (ps : list jsstring) :
  Forall2 cleanPiece m ps -> startsClean m = true ->
  startsClean (concat ps) = true.
Proof.
  destruct 1 as [|c p m ps Hp _]; [reflexivity|].
  simpl. intros Hc. apply negb_true_iff in Hc.
  unfold cleanPiece in Hp. rewrite Hc in Hp. destruct Hp as [Hne Hall].
  destruct p as [|d p]; [contradiction|]. simpl.
  inversion Hall as [|? ? Hd _]; subst. now rewrite Hd.
Qed.

Lemma cleanPieces_ends (m : jsstring) (ps : list jsstring) :
  Forall2 cleanPiece m ps -> startsClean (rev m) = true ->
  startsClean (rev (concat ps)) = true.
Proof.
  induction 1 as [|c p m ps Hp Hrest IH]; [reflexivity|].
  intros Hc. destruct m as [|c' m].
  - inversion Hrest; subst. simpl in *. rewrite app_nil_r.
    apply negb_true_iff in Hc. unfold cleanPiece in Hp. rewrite Hc in Hp.
    destruct Hp as [Hne Hall]. apply Forall_rev in Hall.
    destruct (rev p) as [|d q] eqn:E.
    + apply (f_equal (@rev N)) in E. rewrite rev_involutive in E. contradiction.
    + simpl. inversion Hall as [|? ? Hd _]; subst. now rewrite Hd.
  - change (c :: c' :: m) with ([c] ++ c' :: m) in Hc.
    rewrite endsClean_app in Hc by discriminate.
    simpl concat. rewrite endsClean_app; [now apply IH|].
    pose proof (cleanPieces_length _ _ Hrest) as Hlen.
    destruct (concat ps); [simpl in Hlen; lia|discriminate].
Qed.

Section CaseMappingFacts.

Variable toLowerCase : jsstring -> jsstring.
Hypothesis toLowerCase_pieces : CaseMapping toLowerCase.

(** Lower-casing a string of Basic Latin code units maps each of them. *)
Lemma toLowerCase_ascii (s : jsstring) :
  Forall (fun c => (c <? 128)%N = true) s -> toLowerCase s = asciiLowerCase s.
Proof.
  intros Hs. destruct (toLowerCase_pieces s) as (ps & -> & Hps).
  clear toLowerCase_pieces. induction Hps as [|c p s ps Hp _ IH]; [reflexivity|].
  inversion Hs as [|? ? Hc Hrest]; subst.
  unfold lowerPiece in Hp. rewrite Hc in Hp. simpl in Hp. subst p.
  simpl. now rewrite IH.
Qed.

(** Trimming commutes with lower-casing up to the pieces of the core, so the
    trimmed lower-cased string is at least as long as the trimmed string. *)
Lemma trim_toLowerCase_length (s : jsstring) :
  length (trim s) <= length (trim (toLowerCase s)).
Proof.
  destruct (trim_decompose s) as (w1 & w2 & Hs & H1 & H2 & Hm1 & Hm2).
  destruct (toLowerCase_pieces s) as (ps & -> & Hps).
  apply (Forall2_impl _ cleanPiece) in Hps; [|exact lowerPiece_clean].
  rewrite Hs in Hps at 1.
  apply Forall2_app_inv_l in Hps as (ps1 & ps' & Hp1 & Hps & ->).
  apply Forall2_app_inv_l in Hps as (psm & ps2 & Hpm & Hp2 & ->).
  rewrite !concat_app.
  rewrite (cleanPieces_blank _ _ Hp1 H1), (cleanPieces_blank _ _ Hp2 H2).
  rewrite trim_sandwich; try assumption.
  - now apply cleanPieces_length.
  - split; [now apply (cleanPieces_starts (trim s))
           |now apply (cleanPieces_ends (trim s))].
Qed.

End CaseMappingFacts.

(** The Basic Latin lower-casing is a case mapping. *)
Lemma asciiLowerCase_pieces : CaseMapping asciiLowerCase.
Proof.
  intros s. exists (map (fun c => [asciiLower c]) s). split.
  - induction s as [|c s IH]; [reflexivity|]. simpl. now rewrite <- IH.
  - induction s as [|c s IH]; constructor; [|exact IH].
    unfold lowerPiece.
    destruct ((c <? 128)%N || isWhiteSpace c) eqn:E; [reflexivity|].
    apply orb_false_iff in E as [Hlt Hws]. split; [discriminate|].
    destruct (asciiLower_spec c) as [[Hc _]|[_ ->]].
    + apply N.ltb_ge in Hlt. lia.
    + constructor; [|constructor]. split; [assumption|]. congruence.
Qed.

(** ** The commit filter *)

Lemma sublist_List_filter {A} (f : A -> bool) (l : list A) :
  List.filter f l `sublist_of` l.
Proof.
  induction l as [|x l IH]; simpl; [constructor|].
  destruct (f x); [now apply sublist_skip|now apply sublist_cons].
Qed.

Lemma isBlank_true (s : jsstring) : isBlank s = true <-> blank s.
Proof. unfold isBlank, blank. now rewrite forallb_forall, List.Forall_forall. Qed.

Lemma truthy_trim (s : jsstring) : truthy (trim s) = negb (isBlank s).
Proof.
  destruct (isBlank s) eqn:E.
  - apply isBlank_true in E. now rewrite trim_blank.
  - destruct (trim s) eqn:Et; [|reflexivity].
    apply trim_nil_blank, isBlank_true in Et. congruence.
Qed.

Lemma keepCommitWith_true (toLowerCase : jsstring -> jsstring)
  (patterns : list jsstring) (c : CommitInfo) :
  keepCommitWith toLowerCase patterns c = true
  <-> hash c <> [] /\ date c <> [] /\ author c <> [] /\ subject c <> []
      /\ 3 <= length (trim (subject c))
      /\ trim (author c) <> [] /\ trim (email c) <> []
      /\ isMeaningless patterns (trim (toLowerCase (subject c))) = false.
Proof.
  unfold keepCommitWith.
  rewrite <- !truthy_true.
  destruct (truthy (hash c)), (truthy (date c)), (truthy (author c)),
    (truthy (subject c)); simpl; try (split; [discriminate|intuition congruence]).
  destruct (Nat.ltb_spec (length (trim (subject c))) 3);
    [split; [discriminate|intros; exfalso; lia]|].
  destruct (truthy (trim (author c))), (truthy (trim (email c))); simpl;
    try (split; [discriminate|intuition congruence]).
  destruct (isMeaningless patterns (trim (toLowerCase (subject c))));
    intuition congruence.
Qed.

Lemma fetchGitLogWith_lines (toLowerCase : jsstring -> jsstring)
  (patterns : list jsstring) (output : jsstring) :
  fetchGitLogWith toLowerCase patterns output
  = List.filter (keepCommitWith toLowerCase patterns)
      (map parseLine (nonBlankLines output)).
Proof.
  unfold fetchGitLogWith, nonBlankLines. do 2 f_equal.
  apply filter_ext. intros line. apply truthy_trim.
Qed.

Lemma keepCommitWith_ext (f g : jsstring -> jsstring) (patterns : list jsstring)
  (c : CommitInfo) :
  f (subject c) = g (subject c) ->
  keepCommitWith f patterns c = keepCommitWith g patterns c.
Proof. unfold keepCommitWith. now intros ->. Qed.

Lemma trim_nonempty (s : jsstring) : trim s <> [] -> s <> [].
Proof. intros H ->. now apply H. Qed.

(** Evaluates the closed list of parsed lines under the filter. *)
Ltac evaluate_parsed_lines :=
  match goal with
  | |- List.filter _ ?l = _ =>
    let r := eval vm_compute in l in change l with r
  end.

(** The two sample lines of the specification. *)
Lemma sample_fix_dropped (toLowerCase : jsstring -> jsstring) :
  CaseMapping toLowerCase ->
  fetchGitLog toLowerCase
    (join [TAB] [js "a1b2c3"; js "2023-06-01"; js "Jane Doe"; js "jane@x.com";
                 js "fix: "; []]) = [].
Proof.
  intros Hlower. unfold fetchGitLog. rewrite fetchGitLogWith_lines.
  evaluate_parsed_lines. cbn [List.filter].
  rewrite (keepCommitWith_ext toLowerCase asciiLowerCase).
  - reflexivity.
  - apply (toLowerCase_ascii _ Hlower). cbn [subject].
    repeat constructor.
Qed.

Lemma sample_retry_kept (toLowerCase : jsstring -> jsstring) :
  CaseMapping toLowerCase ->
  fetchGitLog toLowerCase
    (join [TAB] [js "a1b2c3"; js "2023-06-01"; js "Jane Doe"; js "jane@x.com";
                 js "Add retry logic to uploader";
                 js "Handles transient 5xx errors"])
  = [ {| hash := js "a1b2c3"; date := js "2023-06-01"; author := js "Jane Doe";
         email := js "jane@x.com"; subject := js "Add retry logic to uploader";
         body := js "Handles transient 5xx errors" |} ].
Proof.
  intros Hlower. unfold fetchGitLog. rewrite fetchGitLogWith_lines.
  evaluate_parsed_lines. cbn [List.filter].
  rewrite (keepCommitWith_ext toLowerCase asciiLowerCase).
  - reflexivity.
  - apply (toLowerCase_ascii _ Hlower). cbn [subject].
    repeat constructor.
Qed.

(** C1. Postcondition of the commit filter: the output is no longer than the
    number of non-blank input lines; it is a subsequence, in input order, of
    the records parsed from those lines; every record of it has a non-empty
    hash, date, author name and author email, a subject of trimmed length at
    least 3, and a lower-cased trimmed subject that is not meaningless (not
    empty, not white space only, not a bare asterisk, not a bare
    conventional-commit prefix); and the sample line with subject [fix: ] is
    dropped. *)
Theorem commit_filter_postcondition (toLowerCase : jsstring -> jsstring)
  (Hlower : CaseMapping toLowerCase) (output : jsstring) :
  length (fetchGitLog toLowerCase output) <= length (nonBlankLines output)
  /\ fetchGitLog toLowerCase output `sublist_of` map parseLine (nonBlankLines output)
  /\ Forall (fun c =>
               hash c <> [] /\ date c <> [] /\ author c <> [] /\ email c <> []
               /\ 3 <= length (trim (subject c))
               /\ ~ meaninglessSubject (trim (toLowerCase (subject c)))
               /\ forall pattern regex,
                    pattern ∈ meaninglessPatterns ->
                    RegExp pattern = Some regex ->
                    test regex (trim (toLowerCase (subject c))) = false)
       (fetchGitLog toLowerCase output)
  /\ fetchGitLog toLowerCase
       (join [TAB] [js "a1b2c3"; js "2023-06-01"; js "Jane Doe";
                    js "jane@x.com"; js "fix: "; []]) = [].
Proof.
  split; [|split; [|split]].
  - unfold fetchGitLog. rewrite fetchGitLogWith_lines.
    etransitivity; [apply filter_length_le|]. now rewrite length_map.
  - unfold fetchGitLog. rewrite fetchGitLogWith_lines.
    apply sublist_List_filter.
  - unfold fetchGitLog, fetchGitLogWith.
    apply List.Forall_forall. intros c Hc.
    apply filter_In in Hc as [_ Hkeep].
    apply keepCommitWith_true in Hkeep
      as (Hh & Hd & Ha & _ & Hlen & _ & He & Hm).
    repeat split; try assumption.
    + now apply trim_nonempty.
    + intros Hbad. apply isMeaningless_spec in Hbad. congruence.
    + intros pattern regex Hin Hre.
      destruct (test regex (trim (toLowerCase (subject c)))) eqn:Et;
        [|reflexivity].
      rewrite <- Hm. symmetry. apply existsb_exists.
      exists pattern. split; [now apply list_elem_of_In|]. now rewrite Hre.
  - now apply sample_fix_dropped.
Qed.

Lemma commit_filter_postcondition_witness :
  CaseMapping asciiLowerCase
  /\ fetchGitLog asciiLowerCase
       (js "short" ++ [LF] ++ indentedBodyLine ++ [LF] ++ js "  " ++ [LF]
        ++ join [TAB] [js "a1b2c3"; js "2023-06-01"; js "Jane Doe";
                       js "jane@x.com"; js "FIX:"; []])
     `sublist_of`
     map parseLine
       (nonBlankLines
          (js "short" ++ [LF] ++ indentedBodyLine ++ [LF] ++ js "  " ++ [LF]
           ++ join [TAB] [js "a1b2c3"; js "2023-06-01"; js "Jane Doe";
                          js "jane@x.com"; js "FIX:"; []])).
Proof.
  split; [exact asciiLowerCase_pieces|].
  apply (commit_filter_postcondition asciiLowerCase asciiLowerCase_pieces).
Defined.

Lemma split_fields (f1 f2 f3 f4 f5 rest : jsstring) :
  Forall (fun f => TAB ∉ f) [f1; f2; f3; f4; f5] ->
  split TAB (join [TAB] [f1; f2; f3; f4; f5; rest])
  = f1 :: f2 :: f3 :: f4 :: f5 :: split TAB rest.
Proof.
  intros H.
  apply Forall_cons in H as [H1 H]. apply Forall_cons in H as [H2 H].
  apply Forall_cons in H as [H3 H]. apply Forall_cons in H as [H4 H].
  apply Forall_cons in H as [H5 _].
  cbn [join]. cbn [app].
  repeat (rewrite split_app_sep by assumption). reflexivity.
Qed.

Lemma parseLine_body (line : jsstring) :
  body (parseLine line) = trim (join [TAB] (drop 5 (split TAB line))).
Proof. unfold parseLine. cbn [body]. apply orEmpty_Some. Qed.

(** C5, as stated, fails: the body is not the plain tab-rejoined text of the
    fields beyond the fifth when that text starts with white space.  The line
    below is kept by the filter, its sixth field is [ Handles transient 5xx
    errors] with a leading space, and its body has lost the space. *)
Lemma body_is_not_plain_rejoin :
  fetchGitLog asciiLowerCase indentedBodyLine = [parseLine indentedBodyLine]
  /\ join [TAB] (drop 5 (split TAB indentedBodyLine))
     = js " Handles transient 5xx errors"
  /\ body (parseLine indentedBodyLine) = js "Handles transient 5xx errors"
  /\ body (parseLine indentedBodyLine)
     <> join [TAB] (drop 5 (split TAB indentedBodyLine)).
Proof. vm_compute. repeat split; try reflexivity. discriminate. Qed.

(** C5, amended. The body of the parsed record is the tab-rejoined text of
    the fields beyond the fifth with its leading and trailing white space
    trimmed; for a line of at least six fields it is the trimmed text after
    the fifth tab; and the sample line is kept with body
    [Handles transient 5xx errors]. *)
Theorem body_reconstruction (toLowerCase : jsstring -> jsstring)
  (Hlower : CaseMapping toLowerCase) :
  (forall line,
     body (parseLine line) = trim (join [TAB] (drop 5 (split TAB line))))
  /\ (forall f1 f2 f3 f4 f5 rest,
        Forall (fun f => TAB ∉ f) [f1; f2; f3; f4; f5] ->
        body (parseLine (join [TAB] [f1; f2; f3; f4; f5; rest])) = trim rest)
  /\ fetchGitLog toLowerCase
       (join [TAB] [js "a1b2c3"; js "2023-06-01"; js "Jane Doe";
                    js "jane@x.com"; js "Add retry logic to uploader";
                    js "Handles transient 5xx errors"])
     = [ {| hash := js "a1b2c3"; date := js "2023-06-01";
            author := js "Jane Doe"; email := js "jane@x.com";
            subject := js "Add retry logic to uploader";
            body := js "Handles transient 5xx errors" |} ].
Proof.
  split; [exact parseLine_body|split].
  - intros f1 f2 f3 f4 f5 rest Hf.
    rewrite parseLine_body, split_fields by assumption.
    change (drop 5 (f1 :: f2 :: f3 :: f4 :: f5 :: split TAB rest))
      with (split TAB rest).
    now rewrite join_split.
  - now apply sample_retry_kept.
Qed.

Lemma body_reconstruction_witness :
  CaseMapping asciiLowerCase
  /\ body (parseLine (join [TAB] [js "h"; js "d"; js "n"; js "e"; js "subject";
                                  js "  two"; js "parts "]))
     = js "two" ++ [TAB] ++ js "parts".
Proof.
  split; [exact asciiLowerCase_pieces|].
  destruct (body_reconstruction asciiLowerCase asciiLowerCase_pieces)
    as (Hbody & _ & _).
  rewrite Hbody. reflexivity.
Defined.

(** ** The first three patterns *)

Lemma trimmed_trim (s : jsstring) : trimmed s -> trim s = s.
Proof.
  intros H. rewrite <- (app_nil_r s) at 1.
  apply (trim_sandwich [] s []); [apply Forall_nil_2..|exact H].
Qed.

Lemma trimmed_trim_result (s : jsstring) : trimmed (trim s).
Proof. now destruct (trim_decompose s) as (_ & _ & _ & _ & _ & H). Qed.

Lemma isMeaningless_app (p1 p2 : list jsstring) (s : jsstring) :
  isMeaningless (p1 ++ p2) s = isMeaningless p1 s || isMeaningless p2 s.
Proof. unfold isMeaningless. apply existsb_app. Qed.

(** A trimmed string matched by one of [^$], [^\s*$], [^\*\s*$] has at most
    one code unit. *)
Lemma early_patterns_short (x : jsstring) :
  trimmed x -> isMeaningless (take 3 meaninglessPatterns) x = true ->
  length x <= 1.
Proof.
  intros Hx Hm.
  change (take 3 meaninglessPatterns)
    with (js "^$" :: take 2 (drop 1 meaninglessPatterns)) in Hm.
  rewrite isMeaningless_cons in Hm.
  change (RegExp (js "^$")) with (Some [AssertStart; AssertEnd]) in Hm.
  apply orb_true_iff in Hm as [Hm|Hm].
  - apply test_empty_pattern in Hm. subst x. simpl. lia.
  - apply (isMeaningless_bare _ [[]; js "*"]) in Hm.
    + destruct Hm as (p & w & Hp & Hs & Hw).
      apply elem_of_cons in Hp as [->|Hp].
      * simpl in Hs. subst w. rewrite (trimmed_blank_nil x Hx Hw). simpl. lia.
      * apply list_elem_of_singleton in Hp as ->.
        rewrite <- (trimmed_trim x Hx), Hs.
        change (js "*" ++ w) with ([] ++ js "*" ++ w).
        rewrite trim_sandwich;
          [simpl; lia|apply Forall_nil_2|assumption|split; reflexivity].
    + repeat constructor.
Qed.

Lemma keepCommitWith_early (toLowerCase : jsstring -> jsstring) (c : CommitInfo) :
  CaseMapping toLowerCase ->
  keepCommitWith toLowerCase (drop 3 meaninglessPatterns) c
  = keepCommitWith toLowerCase meaninglessPatterns c.
Proof.
  intros Hlower. apply eq_true_iff_eq. rewrite !keepCommitWith_true.
  rewrite <- (take_drop 3 meaninglessPatterns) at 2.
  rewrite isMeaningless_app, orb_false_iff.
  split; [|tauto].
  intros (Hh & Hd & Ha & Hs & Hlen & Hta & Hte & Hm).
  repeat split; try assumption.
  destruct (isMeaningless (take 3 meaninglessPatterns)
              (trim (toLowerCase (subject c)))) eqn:E; [exfalso|reflexivity].
  apply early_patterns_short in E; [|apply trimmed_trim_result].
  pose proof (trim_toLowerCase_length _ Hlower (subject c)). lia.
Qed.

(** C10. The patterns for the empty, the white-space-only and the
    bare-asterisk subject are unreachable: a subject of trimmed length at
    least 3, which is what reaches the pattern check, matches none of the
    three once lower-cased and trimmed; hence the filter with the seven
    prefix patterns alone returns what the filter with all ten returns. *)
Theorem early_patterns_unreachable (toLowerCase : jsstring -> jsstring)
  (Hlower : CaseMapping toLowerCase) :
  (forall subject pattern regex,
     3 <= length (trim subject) ->
     pattern ∈ [js "^$"; js "^\s*$"; js "^\*\s*$"] ->
     RegExp pattern = Some regex ->
     test regex (trim (toLowerCase subject)) = false)
  /\ (forall output,
        fetchGitLogWith toLowerCase (drop 3 meaninglessPatterns) output
        = fetchGitLog toLowerCase output).
Proof.
  split.
  - intros subj pattern regex Hlen Hin Hre.
    destruct (test regex (trim (toLowerCase subj))) eqn:Et; [exfalso|reflexivity].
    assert (Hm : isMeaningless (take 3 meaninglessPatterns)
                   (trim (toLowerCase subj)) = true).
    { apply existsb_exists. exists pattern.
      split; [now apply list_elem_of_In|now rewrite Hre]. }
    apply early_patterns_short in Hm; [|apply trimmed_trim_result].
    pose proof (trim_toLowerCase_length _ Hlower subj). lia.
  - intros output. unfold fetchGitLog, fetchGitLogWith.
    apply filter_ext. intros c. now apply keepCommitWith_early.
Qed.

Lemma early_patterns_unreachable_witness :
  CaseMapping asciiLowerCase
  /\ fetchGitLogWith asciiLowerCase (drop 3 meaninglessPatterns)
       (js "h" ++ [TAB] ++ js "d" ++ [TAB] ++ js "n" ++ [TAB] ++ js "e"
        ++ [TAB] ++ js " * ")
     = fetchGitLog asciiLowerCase
         (js "h" ++ [TAB] ++ js "d" ++ [TAB] ++ js "n" ++ [TAB] ++ js "e"
          ++ [TAB] ++ js " * ").
Proof.
  split; [exact asciiLowerCase_pieces|].
  apply (early_patterns_unreachable asciiLowerCase asciiLowerCase_pieces).
Defined.

(** ** Filtering a filtered log *)

Lemma elem_of_join_part (sep p : jsstring) (parts : list jsstring) (x : N) :
  p ∈ parts -> x ∈ p -> x ∈ join sep parts.
Proof.
  induction parts as [|q rest IH]; intros Hp Hx.
  - now apply elem_of_nil in Hp.
  - destruct rest as [|r rest].
    + apply list_elem_of_singleton in Hp as ->. exact Hx.
    + rewrite join_cons by discriminate.
      apply elem_of_cons in Hp as [->|Hp].
      * apply elem_of_app. now left.
      * apply elem_of_app. right. apply elem_of_app. right. now apply IH.
Qed.

Lemma elem_of_trim (s : jsstring) (x : N) : x ∈ trim s -> x ∈ s.
Proof.
  intros Hx. destruct (trim_decompose s) as (w1 & w2 & Hs & _).
  rewrite Hs. apply elem_of_app. right. apply elem_of_app. now left.
Qed.

Lemma blank_elem (s : jsstring) (x : N) :
  blank s -> x ∈ s -> isWhiteSpace x = true.
Proof. unfold blank. rewrite Forall_forall. auto. Qed.

(** A record that passes the filter comes from a line of at least five
    fields, and holds them as they are. *)
Lemma kept_line_shape (toLowerCase : jsstring -> jsstring)
  (patterns : list jsstring) (line : jsstring) :
  keepCommitWith toLowerCase patterns (parseLine line) = true ->
  exists h d a e s bodyParts,
    split TAB line = h :: d :: a :: e :: s :: bodyParts
    /\ parseLine line
       = {| hash := h; date := d; author := a; email := e; subject := s;
            body := trim (join [TAB] bodyParts) |}.
Proof.
  intros Hkeep. apply keepCommitWith_true in Hkeep as (_ & _ & _ & Hs & _).
  unfold parseLine in *.
  destruct (split TAB line) as [|h [|d [|a [|e [|s bodyParts]]]]];
    try (now contradiction Hs).
  exists h, d, a, e, s, bodyParts. split; [reflexivity|].
  cbn [lookup list_lookup drop]. now rewrite !orEmpty_Some.
Qed.

Section Refilter.

Variable toLowerCase : jsstring -> jsstring.

Lemma kept_stable (line : jsstring) :
  LF ∉ line -> keepCommit toLowerCase (parseLine line) = true ->
  survivesRefilter toLowerCase (parseLine line).
Proof.
  intros Hlf Hkeep.
  destruct (kept_line_shape _ _ _ Hkeep)
    as (h & d & a & e & s & bodyParts & Hsplit & Hrec).
  pose proof (split_no_sep TAB line) as Htab. rewrite Hsplit in Htab.
  pose proof (join_split TAB line) as Hline. rewrite Hsplit in Hline.
  assert (Hin : forall x, x ∈ serializeCommit (parseLine line) ->
                          x = TAB \/ x ∈ line).
  { intros x Hx. rewrite Hrec in Hx. unfold serializeCommit in Hx.
    cbn [hash date author email subject body] in Hx.
    apply join_blank_elem in Hx as [Hx|(p & Hp & Hx)].
    - left. now apply list_elem_of_singleton in Hx.
    - assert (Hfield : forall q, q ∈ h :: d :: a :: e :: s :: bodyParts ->
                                 x ∈ q -> x ∈ line).
      { intros q Hq Hxq. rewrite <- Hline. now apply (elem_of_join_part _ q). }
      rewrite !elem_of_cons, elem_of_nil in Hp.
      destruct Hp as [->|[->|[->|[->|[->|[->|[]]]]]]];
        try (right; eapply Hfield; [|exact Hx]; rewrite !elem_of_cons; tauto).
      apply elem_of_trim, join_blank_elem in Hx as [Hx|(q & Hq & Hx)].
      + left. now apply list_elem_of_singleton in Hx.
      + right. apply (Hfield q); [|assumption].
        rewrite !elem_of_cons. tauto. }
  split; [|split; [|split]].
  - rewrite Hrec. unfold serializeCommit, parseLine.
    cbn [hash date author email subject body].
    rewrite split_fields.
    + cbn [lookup list_lookup]. rewrite !orEmpty_Some.
      change (drop 5 (h :: d :: a :: e :: s
                        :: split TAB (trim (join [TAB] bodyParts))))
        with (split TAB (trim (join [TAB] bodyParts))).
      now rewrite join_split, trim_idempotent.
    + repeat (apply Forall_cons in Htab as [? Htab]).
      repeat (constructor; [assumption|]). constructor.
  - intros Hx. apply Hin in Hx as [Hx|Hx]; [discriminate|contradiction].
  - destruct (isBlank (serializeCommit (parseLine line))) eqn:E; [|reflexivity].
    apply isBlank_true in E.
    pose proof Hkeep as Hk.
    apply keepCommitWith_true in Hk as (_ & _ & _ & _ & _ & Ha & _).
    contradiction Ha. apply trim_blank.
    unfold blank. apply Forall_forall. intros x Hx.
    apply (blank_elem _ x E). rewrite Hrec. unfold serializeCommit.
    cbn [hash date author email subject body].
    apply (elem_of_join_part _ a); [|rewrite Hrec in Hx; exact Hx].
    rewrite !elem_of_cons. tauto.
  - exact Hkeep.
Qed.

Lemma fetchGitLog_stable (commits : list CommitInfo) :
  Forall (survivesRefilter toLowerCase) commits ->
  fetchGitLog toLowerCase (serializeLog commits) = commits.
Proof.
  intros Hall. unfold fetchGitLog. rewrite fetchGitLogWith_lines.
  destruct commits as [|c commits]; [reflexivity|].
  unfold nonBlankLines, serializeLog.
  assert (Hid : map parseLine (map serializeCommit (c :: commits)) = c :: commits).
  { rewrite map_map. rewrite <- (map_id (c :: commits)) at 2.
    apply map_ext_Forall.
    eapply Forall_impl; [exact Hall|]. now intros x (Hx & _). }
  rewrite split_join.
  - rewrite (forallb_filter_id (fun line => negb (isBlank line))).
    + rewrite Hid. apply forallb_filter_id.
      apply forallb_forall. intros x Hx.
      rewrite List.Forall_forall in Hall.
      now destruct (Hall x Hx) as (_ & _ & _ & Hk).
    + apply forallb_forall. intros x Hx.
      apply in_map_iff in Hx as (y & <- & Hy).
      rewrite List.Forall_forall in Hall.
      now destruct (Hall y Hy) as (_ & _ & -> & _).
  - discriminate.
  - apply Forall_map. eapply Forall_impl; [exact Hall|].
    now intros x (_ & Hx & _).
Qed.

Lemma fetchGitLog_all_stable (output : jsstring) :
  Forall (survivesRefilter toLowerCase) (fetchGitLog toLowerCase output).
Proof.
  unfold fetchGitLog. rewrite fetchGitLogWith_lines.
  apply List.Forall_forall. intros c Hc.
  apply filter_In in Hc as [Hc Hkeep].
  apply in_map_iff in Hc as (line & <- & Hline).
  apply kept_stable; [|exact Hkeep].
  unfold nonBlankLines in Hline. apply filter_In in Hline as [Hline _].
  pose proof (split_no_sep LF output) as Hno.
  rewrite List.Forall_forall in Hno. now apply Hno.
Qed.

End Refilter.

(** C7. Filtering is idempotent: writing the filter's output back in the
    tab-delimited line format and filtering again returns the same records. *)
Theorem filter_idempotent (toLowerCase : jsstring -> jsstring) (output : jsstring) :
  fetchGitLog toLowerCase (serializeLog (fetchGitLog toLowerCase output))
  = fetchGitLog toLowerCase output.
Proof. apply fetchGitLog_stable, fetchGitLog_all_stable. Qed.

(** ** The report merger *)

Lemma filter_filter {A} (f g : A -> bool) (l : list A) :
  List.filter f (List.filter g l) = List.filter (fun y => g y && f y) l.
Proof.
  induction l as [|x l IH]; simpl; [reflexivity|].
  destruct (g x); simpl; [destruct (f x)|]; now rewrite IH.
Qed.

Lemma elem_of_List_filter {A} (f : A -> bool) (l : list A) (x : A) :
  x ∈ List.filter f l <-> x ∈ l /\ f x = true.
Proof. rewrite !list_elem_of_In. apply filter_In. Qed.

(** The set built by successive insertions, from any starting set. *)
Lemma Set_add_fold (items acc : list jsstring) :
  fold_left Set_add items acc
  = acc ++ List.filter (fun y => negb (bool_decide (y ∈ acc)))
                       (dedupFirstSeen items).
Proof.
  revert acc. induction items as [|x items IH]; intros acc; simpl.
  - now rewrite app_nil_r.
  - rewrite IH. unfold Set_add. destruct (decide (x ∈ acc)) as [Hin|Hnot].
    + rewrite bool_decide_eq_true_2 by assumption. simpl.
      rewrite filter_filter. f_equal. apply filter_ext. intros y.
      destruct (bool_decide_reflect (y = x)) as [->|_]; simpl; [|reflexivity].
      now rewrite bool_decide_eq_true_2.
    + rewrite bool_decide_eq_false_2 by assumption. simpl.
      rewrite <- app_assoc. simpl. do 2 f_equal.
      rewrite filter_filter. apply filter_ext. intros y.
      destruct (bool_decide_reflect (y = x)) as [->|Hne]; simpl.
      * rewrite bool_decide_eq_true_2; [reflexivity|].
        apply elem_of_app. right. apply list_elem_of_here.
      * apply f_equal, bool_decide_ext. rewrite elem_of_app, list_elem_of_singleton.
        tauto.
Qed.

(** [new Set] deduplicates in first-seen order. *)
Lemma Set_from_dedup (items : list jsstring) :
  Set_from items = dedupFirstSeen items.
Proof.
  unfold Set_from. rewrite Set_add_fold. simpl.
  rewrite <- (filter_true (dedupFirstSeen items)) at 2.
  apply filter_ext. intros y. reflexivity.
Qed.

Lemma dedupFirstSeen_elem (l : list jsstring) (x : jsstring) :
  x ∈ dedupFirstSeen l <-> x ∈ l.
Proof.
  induction l as [|y l IH]; simpl; [reflexivity|].
  rewrite !elem_of_cons, elem_of_List_filter, IH, negb_true_iff,
    bool_decide_eq_false.
  destruct (decide (x = y)); tauto.
Qed.

Lemma dedupFirstSeen_NoDup (l : list jsstring) : NoDup (dedupFirstSeen l).
Proof.
  induction l as [|y l IH]; simpl; constructor.
  - rewrite elem_of_List_filter, negb_true_iff, bool_decide_eq_false. tauto.
  - eapply sublist_NoDup; [exact IH|apply sublist_List_filter].
Qed.

(** Processing in order: a string already seen is skipped, a new one is
    appended. *)
Lemma dedupFirstSeen_snoc (l : list jsstring) (x : jsstring) :
  dedupFirstSeen (l ++ [x])
  = if decide (x ∈ l) then dedupFirstSeen l else dedupFirstSeen l ++ [x].
Proof.
  rewrite <- !Set_from_dedup. unfold Set_from. rewrite fold_left_app. simpl.
  unfold Set_add at 1. fold (Set_from l).
  destruct (decide (x ∈ Set_from l)) as [H|H], (decide (x ∈ l)) as [H'|H'];
    try reflexivity; rewrite Set_from_dedup, dedupFirstSeen_elem in H;
    contradiction.
Qed.

Lemma uniqueFirst5_spec (items : list jsstring) :
  uniqueFirst5 items = take 5 (dedupFirstSeen items).
Proof. unfold uniqueFirst5, slice. now rewrite Set_from_dedup. Qed.

Lemma pushAll_fold (analyses : list ResumeAnalysis) (acc : ResumeAnalysis) :
  summary (fold_left pushAll analyses acc) = summary acc
  /\ Forall (fun f => f (fold_left pushAll analyses acc)
                      = f acc ++ concat (map f analyses)) listFields.
Proof.
  revert acc. induction analyses as [|a analyses IH]; intros acc.
  - split; [reflexivity|]. unfold listFields.
    repeat constructor; simpl; now rewrite app_nil_r.
  - destruct (IH (pushAll acc a)) as [Hs Hf]. split; [exact Hs|].
    unfold listFields in *.
    repeat (apply Forall_cons in Hf as [? Hf]).
    repeat constructor; simpl fold_left; simpl concat; simpl map;
      rewrite app_assoc; assumption.
Qed.

(** Each list field of the merge, from the partial lists. *)
Lemma mergeBatchAnalyses_fields (analyses : list ResumeAnalysis) :
  Forall (fun f => f (mergeBatchAnalyses analyses)
                   = take 5 (dedupFirstSeen (concat (map f analyses))))
         listFields.
Proof.
  unfold mergeBatchAnalyses.
  match goal with
  | |- context [fold_left pushAll analyses ?acc] =>
    destruct (pushAll_fold analyses acc) as [_ Hf]
  end.
  unfold listFields in *.
  repeat (apply Forall_cons in Hf as [? Hf]).
  repeat constructor; cbn [keyAchievements technicalSkills businessImpact
                             problemSolving leadership];
    rewrite uniqueFirst5_spec; f_equal; f_equal; assumption.
Qed.

(** C2. The merged report: the summary is the partial summaries joined with
    one space in batch order; each of the five list fields is the
    concatenation of the partial lists in batch order, deduplicated keeping
    first occurrences, cut to its first five entries; hence it has at most
    five entries and no duplicate. *)
Theorem merge_correct (analyses : list ResumeAnalysis) :
  summary (mergeBatchAnalyses analyses) = join (js " ") (map summary analyses)
  /\ Forall (fun f =>
               f (mergeBatchAnalyses analyses)
               = take 5 (dedupFirstSeen (concat (map f analyses)))
               /\ length (f (mergeBatchAnalyses analyses)) <= 5
               /\ NoDup (f (mergeBatchAnalyses analyses)))
            listFields.
Proof.
  split.
  - unfold mergeBatchAnalyses. cbn [summary].
    match goal with
    | |- context [fold_left pushAll analyses ?acc] =>
      destruct (pushAll_fold analyses acc) as [-> _]
    end.
    reflexivity.
  - eapply Forall_impl; [apply mergeBatchAnalyses_fields|].
    intros f ->. split; [reflexivity|split].
    + apply firstn_le_length.
    + eapply sublist_NoDup; [apply dedupFirstSeen_NoDup|apply sublist_take].
Qed.

(** C8. Merging no partial report gives the empty report. *)
Theorem merge_empty :
  mergeBatchAnalyses []
  = {| summary := []; keyAchievements := []; technicalSkills := [];
       businessImpact := []; problemSolving := []; leadership := [] |}.
Proof. reflexivity. Qed.

(** C6, as stated, fails: with three key achievements in each of two partial
    reports, the merge in one order keeps [a3] and the merge in the other
    order does not. *)
Lemma merge_sets_differ :
  js "a3" ∈ keyAchievements (mergeBatchAnalyses [partialFirst; partialSecond])
  /\ js "a3" ∉ keyAchievements (mergeBatchAnalyses [partialSecond; partialFirst]).
Proof. split; compute_done. Qed.

(** C6, amended. When two partial reports together hold at most five distinct
    strings in a list field, that field of the merge in either order holds
    the same strings, in an order that may differ. *)
Theorem merge_commutes_on_sets (P1 P2 : ResumeAnalysis)
  (f : ResumeAnalysis -> list jsstring) :
  f ∈ listFields ->
  length (dedupFirstSeen (f P1 ++ f P2)) <= 5 ->
  f (mergeBatchAnalyses [P1; P2]) ≡ₚ f (mergeBatchAnalyses [P2; P1]).
Proof.
  intros Hf Hlen.
  pose proof (mergeBatchAnalyses_fields [P1; P2]) as H12.
  pose proof (mergeBatchAnalyses_fields [P2; P1]) as H21.
  rewrite Forall_forall in H12, H21.
  rewrite (H12 f Hf), (H21 f Hf). simpl. rewrite !app_nil_r.
  assert (Hperm : dedupFirstSeen (f P1 ++ f P2) ≡ₚ dedupFirstSeen (f P2 ++ f P1)).
  { apply NoDup_Permutation; try apply dedupFirstSeen_NoDup.
    intros x. rewrite !dedupFirstSeen_elem, !elem_of_app. tauto. }
  rewrite !take_ge; [exact Hperm| |exact Hlen].
  now rewrite <- Hperm.
Qed.

Lemma merge_commutes_on_sets_witness :
  keyAchievements ∈ listFields
  /\ keyAchievements
       (mergeBatchAnalyses
          [partialFirst;
           {| summary := []; keyAchievements := [js "a2"; js "b1"];
              technicalSkills := []; businessImpact := [];
              problemSolving := []; leadership := [] |}])
     ≡ₚ keyAchievements
          (mergeBatchAnalyses
             [{| summary := []; keyAchievements := [js "a2"; js "b1"];
                 technicalSkills := []; businessImpact := [];
                 problemSolving := []; leadership := [] |};
              partialFirst]).
Proof.
  assert (Hf : keyAchievements ∈ listFields) by apply list_elem_of_here.
  split; [exact Hf|].
  apply (merge_commutes_on_sets _ _ keyAchievements Hf).
  vm_compute. lia.
Defined.

(** ** The batch partition *)

Lemma batchLoop_step {A} (commits : list A) (i : nat) (batches : list (list A)) :
  batchLoop commits i batches
  = if decide (i < length commits)
    then batchLoop commits (i + batchSize)
           (batches ++ [slice i (i + batchSize) commits])
    else batches.
Proof.
  etransitivity; [apply batchLoop_equation_1|].
  destruct (decide (i < length commits)); reflexivity.
Qed.

Lemma length_slice {A} (i j : nat) (l : list A) :
  length (slice i j l) = Nat.min j (length l) - i.
Proof. unfold slice. now rewrite length_drop, length_take. Qed.

Lemma slice_drop {A} (i k : nat) (l : list A) :
  i <= length l -> slice i (i + k) l ++ drop (i + k) l = drop i l.
Proof.
  intros Hi. unfold slice.
  rewrite <- (take_drop (i + k) l) at 3.
  rewrite drop_app_le; [reflexivity|]. rewrite length_take. lia.
Qed.

(** The loop appends to [batches] a partition of what is left of [commits]
    from index [i] on. *)
Lemma batchLoop_spec {A} (commits : list A) (n i : nat) (batches : list (list A)) :
  length commits - i <= n ->
  exists new,
    batchLoop commits i batches = batches ++ new
    /\ concat new = drop i commits
    /\ Forall (fun b => 1 <= length b <= batchSize) new
    /\ (forall j b, new !! j = Some b -> S j < length new -> length b = batchSize)
    /\ (new <> [] -> i < length commits).
Proof.
  revert i batches. induction n as [|n IH]; intros i batches Hn;
    rewrite batchLoop_step; destruct (decide (i < length commits)) as [Hi|Hi];
    try lia.
  1, 3: exists []; rewrite app_nil_r, drop_ge by lia;
        repeat split; [constructor|intros j b Hj; discriminate|congruence].
  destruct (IH (i + batchSize) (batches ++ [slice i (i + batchSize) commits]))
    as (new & Hloop & Hcat & Hsize & Hfull & Hmore); [unfold batchSize; lia|].
  exists (slice i (i + batchSize) commits :: new). repeat split.
  - now rewrite Hloop, <- app_assoc.
  - simpl. rewrite Hcat. apply slice_drop. lia.
  - constructor; [|exact Hsize]. rewrite length_slice. unfold batchSize. lia.
  - intros [|j] b Hj Hlen.
    + injection Hj as <-. rewrite length_slice.
      assert (i + batchSize < length commits); [|lia].
      apply Hmore. destruct new; [simpl in Hlen; lia|discriminate].
    + apply (Hfull j); [exact Hj|simpl in Hlen; lia].
  - intros _. exact Hi.
Qed.

(** C3. The batches partition the commits: concatenated, they give back the
    sequence; every batch has between 1 and 20 commits; every batch but the
    last has exactly 20; and 45 commits give three batches of sizes 20, 20
    and 5. *)
Theorem batch_partition {A} (commits : list A) :
  concat (splitBatches commits) = commits
  /\ Forall (fun batch => 1 <= length batch <= 20) (splitBatches commits)
  /\ (forall j batch,
        splitBatches commits !! j = Some batch ->
        S j < length (splitBatches commits) ->
        length batch = 20)
  /\ (length commits = 45 -> map length (splitBatches commits) = [20; 20; 5]).
Proof.
  unfold splitBatches.
  destruct (batchLoop_spec commits (length commits) 0 [])
    as (new & Hloop & Hcat & Hsize & Hfull & _); [lia|].
  simpl in Hloop. split; [|split; [|split]].
  - now rewrite Hloop, Hcat.
  - now rewrite Hloop.
  - rewrite Hloop. exact Hfull.
  - intros H45. clear dependent new.
    do 4 (rewrite batchLoop_step;
          destruct (decide (_ < length commits)); unfold batchSize in *;
          try lia).
    simpl. rewrite !length_slice. rewrite H45. reflexivity.
Qed.

Lemma batch_partition_witness :
  length (seq 0 45) = 45
  /\ map length (splitBatches (seq 0 45)) = [20; 20; 5].
Proof.
  split; [reflexivity|].
  apply (batch_partition (seq 0 45)). reflexivity.
Defined.

(** ** The project context *)

Section ProjectContextFacts.

Variable JSON_parse : jsstring -> result json.
Variable Number_toString : jsstring -> jsstring.
Variable Number_toBoolean : jsstring -> bool.

Local Abbreviation getProjectContext' :=
  (getProjectContext JSON_parse Number_toString Number_toBoolean).
Local Abbreviation renderContext' :=
  (renderContext Number_toString Number_toBoolean).
Local Abbreviation ToString' := (ToString Number_toString).
Local Abbreviation orDefault' := (orDefault Number_toBoolean).

Lemma getProjectContext_returns (dir : projectDir) :
  exists context, getProjectContext' dir = inr context.
Proof.
  unfold getProjectContext.
  destruct (tryProjectContext _ _ _ dir) as [[context|]|]; eauto.
Qed.

Lemma elem_of_insertIndex (x y : N * jsstring) (l : list (N * jsstring)) :
  y ∈ insertIndex x l -> y = x \/ y ∈ l.
Proof.
  induction l as [|z l IH]; simpl.
  - rewrite list_elem_of_singleton. auto.
  - destruct (fst x <=? fst z)%N; rewrite !elem_of_cons; [tauto|].
    intros [H|H]; [tauto|]. apply IH in H. tauto.
Qed.

Lemma elem_of_sortIndices (y : N * jsstring) (l : list (N * jsstring)) :
  y ∈ sortIndices l -> y ∈ l.
Proof.
  unfold sortIndices. induction l as [|x l IH]; simpl; [trivial|].
  intros H. apply elem_of_insertIndex in H as [->|H]; [left|right; auto].
Qed.

(** The keys that [Object.keys] lists are keys of the object. *)
Lemma ownKeys_keys (members : list (jsstring * json)) (k : jsstring) :
  k ∈ ownKeys members -> k ∈ map fst members.
Proof.
  unfold ownKeys. rewrite Set_from_dedup, elem_of_app. intros [H|H].
  - apply list_elem_of_fmap in H as ([n k'] & -> & H).
    apply elem_of_sortIndices, list_elem_of_omap in H as (key & Hkey & H).
    destruct (arrayIndex key); [|discriminate]. injection H as _ ->.
    now apply dedupFirstSeen_elem.
  - apply elem_of_List_filter in H as [H _]. now apply dedupFirstSeen_elem.
Qed.

(** C9. The project context builder never raises: it returns a text in every
    case.  When the current directory cannot be read, [package.json] is
    missing or unreadable, or its text is not valid JSON, the text is the
    fixed fallback; so it is when the parsed value is [null] or when the
    name or the description has no string.  In every other case the text is
    the four lines spelled out below: the name (or [Unknown]), the
    description (or [No description]), the first 10 keys of the dependencies
    at most and the first 5 keys of the development dependencies at most. *)
Theorem project_context_total (dir : projectDir) :
  (exists context, getProjectContext' dir = inr context)
  /\ (process_cwd dir = None
      \/ existsSync_packageJson dir = false
      \/ cat_packageJson dir = None
      \/ (exists text e, cat_packageJson dir = Some text
                         /\ JSON_parse text = inl e) ->
      getProjectContext' dir = inr fallbackContext)
  /\ (forall cwd text packageJson,
        process_cwd dir = Some cwd ->
        existsSync_packageJson dir = true ->
        cat_packageJson dir = Some text ->
        JSON_parse text = inr packageJson ->
        (packageJson = JNull -> getProjectContext' dir = inr fallbackContext)
        /\ (packageJson <> JNull ->
            (forall members, packageJson <> JObject members) ->
            getProjectContext' dir
            = inr (js "프로젝트명: " ++ js "Unknown" ++ [LF]
                   ++ js "설명: " ++ js "No description" ++ [LF]
                   ++ js "주요 의존성: " ++ [LF]
                   ++ js "개발 의존성: "))
        /\ (forall members,
              packageJson = JObject members ->
              (ToString' (orDefault' (getMember (js "name") members)
                            (JString (js "Unknown"))) = None
               \/ ToString' (orDefault' (getMember (js "description") members)
                               (JString (js "No description"))) = None ->
               getProjectContext' dir = inr fallbackContext)
              /\ (forall name description,
                    ToString' (orDefault' (getMember (js "name") members)
                                 (JString (js "Unknown"))) = Some name ->
                    ToString' (orDefault'
                                 (getMember (js "description") members)
                                 (JString (js "No description")))
                    = Some description ->
                    exists dependencies devDependencies,
                      getProjectContext' dir
                      = inr (js "프로젝트명: " ++ name ++ [LF]
                             ++ js "설명: " ++ description ++ [LF]
                             ++ js "주요 의존성: "
                             ++ join (js ", ") dependencies ++ [LF]
                             ++ js "개발 의존성: "
                             ++ join (js ", ") devDependencies)
                      /\ dependencies
                         = take 10 (Object_keys
                                      (orDefault'
                                         (getMember (js "dependencies") members)
                                         (JObject [])))
                      /\ devDependencies
                         = take 5 (Object_keys
                                     (orDefault'
                                        (getMember (js "devDependencies")
                                           members)
                                        (JObject [])))
                      /\ length dependencies <= 10
                      /\ length devDependencies <= 5
                      /\ (forall n, getMember (js "name") members
                                    = Some (JString n) ->
                                    n <> [] -> name = n)
                      /\ (getMember (js "name") members = None ->
                          name = js "Unknown")
                      /\ (forall d, getMember (js "description") members
                                    = Some (JString d) ->
                                    d <> [] -> description = d)
                      /\ (getMember (js "description") members = None ->
                          description = js "No description")
                      /\ (forall deps,
                            getMember (js "dependencies") members
                            = Some (JObject deps) ->
                            dependencies = take 10 (ownKeys deps)
                            /\ Forall (fun k => k ∈ map fst deps) dependencies)
                      /\ (getMember (js "dependencies") members = None ->
                          dependencies = [])
                      /\ (forall devs,
                            getMember (js "devDependencies") members
                            = Some (JObject devs) ->
                            devDependencies = take 5 (ownKeys devs)
                            /\ Forall (fun k => k ∈ map fst devs)
                                      devDependencies)
                      /\ (getMember (js "devDependencies") members = None ->
                          devDependencies = [])))).
Proof.
  split; [apply getProjectContext_returns|split].
  - unfold getProjectContext, tryProjectContext.
    intros [H|[H|[H|(text & e & H & He)]]].
    + now rewrite H.
    + rewrite H. now destruct (process_cwd dir).
    + rewrite H. now destruct (process_cwd dir), (existsSync_packageJson dir).
    + rewrite H, He. now destruct (process_cwd dir), (existsSync_packageJson dir).
  - intros cwd text packageJson Hcwd Hex Hcat Hparse.
    unfold getProjectContext, tryProjectContext.
    rewrite Hcwd, Hex, Hcat, Hparse. split; [|split].
    + now intros ->.
    + intros Hnull Hobject.
      destruct packageJson as [| | | | |members];
        [contradiction|reflexivity..|now destruct (Hobject members)].
    + intros members ->. unfold renderContext. cbn [getProperty].
      cbn [mbind option_bind]. split.
      * intros [H|H].
        -- now rewrite H.
        -- rewrite H.
           now destruct (ToString' (orDefault' (getMember (js "name") members) _)).
      * intros name description Hn Hd. rewrite Hn. cbn [mbind option_bind].
        rewrite Hd. cbn [mbind option_bind]. do 2 eexists.
        split; [reflexivity|]. unfold slice. rewrite !drop_0.
        split; [reflexivity|]. split; [reflexivity|].
        split; [apply firstn_le_length|]. split; [apply firstn_le_length|].
        assert (Hkeys : forall n (l : list (jsstring * json)),
                   Forall (fun k => k ∈ map fst l) (take n (ownKeys l))).
        { intros n l. apply Forall_take, Forall_forall. intros k.
          apply ownKeys_keys. }
        repeat split.
        -- intros n E Hne. rewrite E in Hn. destruct n; [contradiction|].
           simpl in Hn. congruence.
        -- intros E. rewrite E in Hn. simpl in Hn. congruence.
        -- intros d E Hne. rewrite E in Hd. destruct d; [contradiction|].
           simpl in Hd. congruence.
        -- intros E. rewrite E in Hd. simpl in Hd. congruence.
        -- now rewrite H.
        -- rewrite H. apply Hkeys.
        -- intros ->. reflexivity.
        -- now rewrite H.
        -- rewrite H. apply Hkeys.
        -- intros ->. reflexivity.
Qed.

End ProjectContextFacts.

Lemma project_context_total_witness :
  existsSync_packageJson bareDir = false
  /\ getProjectContext JSON_parse_ref literalText literalTruthy bareDir
     = inr fallbackContext
  /\ getProjectContext JSON_parse_ref literalText literalTruthy sampleDir
     = inr (js "프로젝트명: " ++ js "git-log-ai" ++ [LF]
            ++ js "설명: " ++ js "No description" ++ [LF]
            ++ js "주요 의존성: " ++ js "openai, dotenv" ++ [LF]
            ++ js "개발 의존성: " ++ js "a, b, c, d, e").
Proof.
  split; [reflexivity|split].
  - apply (project_context_total JSON_parse_ref literalText literalTruthy
             bareDir).
    right. left. reflexivity.
  - destruct (project_context_total JSON_parse_ref literalText literalTruthy
                sampleDir) as (_ & _ & H).
    destruct (JSON_parse_ref (default [] (cat_packageJson sampleDir)))
      as [e|[| | | | |members]] eqn:E; try (vm_compute in E; discriminate).
    destruct (H (js "/work") (default [] (cat_packageJson sampleDir))
                (JObject members) eq_refl eq_refl eq_refl E)
      as (_ & _ & Hobject).
    destruct (Hobject members eq_refl) as (_ & Htext). clear H Hobject.
    vm_compute in E. injection E as <-.
    destruct (Htext (js "git-log-ai") (js "No description"))
      as (dependencies & devDependencies & -> & -> & -> & _);
      vm_compute; reflexivity.
Defined.

(** The context of the sample directory. *)
Lemma sampleDir_context :
  getProjectContext JSON_parse_ref literalText literalTruthy sampleDir
  = inr (contextText (js "git-log-ai") (js "No description")
           [js "openai"; js "dotenv"]
           [js "a"; js "b"; js "c"; js "d"; js "e"]).
Proof. vm_compute. reflexivity. Qed.

(** ** The batch analyzer *)

Lemma decimal_digits (n : nat) : Forall (fun c => isDigit c = true) (decimal n).
Proof.
  unfold decimal. generalize (Nat.to_uint n).
  induction u; simpl; constructor; try reflexivity; assumption.
Qed.

Lemma decimal_inj (n m : nat) : decimal n = decimal m -> n = m.
Proof.
  unfold decimal. intros H. apply Unsigned.to_uint_inj.
  apply (f_equal (map ascii_of_N)) in H. rewrite !map_map in H.
  rewrite !(map_ext _ id ascii_N_embedding), !map_id in H.
  apply (f_equal string_of_list_ascii) in H.
  rewrite !string_of_list_ascii_of_string in H.
  apply (f_equal NilEmpty.uint_of_string) in H.
  rewrite !NilEmpty.usu in H. congruence.
Qed.

(** Two runs of digits that end at the same non-digit are equal. *)
Lemma digit_runs_agree (a b r r' : jsstring) (x : N) :
  Forall (fun c => isDigit c = true) a ->
  Forall (fun c => isDigit c = true) b ->
  isDigit x = false ->
  a ++ x :: r = b ++ x :: r' -> a = b.
Proof.
  intros Ha. revert b. induction Ha as [|c a Hc _ IH]; intros b Hb Hx H;
    destruct Hb as [|d b Hd Hb]; simpl in H.
  - reflexivity.
  - injection H as <- _. congruence.
  - injection H as -> _. congruence.
  - injection H as -> H. f_equal. now apply IH.
Qed.


Section AnalysisFacts.

Variable JSON_parse : jsstring -> result json.
Variable Number_toString : jsstring -> jsstring.
Variable Number_toBoolean : jsstring -> bool.
Variable newOpenAI : option jsstring -> result unit.
Variable createCompletion :
  list CommitInfo -> nat -> nat -> jsstring -> completion.
Variable OPENAI_API_KEY : option jsstring.

Local Abbreviation analyzeBatch' :=
  (analyzeBatch JSON_parse newOpenAI createCompletion OPENAI_API_KEY).
Local Abbreviation analyzeLoop' :=
  (analyzeLoop JSON_parse newOpenAI createCompletion OPENAI_API_KEY).
Local Abbreviation analyzeCommitsWithGPT' :=
  (analyzeCommitsWithGPT JSON_parse Number_toString Number_toBoolean newOpenAI
     createCompletion OPENAI_API_KEY).

Hypothesis client_ok : exists client, newOpenAI OPENAI_API_KEY = inr client.




End AnalysisFacts.


(** A value of the declared shape is merged as it is. *)
Lemma asMergeable_shaped (v : json) (r : ResumeAnalysis) :
  asResumeAnalysis v = Some r -> asMergeable v = Some r.
Proof.
  destruct v as [| | | | |members]; try discriminate.
  unfold asResumeAnalysis, asMergeable.
  destruct (getMember (js "summary") members) as [[]|]; try discriminate.
  trivial.
Qed.


(** * Further properties of the program *)

(** ** The commit filter, line by line *)

Lemma split_app (sep : N) (a b : jsstring) :
  split sep (a ++ sep :: b) = split sep a ++ split sep b.
Proof.
  induction a as [|c a IH]; simpl.
  - now rewrite N.eqb_refl.
  - destruct (c =? sep)%N; rewrite IH; [reflexivity|].
    pose proof (split_not_nil sep a) as Hnil.
    now destruct (split sep a).
Qed.

(** X1. Every line is judged on its own: the commits of two texts put one after
    the other, with a line feed between them, are the commits of the first
    followed by the commits of the second. *)
Theorem fetchGitLog_app (toLowerCase : jsstring -> jsstring) (a b : jsstring) :
  fetchGitLog toLowerCase (a ++ LF :: b)
  = fetchGitLog toLowerCase a ++ fetchGitLog toLowerCase b.
Proof.
  unfold fetchGitLog, fetchGitLogWith.
  now rewrite split_app, !List.filter_app, map_app, List.filter_app.
Qed.

Lemma split_parts_elem (sep : N) (s p : jsstring) (x : N) :
  p ∈ split sep s -> x ∈ p -> x ∈ s.
Proof.
  intros Hp Hx. rewrite <- (join_split sep s).
  now apply (elem_of_join_part _ p).
Qed.

(** X2. A text of white space only, the empty text included, holds no commit. *)
Theorem fetchGitLog_blank (toLowerCase : jsstring -> jsstring) (output : jsstring) :
  blank output -> fetchGitLog toLowerCase output = [].
Proof.
  intros Hb. unfold fetchGitLog. rewrite fetchGitLogWith_lines.
  assert (Hnone : nonBlankLines output = []); [|now rewrite Hnone].
  unfold nonBlankLines.
  rewrite <- (filter_false (split LF output)). apply filter_ext_in.
  intros line Hline. apply negb_false_iff, isBlank_true.
  unfold blank. apply Forall_forall. intros x Hx.
  apply (blank_elem output x Hb).
  apply (split_parts_elem LF output line); [now apply list_elem_of_In|assumption].
Qed.

Lemma fetchGitLog_blank_witness :
  blank (js "  " ++ [LF; TAB; LF])
  /\ fetchGitLog asciiLowerCase (js "  " ++ [LF; TAB; LF]) = [].
Proof.
  assert (Hb : blank (js "  " ++ [LF; TAB; LF])) by (repeat constructor).
  split; [exact Hb|]. exact (fetchGitLog_blank asciiLowerCase _ Hb).
Defined.

(** X3. Every commit returned was parsed from a non-blank line of the text that
    has at least five tab-separated fields. *)
Theorem fetchGitLog_five_fields (toLowerCase : jsstring -> jsstring)
  (output : jsstring) :
  Forall (fun c => exists line,
                     line ∈ nonBlankLines output
                     /\ c = parseLine line
                     /\ 5 <= length (split TAB line))
         (fetchGitLog toLowerCase output).
Proof.
  unfold fetchGitLog. rewrite fetchGitLogWith_lines.
  apply List.Forall_forall. intros c Hc.
  apply filter_In in Hc as [Hc Hkeep].
  apply in_map_iff in Hc as (line & <- & Hline).
  exists line. split; [now apply list_elem_of_In|split; [reflexivity|]].
  destruct (kept_line_shape _ _ _ Hkeep) as (h & d & a & e & s & bp & -> & _).
  simpl. lia.
Qed.

(** X4. In every commit returned, the hash, the date, the author name, the email
    and the subject hold neither a tab nor a line feed, and the body holds no
    line feed and is trimmed. *)
Theorem fetchGitLog_fields_clean (toLowerCase : jsstring -> jsstring)
  (output : jsstring) :
  Forall (fun c =>
            Forall (fun field => (TAB ∉ field) /\ (LF ∉ field))
                   [hash c; date c; author c; email c; subject c]
            /\ (LF ∉ body c)
            /\ trim (body c) = body c)
         (fetchGitLog toLowerCase output).
Proof.
  unfold fetchGitLog. rewrite fetchGitLogWith_lines.
  apply List.Forall_forall. intros c Hc.
  apply filter_In in Hc as [Hc Hkeep].
  apply in_map_iff in Hc as (line & <- & Hline).
  unfold nonBlankLines in Hline. apply filter_In in Hline as [Hline _].
  assert (Hlf : LF ∉ line).
  { pose proof (split_no_sep LF output) as Hno.
    rewrite List.Forall_forall in Hno. now apply Hno. }
  destruct (kept_line_shape _ _ _ Hkeep)
    as (h & d & a & e & s & bp & Hsplit & ->).
  cbn [hash date author email subject body].
  pose proof (split_no_sep TAB line) as Htab. rewrite Hsplit in Htab.
  assert (Hpart : forall p, p ∈ h :: d :: a :: e :: s :: bp -> LF ∉ p).
  { intros p Hp Hx. apply Hlf.
    apply (split_parts_elem TAB line p); [now rewrite Hsplit|assumption]. }
  split; [|split].
  - repeat (apply Forall_cons in Htab as [? Htab]).
    repeat (constructor;
            [split; [assumption|apply Hpart; rewrite !elem_of_cons; tauto]|]).
    constructor.
  - intros Hx. apply elem_of_trim, join_blank_elem in Hx as [Hx|(p & Hp & Hx)].
    + apply list_elem_of_singleton in Hx. discriminate.
    + apply (Hpart p); [|assumption]. rewrite !elem_of_cons. tauto.
  - apply trim_idempotent.
Qed.

Lemma trimStart_map (g : N -> N) (s : jsstring) :
  (forall c, isWhiteSpace (g c) = isWhiteSpace c) ->
  trimStart (map g s) = map g (trimStart s).
Proof.
  intros Hg. induction s as [|c s IH]; simpl; [reflexivity|].
  rewrite Hg. now destruct (isWhiteSpace c).
Qed.

Lemma trim_map (g : N -> N) (s : jsstring) :
  (forall c, isWhiteSpace (g c) = isWhiteSpace c) ->
  trim (map g s) = map g (trim s).
Proof.
  intros Hg. unfold trim, trimEnd.
  now rewrite trimStart_map, <- map_rev, trimStart_map, map_rev.
Qed.

Lemma asciiLower_idempotent (c : N) : asciiLower (asciiLower c) = asciiLower c.
Proof.
  destruct (asciiLower_spec c) as [[Hc H]|[_ H]]; rewrite !H; [|reflexivity].
  destruct (asciiLower_spec (c + 32)) as [[Hc' _]|[_ H']]; [lia|exact H'].
Qed.

(** X5. The filter does not tell the case of Basic Latin letters in a subject:
    a commit whose subject holds Basic Latin code units only is kept exactly
    when the commit with the lower-cased subject is. *)
Theorem keepCommit_case_insensitive (toLowerCase : jsstring -> jsstring)
  (c : CommitInfo) :
  CaseMapping toLowerCase ->
  Forall (fun u => (u <? 128)%N = true) (subject c) ->
  keepCommit toLowerCase (lowerSubject c) = keepCommit toLowerCase c.
Proof.
  intros Hlower Hascii.
  assert (Hascii' : Forall (fun u => (u <? 128)%N = true)
                           (asciiLowerCase (subject c))).
  { unfold asciiLowerCase. apply Forall_map.
    eapply Forall_impl; [exact Hascii|]. intros u Hu. simpl.
    apply N.ltb_lt in Hu. apply N.ltb_lt.
    destruct (asciiLower_spec u) as [[Hc ->]|[_ ->]]; lia. }
  unfold keepCommit, keepCommitWith, lowerSubject.
  cbn [hash date author email subject body].
  rewrite (toLowerCase_ascii _ Hlower _ Hascii').
  rewrite (toLowerCase_ascii _ Hlower _ Hascii).
  unfold asciiLowerCase.
  rewrite map_map, (map_ext _ asciiLower asciiLower_idempotent).
  rewrite !trim_map by apply isWhiteSpace_asciiLower.
  rewrite length_map.
  replace (truthy (map asciiLower (subject c))) with (truthy (subject c))
    by now destruct (subject c).
  reflexivity.
Qed.

Lemma keepCommit_case_insensitive_witness :
  CaseMapping asciiLowerCase
  /\ keepCommit asciiLowerCase
       (lowerSubject
          {| hash := js "a1b2c3"; date := js "2023-06-01"; author := js "Jane";
             email := js "jane@x.com"; subject := js "FIX: "; body := [] |})
     = keepCommit asciiLowerCase
         {| hash := js "a1b2c3"; date := js "2023-06-01"; author := js "Jane";
            email := js "jane@x.com"; subject := js "FIX: "; body := [] |}.
Proof.
  split; [exact asciiLowerCase_pieces|].
  apply (keepCommit_case_insensitive asciiLowerCase _ asciiLowerCase_pieces).
  cbn [subject]. repeat constructor.
Defined.

(** ** Merging merged reports *)

Lemma dedupFirstSeen_app (xs ys : list jsstring) :
  dedupFirstSeen (xs ++ ys)
  = dedupFirstSeen xs
    ++ List.filter (fun y => negb (bool_decide (y ∈ xs))) (dedupFirstSeen ys).
Proof.
  rewrite <- (Set_from_dedup (xs ++ ys)). unfold Set_from.
  rewrite fold_left_app, Set_add_fold. fold (Set_from xs).
  rewrite Set_from_dedup. f_equal.
  apply filter_ext. intros y. f_equal. apply bool_decide_ext.
  apply dedupFirstSeen_elem.
Qed.

Lemma dedupFirstSeen_NoDup_id (l : list jsstring) :
  NoDup l -> dedupFirstSeen l = l.
Proof.
  induction 1 as [|x l Hx _ IH]; simpl; [reflexivity|].
  rewrite IH. f_equal. apply forallb_filter_id, forallb_forall.
  intros y Hy. apply negb_true_iff, bool_decide_eq_false.
  intros ->. apply Hx. now apply list_elem_of_In.
Qed.

Lemma take_dedup_NoDup (n : nat) (l : list jsstring) :
  NoDup (take n (dedupFirstSeen l)).
Proof.
  eapply sublist_NoDup; [apply dedupFirstSeen_NoDup|apply sublist_take].
Qed.

(** Cutting a list before filtering it loses nothing among the first [m]
    survivors when at most [n - m] entries of the cut are filtered out. *)
Lemma take_filter_take {A} (P : A -> bool) (l : list A) (n m : nat) :
  length (List.filter (fun x => negb (P x)) (take n l)) + m <= n ->
  take m (List.filter P (take n l)) = take m (List.filter P l).
Proof.
  revert n m. induction l as [|x l IH]; intros n m H.
  - now rewrite take_nil.
  - destruct n as [|n]; [now replace m with 0 by (simpl in H; lia)|].
    simpl in *. destruct (P x); simpl in *.
    + destruct m as [|m]; [reflexivity|]. simpl. f_equal. apply IH. lia.
    + apply IH. lia.
Qed.

(** The first [n] distinct strings of two lists, from the first [n] distinct
    strings of each. *)
Lemma take_dedup_app (n : nat) (xs ys : list jsstring) :
  take n (dedupFirstSeen (take n (dedupFirstSeen xs)
                          ++ take n (dedupFirstSeen ys)))
  = take n (dedupFirstSeen (xs ++ ys)).
Proof.
  rewrite !dedupFirstSeen_app.
  rewrite (dedupFirstSeen_NoDup_id (take n (dedupFirstSeen xs)))
    by apply take_dedup_NoDup.
  rewrite (dedupFirstSeen_NoDup_id (take n (dedupFirstSeen ys)))
    by apply take_dedup_NoDup.
  destruct (decide (n <= length (dedupFirstSeen xs))) as [Hle|Hgt].
  - rewrite !take_app_le; [now rewrite take_take, Nat.min_id|lia|].
    rewrite length_take. lia.
  - rewrite (take_ge (dedupFirstSeen xs)) by lia.
    rewrite !take_app_ge by lia. apply (f_equal (app _)).
    rewrite take_filter_take.
    + apply (f_equal (take _)). apply filter_ext. intros y. f_equal. apply bool_decide_ext.
      apply dedupFirstSeen_elem.
    + assert (length (List.filter
                        (fun x => negb (negb (bool_decide (x ∈ dedupFirstSeen xs))))
                        (take n (dedupFirstSeen ys)))
              <= length (dedupFirstSeen xs)); [|lia].
      apply submseteq_length, NoDup_submseteq.
      * eapply sublist_NoDup; [apply take_dedup_NoDup|apply sublist_List_filter].
      * intros y Hy. apply elem_of_List_filter in Hy as [_ Hy].
        rewrite negb_involutive in Hy. now apply bool_decide_eq_true in Hy.
Qed.

Lemma mergeBatchAnalyses_summary (analyses : list ResumeAnalysis) :
  summary (mergeBatchAnalyses analyses) = join (js " ") (map summary analyses).
Proof.
  unfold mergeBatchAnalyses. cbn [summary].
  match goal with
  | |- context [fold_left pushAll analyses ?acc] =>
    destruct (pushAll_fold analyses acc) as [-> _]
  end.
  reflexivity.
Qed.

Lemma mergeBatchAnalyses_field (analyses : list ResumeAnalysis)
  (f : ResumeAnalysis -> list jsstring) :
  f ∈ listFields ->
  f (mergeBatchAnalyses analyses)
  = take 5 (dedupFirstSeen (concat (map f analyses))).
Proof.
  intros Hf. pose proof (mergeBatchAnalyses_fields analyses) as H.
  rewrite Forall_forall in H. now apply H.
Qed.

Lemma ResumeAnalysis_eq (a b : ResumeAnalysis) :
  summary a = summary b ->
  (forall f, f ∈ listFields -> f a = f b) ->
  a = b.
Proof.
  intros Hs Hf. destruct a, b. simpl in Hs. subst.
  pose proof (Hf keyAchievements) as H1. pose proof (Hf technicalSkills) as H2.
  pose proof (Hf businessImpact) as H3. pose proof (Hf problemSolving) as H4.
  pose proof (Hf leadership) as H5. unfold listFields in *. simpl in *.
  rewrite H1, H2, H3, H4, H5; [reflexivity|..]; rewrite !elem_of_cons; tauto.
Qed.

(** X6. Merging is idempotent: the merge of a merged report alone is that
    report. *)
Theorem merge_idempotent (analyses : list ResumeAnalysis) :
  mergeBatchAnalyses [mergeBatchAnalyses analyses] = mergeBatchAnalyses analyses.
Proof.
  apply ResumeAnalysis_eq.
  - now rewrite mergeBatchAnalyses_summary.
  - intros f Hf. rewrite (mergeBatchAnalyses_field [_] f Hf).
    simpl. rewrite app_nil_r, (mergeBatchAnalyses_field analyses f Hf).
    rewrite dedupFirstSeen_NoDup_id by apply take_dedup_NoDup.
    now rewrite take_take, Nat.min_id.
Qed.

(** X7. Merging in two stages gives the list fields of merging at once: the
    merge of the merged reports of two runs of batches has the list fields
    of the merge of all the batches. *)
Theorem merge_two_stage (first second : list ResumeAnalysis) :
  Forall (fun f =>
            f (mergeBatchAnalyses [mergeBatchAnalyses first;
                                   mergeBatchAnalyses second])
            = f (mergeBatchAnalyses (first ++ second)))
         listFields.
Proof.
  apply Forall_forall. intros f Hf.
  rewrite (mergeBatchAnalyses_field [_; _] f Hf).
  rewrite (mergeBatchAnalyses_field (first ++ second) f Hf).
  simpl. rewrite app_nil_r, map_app, concat_app.
  rewrite (mergeBatchAnalyses_field first f Hf).
  rewrite (mergeBatchAnalyses_field second f Hf).
  apply take_dedup_app.
Qed.

(** X8. The merge invents nothing: every entry of a list field of the merged
    report is an entry of that field in one of the partial reports. *)
Theorem merge_entries_from_partials (analyses : list ResumeAnalysis) :
  Forall (fun f =>
            forall x, x ∈ f (mergeBatchAnalyses analyses) ->
                      exists a, a ∈ analyses /\ x ∈ f a)
         listFields.
Proof.
  apply Forall_forall. intros f Hf x Hx.
  rewrite (mergeBatchAnalyses_field analyses f Hf) in Hx.
  eapply elem_of_sublist in Hx; [|apply sublist_take].
  apply dedupFirstSeen_elem, list_elem_of_In, in_concat in Hx as (l & Hl & Hx).
  apply in_map_iff in Hl as (a & <- & Ha).
  exists a. now rewrite !list_elem_of_In.
Qed.

(** X9. Later batches only append: each list field of the merge of some batches
    is a prefix of that field in the merge of those batches followed by
    more. *)
Theorem merge_prefix (analyses more : list ResumeAnalysis) :
  Forall (fun f =>
            f (mergeBatchAnalyses analyses)
            `prefix_of` f (mergeBatchAnalyses (analyses ++ more)))
         listFields.
Proof.
  apply Forall_forall. intros f Hf.
  rewrite (mergeBatchAnalyses_field analyses f Hf).
  rewrite (mergeBatchAnalyses_field (analyses ++ more) f Hf).
  rewrite map_app, concat_app, dedupFirstSeen_app.
  set (d := dedupFirstSeen (concat (map f analyses))).
  destruct (decide (5 <= length d)) as [Hle|Hgt].
  - now rewrite take_app_le.
  - rewrite (take_ge d) by lia. rewrite take_app_ge by lia.
    now apply prefix_app_r.
Qed.

(** ** The batches, one by one *)

Lemma batchLoop_explicit {A} (commits : list A) (n k : nat)
  (batches : list (list A)) :
  (length commits + 19) / 20 - k <= n ->
  batchLoop commits (20 * k) batches
  = batches ++ map (fun j => slice (20 * j) (20 * j + 20) commits)
                   (seq k ((length commits + 19) / 20 - k)).
Proof.
  pose proof (Nat.div_mod_eq (length commits + 19) 20) as Hdiv.
  pose proof (Nat.mod_upper_bound (length commits + 19) 20) as Hmod.
  set (q := (length commits + 19) / 20) in *.
  revert k batches. induction n as [|n IH]; intros k batches Hn;
    rewrite batchLoop_step;
    destruct (decide (20 * k < length commits)) as [Hk|Hk]; try lia.
  1, 3: replace (q - k) with 0 by lia; simpl; now rewrite app_nil_r.
  unfold batchSize. replace (20 * k + 20) with (20 * S k) by lia.
  rewrite IH by lia. rewrite <- app_assoc.
  replace (q - k) with (S (q - S k)) by lia.
  simpl. repeat f_equal. lia.
Qed.

(** X10. [n] commits are split into [ceil (n / 20)] batches, and batch [j],
    counted from 0, is [commits.slice(20 * j, 20 * j + 20)]. *)
Theorem splitBatches_explicit {A} (commits : list A) :
  splitBatches commits
  = map (fun j => slice (20 * j) (20 * j + 20) commits)
        (seq 0 ((length commits + 19) / 20)).
Proof.
  unfold splitBatches. change 0 with (20 * 0) at 1.
  rewrite (batchLoop_explicit commits ((length commits + 19) / 20) 0 [])
    by lia.
  now rewrite Nat.sub_0_r.
Qed.

(** ** The merge of run-time values *)

Section UntypedMerge.

Variable Number_toString : jsstring -> jsstring.

Local Abbreviation merge' := (Untyped.mergeBatchAnalyses Number_toString).

Lemma mapM_asString (elements : list json) (l : list jsstring) :
  mapM asString elements = Some l -> elements = map JString l.
Proof.
  rewrite mapM_Some. induction 1 as [|v s elements l Hv _ IH]; [reflexivity|].
  destruct v; try discriminate. injection Hv as ->. simpl. now f_equal.
Qed.

Lemma asStringArray_spread (v : option json) (l : list jsstring) :
  v ≫= asStringArray = Some l -> spread v = Some (map JString l).
Proof.
  destruct v as [[]|]; try discriminate. simpl. intros H.
  now rewrite (mapM_asString _ _ H).
Qed.

(** A value within [asMergeable] is an object that is read as the partial
    report it stands for. *)
Lemma asMergeable_read (v : json) (r : ResumeAnalysis) :
  asMergeable v = Some r ->
  (exists s, getProperty v (js "summary") = Some s
             /\ Untyped.joinPart Number_toString s = Some (summary r))
  /\ forall merged,
       Untyped.pushAll (untyped merged) v = Some (untyped (pushAll merged r)).
Proof.
  destruct v as [| | | | |members]; try discriminate.
  unfold asMergeable, Untyped.pushAll. cbn [getProperty].
  destruct (summaryText _) as [s|] eqn:Es; [|discriminate].
  cbn [mbind option_bind].
  destruct (getMember (js "keyAchievements") members ≫= asStringArray)
    as [k|] eqn:Ek; [|discriminate]. cbn [mbind option_bind].
  destruct (getMember (js "technicalSkills") members ≫= asStringArray)
    as [t|] eqn:Et; [|discriminate]. cbn [mbind option_bind].
  destruct (getMember (js "businessImpact") members ≫= asStringArray)
    as [b|] eqn:Eb; [|discriminate]. cbn [mbind option_bind].
  destruct (getMember (js "problemSolving") members ≫= asStringArray)
    as [p|] eqn:Ep; [|discriminate]. cbn [mbind option_bind].
  destruct (getMember (js "leadership") members ≫= asStringArray)
    as [l|] eqn:El; [|discriminate]. cbn [mbind option_bind].
  intros [= <-]. split.
  - eexists. split; [reflexivity|].
    destruct (getMember (js "summary") members) as [[]|];
      try discriminate; simpl in *; congruence.
  - intros merged.
    rewrite (asStringArray_spread _ _ Ek), (asStringArray_spread _ _ Et),
      (asStringArray_spread _ _ Eb), (asStringArray_spread _ _ Ep),
      (asStringArray_spread _ _ El).
    cbn [mbind option_bind]. unfold untyped, pushAll. simpl.
    now rewrite !map_app.
Qed.

Lemma forEach_shaped (vals : list json) (analyses : list ResumeAnalysis) :
  Forall2 (fun v r => asMergeable v = Some r) vals analyses ->
  forall merged,
    Untyped.forEach vals (untyped merged)
    = Some (untyped (fold_left pushAll analyses merged)).
Proof.
  induction 1 as [|v r vals analyses Hv _ IH]; intros merged; [reflexivity|].
  cbn [Untyped.forEach fold_left].
  destruct (asMergeable_read v r Hv) as [_ ->]. apply IH.
Qed.

Lemma sameValueZero_strings (x : jsstring) (s : list jsstring) :
  existsb (Untyped.sameValueZero Number_toString (JString x)) (map JString s)
  = bool_decide (x ∈ s).
Proof.
  induction s as [|y s IH]; [reflexivity|].
  cbn [map existsb Untyped.sameValueZero]. rewrite IH.
  destruct (decide (x = y)) as [->|Hne].
  - rewrite (bool_decide_eq_true_2 (y = y)) by reflexivity.
    rewrite (bool_decide_eq_true_2 (y ∈ y :: s)) by left. reflexivity.
  - rewrite (bool_decide_eq_false_2 (x = y)) by exact Hne.
    apply bool_decide_ext. rewrite elem_of_cons. tauto.
Qed.

Lemma Set_add_strings (items acc : list jsstring) :
  fold_left (Untyped.Set_add Number_toString) (map JString items)
    (map JString acc)
  = map JString (fold_left Set_add items acc).
Proof.
  revert acc. induction items as [|x items IH]; intros acc; [reflexivity|].
  cbn [map fold_left]. unfold Untyped.Set_add at 2, Set_add at 2.
  rewrite sameValueZero_strings.
  destruct (decide (x ∈ acc)) as [Hin|Hout].
  - rewrite bool_decide_eq_true_2 by exact Hin. apply IH.
  - rewrite bool_decide_eq_false_2 by exact Hout.
    rewrite <- IH. now rewrite map_app.
Qed.

Lemma uniqueFirst5_strings (items : list jsstring) :
  Untyped.uniqueFirst5 Number_toString (map JString items)
  = map JString (uniqueFirst5 items).
Proof.
  unfold Untyped.uniqueFirst5, uniqueFirst5, Untyped.Set_from, Set_from, slice.
  change (@nil json) with (map JString []) at 1.
  rewrite (Set_add_strings items []).
  now rewrite <- fmap_take, <- fmap_drop.
Qed.

(** On values within [asMergeable] the merge at run time is the merge of the
    partial reports they stand for. *)
Lemma mergeBatchAnalyses_shaped (vals : list json)
  (analyses : list ResumeAnalysis) :
  mapM asMergeable vals = Some analyses ->
  merge' vals = Some (untyped (mergeBatchAnalyses analyses)).
Proof.
  rewrite mapM_Some. intros H. unfold Untyped.mergeBatchAnalyses.
  assert (Hs : exists summaries,
             mapM (fun a => getProperty a (js "summary")) vals = Some summaries
             /\ mapM (Untyped.joinPart Number_toString) summaries
                = Some (map summary analyses)).
  { induction H as [|v r vals analyses Hv _ (summaries & E1 & E2)].
    - now exists [].
    - destruct (asMergeable_read v r Hv) as [(s & Es & Ep) _].
      exists (s :: summaries). split.
      + apply mapM_Some. constructor; [exact Es|now apply mapM_Some].
      + apply mapM_Some. constructor; [exact Ep|now apply mapM_Some]. }
  destruct Hs as (summaries & -> & E2). cbn [mbind option_bind].
  rewrite E2. cbn [mbind option_bind].
  match goal with
  | |- context [Untyped.forEach vals ?m] =>
    change m with (untyped {| summary := join (js " ") (map summary analyses);
                              keyAchievements := []; technicalSkills := [];
                              businessImpact := []; problemSolving := [];
                              leadership := [] |})
  end.
  rewrite (forEach_shaped vals analyses H). cbn [mbind option_bind].
  unfold untyped, mergeBatchAnalyses.
  cbn [Untyped.summary Untyped.keyAchievements Untyped.technicalSkills
       Untyped.businessImpact Untyped.problemSolving Untyped.leadership
       summary keyAchievements technicalSkills businessImpact problemSolving
       leadership].
  now rewrite !uniqueFirst5_strings.
Qed.


Lemma pushAll_is_Some (merged : Untyped.ResumeAnalysis) (v : json) :
  is_Some (Untyped.pushAll merged v)
  <-> exists members,
        v = JObject members
        /\ Forall (fun field => is_Some (spread (getMember field members)))
                  listFieldNames.
Proof.
  unfold Untyped.pushAll, listFieldNames. split.
  - destruct v as [| | | | |members]; cbn [getProperty mbind option_bind spread];
      try (intros [? H]; discriminate H).
    intros H. exists members. split; [reflexivity|].
    destruct (spread (getMember (js "keyAchievements") members)) eqn:E1;
      [|destruct H; discriminate].
    destruct (spread (getMember (js "technicalSkills") members)) eqn:E2;
      [|destruct H; discriminate].
    destruct (spread (getMember (js "businessImpact") members)) eqn:E3;
      [|destruct H; discriminate].
    destruct (spread (getMember (js "problemSolving") members)) eqn:E4;
      [|destruct H; discriminate].
    destruct (spread (getMember (js "leadership") members)) eqn:E5;
      [|destruct H; discriminate].
    repeat (constructor;
            [cbv beta; rewrite ?E1, ?E2, ?E3, ?E4, ?E5; eauto|]).
    constructor.
  - intros (members & -> & H). cbn [getProperty mbind option_bind].
    repeat match goal with
           | H : Forall _ (_ :: _) |- _ =>
             apply Forall_cons in H as [[? ->] H]; cbn [mbind option_bind]
           end.
    eauto.
Qed.

Lemma forEach_is_Some (vals : list json) :
  forall merged,
    is_Some (Untyped.forEach vals merged)
    <-> Forall (fun v => exists members,
                  v = JObject members
                  /\ Forall (fun field =>
                               is_Some (spread (getMember field members)))
                            listFieldNames)
               vals.
Proof.
  induction vals as [|v vals IH]; intros merged; cbn [Untyped.forEach].
  - split; [constructor|eauto].
  - rewrite Forall_cons, <- (pushAll_is_Some merged v). split.
    + destruct (Untyped.pushAll merged v) as [m|]; [|intros [? H]; discriminate].
      intros H. split; [eauto|]. now apply (IH m).
    + intros [[m ->] H]. now apply IH.
Qed.

(** [mergeBatchAnalyses] returns exactly on lists of mergeable values. *)
Lemma mergeBatchAnalyses_is_Some (vals : list json) :
  is_Some (merge' vals) <-> Forall (mergeable Number_toString) vals.
Proof.
  unfold Untyped.mergeBatchAnalyses, mergeable. split.
  - destruct (mapM _ vals) as [summaries|] eqn:E1; [|intros [? H]; discriminate].
    cbn [mbind option_bind].
    destruct (mapM _ summaries) as [parts|] eqn:E2; [|intros [? H]; discriminate].
    cbn [mbind option_bind].
    destruct (Untyped.forEach vals _) as [m|] eqn:E3; [|intros [? H]; discriminate].
    intros _.
    assert (H3 : is_Some (Untyped.forEach vals
                            {| Untyped.summary := join (js " ") parts;
                               Untyped.keyAchievements := [];
                               Untyped.technicalSkills := [];
                               Untyped.businessImpact := [];
                               Untyped.problemSolving := [];
                               Untyped.leadership := [] |})) by eauto.
    apply forEach_is_Some in H3. clear E3 m.
    apply mapM_Some in E1, E2. revert parts E2 H3.
    induction E1 as [|v s vals summaries Hv _ IH]; intros parts E2 H3;
      [constructor|].
    apply Forall2_cons_inv_l in E2 as (part & parts' & Hpart & E2 & ->).
    apply Forall_cons in H3 as [(members & -> & Hfields) H3].
    constructor; [|now apply (IH parts')].
    exists members. repeat split; [|exact Hfields].
    cbn [getProperty] in Hv. injection Hv as <-. eauto.
  - intros H.
    assert (H3 : forall merged, is_Some (Untyped.forEach vals merged)).
    { intros merged. apply forEach_is_Some.
      eapply Forall_impl; [exact H|]. intros v (members & -> & _ & Hf). eauto. }
    assert (Hs : exists summaries parts,
               mapM (fun a => getProperty a (js "summary")) vals = Some summaries
               /\ mapM (Untyped.joinPart Number_toString) summaries = Some parts).
    { clear H3. induction H as [|v vals (members & -> & [part Hp] & _) _
                                 (summaries & parts & E1 & E2)].
      - now exists [], [].
      - exists (getMember (js "summary") members :: summaries), (part :: parts).
        split; apply mapM_Some; (constructor; [|now apply mapM_Some]);
          [reflexivity|exact Hp]. }
    destruct Hs as (summaries & parts & -> & E2). cbn [mbind option_bind].
    rewrite E2. cbn [mbind option_bind].
    match goal with
    | |- context [Untyped.forEach vals ?m] => destruct (H3 m) as [m' ->]
    end.
    cbn [mbind option_bind]. eauto.
Qed.

End UntypedMerge.

(** ** Runs that return a report *)

Section AnalysisRuns.

Variable JSON_parse : jsstring -> result json.
Variable Number_toString : jsstring -> jsstring.
Variable Number_toBoolean : jsstring -> bool.
Variable newOpenAI : option jsstring -> result unit.
Variable createCompletion :
  list CommitInfo -> nat -> nat -> jsstring -> completion.
Variable OPENAI_API_KEY : option jsstring.

Local Abbreviation analyzeBatch' :=
  (analyzeBatch JSON_parse newOpenAI createCompletion OPENAI_API_KEY).
Local Abbreviation analyzeLoop' :=
  (analyzeLoop JSON_parse newOpenAI createCompletion OPENAI_API_KEY).
Local Abbreviation analyzeCommitsWithGPT' :=
  (analyzeCommitsWithGPT JSON_parse Number_toString Number_toBoolean newOpenAI
     createCompletion OPENAI_API_KEY).

Hypothesis client_ok : exists client, newOpenAI OPENAI_API_KEY = inr client.

Lemma analyzeBatch_returns (batch : list CommitInfo) (batchNum totalBatches : nat)
  (projectContext : jsstring) (v : json) :
  analyzeBatch' batch batchNum totalBatches projectContext = inr v
  <-> batchReturns JSON_parse
        (createCompletion batch batchNum totalBatches projectContext) v.
Proof.
  destruct client_ok as [client Hclient].
  unfold analyzeBatch, batchReturns. rewrite Hclient.
  destruct (createCompletion batch batchNum totalBatches projectContext)
    as [message|[text|]].
  - split; [discriminate|]. intros (t & H & _). discriminate.
  - destruct text as [|c text].
    + split; [discriminate|]. intros (t & H & Hne & _).
      injection H as <-. contradiction.
    + cbn [truthy]. destruct (JSON_parse (c :: text)) as [e|w] eqn:E.
      * split; [discriminate|]. intros (t & H & _ & Hv).
        injection H as <-. congruence.
      * split.
        -- intros H. injection H as <-. exists (c :: text).
           repeat split; [discriminate|assumption].
        -- intros (t & H & _ & Hv). injection H as <-. congruence.
  - split; [discriminate|]. intros (t & H & _). discriminate.
Qed.

(** The loop returns exactly when every batch returns, and then it has
    appended the values of the batches in their order. *)
Lemma analyzeLoop_returns (batches : list (list CommitInfo)) :
  forall (i totalBatches : nat) (projectContext : jsstring)
         (batchAnalyses out : list json),
    analyzeLoop' batches i totalBatches projectContext batchAnalyses = inr out
    <-> exists vals,
          out = batchAnalyses ++ vals
          /\ length vals = length batches
          /\ forall j batch v,
               batches !! j = Some batch -> vals !! j = Some v ->
               batchReturns JSON_parse
                 (createCompletion batch (i + j + 1) totalBatches projectContext)
                 v.
Proof.
  induction batches as [|b0 batches IH]; intros i total ctx acc out;
    cbn [analyzeLoop].
  - split.
    + intros H. injection H as <-. exists []. rewrite app_nil_r.
      repeat split. intros j batch v Hj. discriminate.
    + intros (vals & -> & Hlen & _). destruct vals; [|discriminate].
      now rewrite app_nil_r.
  - destruct (analyzeBatch' b0 (i + 1) total ctx) as [e|v0] eqn:E.
    + split; [discriminate|]. intros (vals & _ & Hlen & Hall).
      destruct vals as [|v vals]; [discriminate|].
      specialize (Hall 0 b0 v eq_refl eq_refl). rewrite Nat.add_0_r in Hall.
      apply analyzeBatch_returns in Hall. congruence.
    + apply analyzeBatch_returns in E. rewrite IH. split.
      * intros (vals & -> & Hlen & Hall). exists (v0 :: vals).
        rewrite <- app_assoc. repeat split; [simpl; lia|].
        intros [|j] batch v Hb Hv; simpl in Hb, Hv.
        -- injection Hb as <-. injection Hv as <-. now rewrite Nat.add_0_r.
        -- replace (i + S j + 1) with (S i + j + 1) by lia. now apply Hall.
      * intros (vals & -> & Hlen & Hall).
        destruct vals as [|v vals]; [discriminate|].
        assert (v = v0) as ->.
        { specialize (Hall 0 b0 v eq_refl eq_refl).
          rewrite Nat.add_0_r in Hall.
          destruct E as (t & Ht & _ & Hv), Hall as (t' & Ht' & _ & Hv').
          congruence. }
        exists vals. rewrite <- app_assoc. repeat split; [simpl in Hlen; lia|].
        intros j batch v Hb Hv.
        replace (S i + j + 1) with (i + S j + 1) by lia.
        now apply (Hall (S j)).
Qed.

Lemma batchesReturn_unique (commits : list CommitInfo) (context : jsstring)
  (vals vals' : list json) :
  batchesReturn JSON_parse createCompletion commits context vals ->
  batchesReturn JSON_parse createCompletion commits context vals' ->
  vals = vals'.
Proof.
  intros [Hlen Hall] [Hlen' Hall']. apply list_eq. intros j.
  destruct (vals !! j) as [v|] eqn:Ev, (vals' !! j) as [v'|] eqn:Ev'.
  - destruct (lookup_lt_is_Some_2 (splitBatches commits) j) as [b Hb].
    { rewrite <- Hlen. eapply lookup_lt_Some, Ev. }
    destruct (Hall j b v Hb Ev) as (t & Ht & _ & Hv).
    destruct (Hall' j b v' Hb Ev') as (t' & Ht' & _ & Hv').
    congruence.
  - apply lookup_lt_Some in Ev. apply lookup_ge_None in Ev'. lia.
  - apply lookup_lt_Some in Ev'. apply lookup_ge_None in Ev. lia.
  - reflexivity.
Qed.

(** The run goes on to the merge exactly when every batch returns. *)
Lemma analyzeLoop_batchesReturn (commits : list CommitInfo)
  (context : jsstring) (vals : list json) :
  analyzeLoop' (splitBatches commits) 0 (length (splitBatches commits))
    context [] = inr vals
  <-> batchesReturn JSON_parse createCompletion commits context vals.
Proof.
  rewrite analyzeLoop_returns. unfold batchesReturn. split.
  - intros (vals' & -> & Hlen & Hall). auto.
  - intros [Hlen Hall]. exists vals. auto.
Qed.

(** X11. A run with a key and a project context returns a report exactly when
    every batch got a non-empty text that [JSON.parse] accepts and every
    parsed value is mergeable: an object whose five list fields are arrays
    or strings and whose summary has a string.  The report is the merge of
    the parsed values in the order of the batches, with the entries the
    values hold, strings or not; for values within [asMergeable] it is the
    [mergeBatchAnalyses] of the partial reports.  When every batch returns
    and some value is not mergeable, the run ends with the TypeError of
    [mergeBatchAnalyses], which names no batch. *)
Theorem analysis_resolves (dir : projectDir) (commits : list CommitInfo)
  (context : jsstring) :
  truthy (default [] OPENAI_API_KEY) = true ->
  getProjectContext JSON_parse Number_toString Number_toBoolean dir
  = inr context ->
  (forall report,
     returned (analyzeCommitsWithGPT' dir commits) = Some report
     <-> exists vals,
           batchesReturn JSON_parse createCompletion commits context vals
           /\ Forall (mergeable Number_toString) vals
           /\ Untyped.mergeBatchAnalyses Number_toString vals = Some report)
  /\ (forall vals analyses,
        batchesReturn JSON_parse createCompletion commits context vals ->
        mapM asMergeable vals = Some analyses ->
        analyzeCommitsWithGPT' dir commits
        = Resolved (mergeBatchAnalyses analyses))
  /\ (analyzeCommitsWithGPT' dir commits = RejectedTypeError
      <-> exists vals,
            batchesReturn JSON_parse createCompletion commits context vals
            /\ ~ Forall (mergeable Number_toString) vals).
Proof.
  intros Hkey Hctx. unfold analyzeCommitsWithGPT.
  destruct client_ok as [client ->]. rewrite Hkey, Hctx. cbn [negb].
  destruct (analyzeLoop' (splitBatches commits) 0
              (length (splitBatches commits)) context []) as [e|out] eqn:E.
  - assert (Hnone : forall vals,
               ~ batchesReturn JSON_parse createCompletion commits context vals).
    { intros vals H. apply analyzeLoop_batchesReturn in H. congruence. }
    split; [|split].
    + intros report. split; [discriminate|].
      intros (vals & H & _). now apply Hnone in H.
    + intros vals analyses H. now apply Hnone in H.
    + split; [discriminate|]. intros (vals & H & _). now apply Hnone in H.
  - apply analyzeLoop_batchesReturn in E.
    assert (Hshaped := mergeBatchAnalyses_shaped Number_toString out).
    assert (Hsome := mergeBatchAnalyses_is_Some Number_toString out).
    split; [|split].
    + intros report.
      assert (Hret : returned
                       match mapM asMergeable out with
                       | Some analyses => Resolved (mergeBatchAnalyses analyses)
                       | None =>
                         match Untyped.mergeBatchAnalyses Number_toString out with
                         | Some r => ResolvedUntyped r
                         | None => RejectedTypeError
                         end
                       end
                     = Untyped.mergeBatchAnalyses Number_toString out).
      { destruct (mapM asMergeable out) as [analyses|].
        - now rewrite (Hshaped analyses eq_refl).
        - now destruct (Untyped.mergeBatchAnalyses Number_toString out). }
      rewrite Hret. split.
      * intros H. exists out. repeat split; [apply E..| |exact H].
        apply Hsome. now rewrite H.
      * intros (vals & Hvals & _ & H).
        now rewrite (batchesReturn_unique _ _ _ _ E Hvals).
    + intros vals analyses Hvals M.
      rewrite (batchesReturn_unique _ _ _ _ E Hvals). now rewrite M.
    + split.
      * intros H. exists out. split; [exact E|]. rewrite <- Hsome.
        destruct (mapM asMergeable out) as [analyses|]; [discriminate|].
        destruct (Untyped.mergeBatchAnalyses Number_toString out);
          [discriminate|]. now intros [? ?].
      * intros (vals & Hvals & Hnot).
        rewrite <- (batchesReturn_unique _ _ _ _ E Hvals) in Hnot.
        rewrite <- Hsome in Hnot.
        destruct (mapM asMergeable out) as [analyses|].
        { exfalso. apply Hnot. rewrite (Hshaped analyses eq_refl). eauto. }
        destruct (Untyped.mergeBatchAnalyses Number_toString out);
          [exfalso; apply Hnot; eauto|reflexivity].
Qed.

(** X12. With no commit the service is never consulted: whatever it would answer,
    a run with a key and a project context returns the empty report. *)
Theorem analysis_no_commits (dir : projectDir) (context : jsstring) :
  truthy (default [] OPENAI_API_KEY) = true ->
  getProjectContext JSON_parse Number_toString Number_toBoolean dir
  = inr context ->
  analyzeCommitsWithGPT' dir [] = Resolved emptyReport.
Proof.
  intros Hkey Hctx. unfold analyzeCommitsWithGPT.
  destruct client_ok as [client ->]. rewrite Hkey, Hctx. cbn [negb].
  unfold splitBatches. rewrite batchLoop_step. reflexivity.
Qed.

End AnalysisRuns.

Lemma analysis_resolves_witness :
  truthy (default [] (Some (js "sk-test"))) = true
  /\ returned
       (analyzeCommitsWithGPT JSON_parse_ref literalText literalTruthy
          (fun _ => inr tt) looseService (Some (js "sk-test"))
          bareDir [sampleCommit])
     = Some looseReport.
Proof.
  split; [reflexivity|].
  apply (analysis_resolves JSON_parse_ref literalText literalTruthy
           (fun _ => inr tt) looseService (Some (js "sk-test"))
           (ex_intro _ tt eq_refl) bareDir [sampleCommit] fallbackContext
           eq_refl eq_refl).
  destruct (JSON_parse_ref looseText) as [e|v] eqn:E;
    [vm_compute in E; discriminate|].
  exists [v]. split; [split; [reflexivity|]|].
  - intros [|j] batch w Hb Hw; [|discriminate].
    injection Hw as <-. exists looseText.
    repeat split; [discriminate|exact E].
  - vm_compute in E. injection E as <-. split.
    + constructor; [|constructor]. eexists. split; [reflexivity|].
      split; [vm_compute; eauto|].
      repeat (constructor; [vm_compute; eauto|]). constructor.
    + vm_compute. reflexivity.
Defined.

(** The run of the sample: the number is joined as its string and the string
    is spread into its code points. *)
Example loose_response_merged :
  analyzeCommitsWithGPT JSON_parse_ref literalText literalTruthy
    (fun _ => inr tt) looseService (Some (js "sk-test")) bareDir [sampleCommit]
  = ResolvedUntyped looseReport.
Proof. vm_compute. reflexivity. Qed.

(** A response without the list fields: the merge throws. *)
Example listless_response_throws :
  analyzeCommitsWithGPT JSON_parse_ref literalText literalTruthy
    (fun _ => inr tt) listlessService (Some (js "sk-test")) bareDir
    [sampleCommit]
  = RejectedTypeError.
Proof. vm_compute. reflexivity. Qed.

Lemma analysis_no_commits_witness :
  truthy (default [] (Some (js "sk-test"))) = true
  /\ analyzeCommitsWithGPT JSON_parse_ref literalText literalTruthy
       (fun _ => inr tt) summarylessService (Some (js "sk-test")) bareDir []
     = Resolved emptyReport.
Proof.
  split; [reflexivity|].
  exact (analysis_no_commits JSON_parse_ref literalText literalTruthy
           (fun _ => inr tt) summarylessService (Some (js "sk-test"))
           (ex_intro _ tt eq_refl) bareDir fallbackContext eq_refl eq_refl).
Defined.

(** ** The command line *)

Section CommandLine.

Import Cli.

Variable number : Type.
Variable parseInt : option jsstring -> number.
Variable port3000 : number.

Local Abbreviation CliArgs := (CliArgs number).
Local Abbreviation parseLoop := (parseLoop number parseInt).
Local Abbreviation parseArgs := (parseArgs number parseInt).
Local Abbreviation applyValue := (applyValue number parseInt).
Local Abbreviation applyFlag := (applyFlag number).
Local Abbreviation main_dispatch := (main_dispatch number port3000).

Lemma takesValue_spec (arg : jsstring) :
  takesValue arg = true
  <-> arg = js "--repo" \/ arg = js "--author" \/ arg = js "--since"
      \/ arg = js "--port".
Proof.
  unfold takesValue. rewrite bool_decide_eq_true, !elem_of_cons, elem_of_nil.
  tauto.
Qed.

(** One turn of the loop: a flag with a value takes the next argument, or
    [undefined] at the end, which ends the loop. *)
Lemma parseLoop_step (arg : jsstring) (rest : list jsstring) (a : CliArgs) :
  parseLoop (arg :: rest) a
  = if takesValue arg then
      match rest with
      | v :: rest' => parseLoop rest' (applyValue arg (Some v) a)
      | [] => applyValue arg None a
      end
    else parseLoop rest (applyFlag arg a).
Proof.
  destruct (takesValue arg) eqn:E.
  - apply takesValue_spec in E. cbn [Cli.parseLoop]. unfold Cli.applyValue.
    destruct E as [-> | [-> | [-> | ->]]];
      repeat (destruct (decide _) as [Heq|Hne];
              [try (vm_compute in Heq; discriminate); clear Heq
              |try (exfalso; apply Hne; reflexivity); clear Hne]);
      reflexivity.
  - assert (H : ~ (arg = js "--repo" \/ arg = js "--author"
                   \/ arg = js "--since" \/ arg = js "--port")).
    { rewrite <- takesValue_spec, E. discriminate. }
    cbn [Cli.parseLoop]. unfold Cli.applyFlag.
    repeat (destruct (decide _) as [?|?]; [first [tauto|reflexivity]|]);
      reflexivity.
Qed.

(** Induction along the turns of the loop. *)
Lemma argv_ind (P : list jsstring -> Prop) :
  P [] ->
  (forall arg, takesValue arg = true -> P [arg]) ->
  (forall arg v rest, takesValue arg = true -> P rest -> P (arg :: v :: rest)) ->
  (forall arg rest, takesValue arg = false -> P rest -> P (arg :: rest)) ->
  forall argv, P argv.
Proof.
  intros Hnil Hlast Hvalue Hflag argv.
  assert (H : forall n l, length l <= n -> P l); [|now apply (H (length argv))].
  induction n as [|n IH]; intros [|arg [|v rest]] Hlen; simpl in Hlen;
    try exact Hnil; try lia.
  - destruct (takesValue arg) eqn:E; [now apply Hlast|now apply Hflag].
  - destruct (takesValue arg) eqn:E.
    + apply Hvalue; [exact E|]. apply IH. lia.
    + apply Hflag; [exact E|]. apply IH. simpl. lia.
Qed.

Ltac loop_induction argv a :=
  revert a; induction argv as [|arg Harg|arg v rest Harg IH|arg rest Harg IH]
    using argv_ind; intros a;
  rewrite ?parseLoop_step, ?Harg.

Ltac decide_flags :=
  repeat (destruct (decide _) as [?|?]); subst; simpl;
  try reflexivity; try tauto; try congruence.

Lemma applyValue_flags (arg : jsstring) (v : option jsstring) (a : CliArgs) :
  web (applyValue arg v a) = web a
  /\ help (applyValue arg v a) = help a
  /\ analyze (applyValue arg v a) = analyze a.
Proof. unfold Cli.applyValue. decide_flags. Qed.

Lemma applyFlag_values (arg : jsstring) (a : CliArgs) :
  repo (applyFlag arg a) = repo a
  /\ author (applyFlag arg a) = author a
  /\ since (applyFlag arg a) = since a
  /\ port (applyFlag arg a) = port a.
Proof. unfold Cli.applyFlag. decide_flags. Qed.

Lemma applyFlag_flags (arg : jsstring) (a : CliArgs) :
  web (applyFlag arg a) = web a || bool_decide (arg = js "--web")
  /\ analyze (applyFlag arg a) = analyze a || bool_decide (arg = js "--analyze")
  /\ help (applyFlag arg a)
     = help a || bool_decide (arg = js "-h") || bool_decide (arg = js "--help").
Proof.
  unfold Cli.applyFlag.
  repeat (destruct (decide _) as [?|?]); subst;
    repeat match goal with
           | |- context [bool_decide (?x = ?y)] =>
             first [ rewrite (bool_decide_eq_true_2 (x = y)) by reflexivity
                   | rewrite (bool_decide_eq_false_2 (x = y))
                       by (assumption || (vm_compute; discriminate)) ]
           end;
    simpl; rewrite ?orb_false_r, ?orb_true_r; auto.
Qed.

Lemma applyValue_values (arg : jsstring) (v : option jsstring) (a : CliArgs) :
  takesValue arg = true ->
  repo (applyValue arg v a) = (if decide (arg = js "--repo") then v else repo a)
  /\ author (applyValue arg v a)
     = (if decide (arg = js "--author") then v else author a)
  /\ since (applyValue arg v a)
     = (if decide (arg = js "--since") then v else since a)
  /\ port (applyValue arg v a)
     = (if decide (arg = js "--port") then Some (parseInt v) else port a).
Proof.
  intros H. apply takesValue_spec in H. unfold Cli.applyValue.
  destruct H as [-> | [-> | [-> | ->]]];
    repeat (destruct (decide _) as [Heq|Hne];
            [try (vm_compute in Heq; discriminate); clear Heq
            |try (exfalso; apply Hne; reflexivity); clear Hne]);
    simpl; auto.
Qed.

(** X13. Arguments that end on no waiting flag are parsed on their own: those
    that follow are parsed from the arguments read so far. *)
Theorem parseLoop_app (pre more : list jsstring) (a : CliArgs) :
  dangling pre = false ->
  parseLoop (pre ++ more) a = parseLoop more (parseLoop pre a).
Proof.
  loop_induction pre a; cbn [dangling]; rewrite ?Harg; intros Hd;
    try discriminate.
  - reflexivity.
  - change ((arg :: v :: rest) ++ more) with (arg :: v :: rest ++ more).
    rewrite parseLoop_step, Harg. now apply IH.
  - change ((arg :: rest) ++ more) with (arg :: rest ++ more).
    rewrite parseLoop_step, Harg. now apply IH.
Qed.

Lemma parseLoop_flags (argv : list jsstring) (a : CliArgs) :
  (web (parseLoop argv a) = true -> web a = true \/ js "--web" ∈ argv)
  /\ (analyze (parseLoop argv a) = true ->
      analyze a = true \/ js "--analyze" ∈ argv)
  /\ (help (parseLoop argv a) = true ->
      help a = true \/ js "-h" ∈ argv \/ js "--help" ∈ argv).
Proof.
  loop_induction argv a.
  - tauto.
  - destruct (applyValue_flags arg None a) as (-> & -> & ->). tauto.
  - destruct (IH (applyValue arg (Some v) a)) as (Hw & Ha & Hh).
    destruct (applyValue_flags arg (Some v) a) as (Ew & Eh & Ea).
    rewrite Ew in Hw. rewrite Ea in Ha. rewrite Eh in Hh.
    rewrite !elem_of_cons. tauto.
  - destruct (IH (applyFlag arg a)) as (Hw & Ha & Hh).
    destruct (applyFlag_flags arg a) as (Ew & Ea & Eh).
    rewrite Ew in Hw. rewrite Ea in Ha. rewrite Eh in Hh.
    rewrite !orb_true_iff, !bool_decide_eq_true in *.
    rewrite !elem_of_cons. intuition auto.
Qed.

(** X14. A switch is on only if its flag is among the arguments after the first
    two. *)
Theorem parseArgs_flags_sound (argv : list jsstring) :
  (web (parseArgs argv) = true -> js "--web" ∈ drop 2 argv)
  /\ (analyze (parseArgs argv) = true -> js "--analyze" ∈ drop 2 argv)
  /\ (help (parseArgs argv) = true ->
      js "-h" ∈ drop 2 argv \/ js "--help" ∈ drop 2 argv).
Proof.
  unfold Cli.parseArgs.
  destruct (parseLoop_flags (drop 2 argv) noArgs) as (Hw & Ha & Hh).
  simpl in *. intuition discriminate.
Qed.

Lemma follows_skip (flag value : jsstring) (skipped argv : list jsstring) :
  follows flag value argv -> follows flag value (skipped ++ argv).
Proof.
  intros (pre & post & ->). exists (skipped ++ pre), post.
  now rewrite <- app_assoc.
Qed.

Lemma parseLoop_values (argv : list jsstring) (a : CliArgs) :
  (forall v, repo (parseLoop argv a) = Some v ->
             repo a = Some v \/ follows (js "--repo") v argv)
  /\ (forall v, author (parseLoop argv a) = Some v ->
                author a = Some v \/ follows (js "--author") v argv)
  /\ (forall v, since (parseLoop argv a) = Some v ->
                since a = Some v \/ follows (js "--since") v argv)
  /\ (forall n, port (parseLoop argv a) = Some n ->
                port a = Some n
                \/ (exists v, n = parseInt (Some v)
                              /\ follows (js "--port") v argv)
                \/ (n = parseInt None
                    /\ exists pre, argv = pre ++ [js "--port"])).
Proof.
  loop_induction argv a.
  - tauto.
  - destruct (applyValue_values arg None a Harg) as (-> & -> & -> & ->).
    repeat split; intros x; destruct (decide _) as [->|?];
      try discriminate; auto.
    intros [= <-]. right. right. split; [reflexivity|].
    exists []; reflexivity.
  - destruct (IH (applyValue arg (Some v) a)) as (Hr & Ha & Hs & Hp).
    destruct (applyValue_values arg (Some v) a Harg) as (Er & Ea & Es & Ep).
    rewrite Er in Hr. rewrite Ea in Ha. rewrite Es in Hs. rewrite Ep in Hp.
    clear Er Ea Es Ep IH.
    split; [|split; [|split]]; intros x Hx.
    + apply Hr in Hx as [Hx|Hx];
        [|right; now apply (follows_skip _ _ [_; _])].
      destruct (decide (arg = js "--repo")) as [->|?]; [|now left].
      injection Hx as <-. right. exists [], rest; reflexivity.
    + apply Ha in Hx as [Hx|Hx];
        [|right; now apply (follows_skip _ _ [_; _])].
      destruct (decide (arg = js "--author")) as [->|?]; [|now left].
      injection Hx as <-. right. exists [], rest; reflexivity.
    + apply Hs in Hx as [Hx|Hx];
        [|right; now apply (follows_skip _ _ [_; _])].
      destruct (decide (arg = js "--since")) as [->|?]; [|now left].
      injection Hx as <-. right. exists [], rest; reflexivity.
    + apply Hp in Hx as [Hx|[(w & -> & Hw)|(-> & pre & ->)]].
      * destruct (decide (arg = js "--port")) as [->|?]; [|now left].
        injection Hx as <-. right. left. exists v.
        split; [reflexivity|exists [], rest; reflexivity].
      * right. left. exists w. split; [reflexivity|].
        now apply (follows_skip _ _ [_; _]).
      * right. right. split; [reflexivity|]. exists (arg :: v :: pre); reflexivity.
  - destruct (IH (applyFlag arg a)) as (Hr & Ha & Hs & Hp).
    destruct (applyFlag_values arg a) as (Er & Ea & Es & Ep).
    rewrite Er in Hr. rewrite Ea in Ha. rewrite Es in Hs. rewrite Ep in Hp.
    clear Er Ea Es Ep IH.
    split; [|split; [|split]]; intros x Hx.
    + apply Hr in Hx as [Hx|Hx]; [now left|right].
      now apply (follows_skip _ _ [_]).
    + apply Ha in Hx as [Hx|Hx]; [now left|right].
      now apply (follows_skip _ _ [_]).
    + apply Hs in Hx as [Hx|Hx]; [now left|right].
      now apply (follows_skip _ _ [_]).
    + apply Hp in Hx as [Hx|[(w & -> & Hw)|(-> & pre & ->)]].
      * now left.
      * right. left. exists w. split; [reflexivity|].
        now apply (follows_skip _ _ [_]).
      * right. right. split; [reflexivity|]. exists (arg :: pre); reflexivity.
Qed.

(** X15. An option holds the argument that comes right after an occurrence of its
    flag, among the arguments after the first two; the port is [parseInt] of
    that argument, or of [undefined] when [--port] is the last argument. *)
Theorem parseArgs_value_follows_flag (argv : list jsstring) :
  (forall v, repo (parseArgs argv) = Some v ->
             follows (js "--repo") v (drop 2 argv))
  /\ (forall v, author (parseArgs argv) = Some v ->
                follows (js "--author") v (drop 2 argv))
  /\ (forall v, since (parseArgs argv) = Some v ->
                follows (js "--since") v (drop 2 argv))
  /\ (forall n, port (parseArgs argv) = Some n ->
                (exists v, n = parseInt (Some v)
                           /\ follows (js "--port") v (drop 2 argv))
                \/ (n = parseInt None
                    /\ exists pre, drop 2 argv = pre ++ [js "--port"])).
Proof.
  unfold Cli.parseArgs.
  destruct (parseLoop_values (drop 2 argv) noArgs) as (Hr & Ha & Hs & Hp).
  split; [|split; [|split]]; intros x Hx;
    [apply Hr in Hx|apply Ha in Hx|apply Hs in Hx|apply Hp in Hx];
    destruct Hx as [Hx|Hx]; try discriminate; exact Hx.
Qed.

Lemma parseLoop_untouched (argv : list jsstring) (a : CliArgs) :
  (js "--repo" ∉ argv -> repo (parseLoop argv a) = repo a)
  /\ (js "--author" ∉ argv -> author (parseLoop argv a) = author a)
  /\ (js "--since" ∉ argv -> since (parseLoop argv a) = since a)
  /\ (js "--port" ∉ argv -> port (parseLoop argv a) = port a).
Proof.
  loop_induction argv a.
  - tauto.
  - destruct (applyValue_values arg None a Harg) as (-> & -> & -> & ->).
    rewrite !elem_of_cons.
    repeat split; intros H; destruct (decide _) as [->|?];
      intuition congruence.
  - destruct (IH (applyValue arg (Some v) a)) as (Hr & Ha & Hs & Hp).
    destruct (applyValue_values arg (Some v) a Harg) as (Er & Ea & Es & Ep).
    rewrite !elem_of_cons.
    split; [|split; [|split]]; intros H;
      [rewrite Hr, Er by tauto; destruct (decide (arg = js "--repo"))
      |rewrite Ha, Ea by tauto; destruct (decide (arg = js "--author"))
      |rewrite Hs, Es by tauto; destruct (decide (arg = js "--since"))
      |rewrite Hp, Ep by tauto; destruct (decide (arg = js "--port"))];
      intuition congruence.
  - destruct (IH (applyFlag arg a)) as (Hr & Ha & Hs & Hp).
    destruct (applyFlag_values arg a) as (Er & Ea & Es & Ep).
    rewrite !elem_of_cons.
    split; [|split; [|split]]; intros H;
      [rewrite Hr, Er by tauto|rewrite Ha, Ea by tauto
      |rewrite Hs, Es by tauto|rewrite Hp, Ep by tauto];
      reflexivity.
Qed.

(** X16. The last occurrence of an option wins: the value that follows a flag,
    read as a flag, is the option of the parsed arguments when that flag
    does not come again. *)
Theorem parseArgs_last_wins (node script : jsstring)
  (pre post : list jsstring) (v : jsstring) :
  dangling pre = false ->
  (js "--repo" ∉ post ->
   repo (parseArgs (node :: script :: pre ++ js "--repo" :: v :: post))
   = Some v)
  /\ (js "--author" ∉ post ->
      author (parseArgs (node :: script :: pre ++ js "--author" :: v :: post))
      = Some v)
  /\ (js "--since" ∉ post ->
      since (parseArgs (node :: script :: pre ++ js "--since" :: v :: post))
      = Some v)
  /\ (js "--port" ∉ post ->
      port (parseArgs (node :: script :: pre ++ js "--port" :: v :: post))
      = Some (parseInt (Some v))).
Proof.
  intros Hd. unfold Cli.parseArgs.
  change (drop 2 (node :: script :: ?l)) with l.
  rewrite !parseLoop_app by exact Hd.
  assert (Hflag : forall flag,
             flag ∈ [js "--repo"; js "--author"; js "--since"; js "--port"] ->
             takesValue flag = true).
  { intros flag H. unfold takesValue. now apply bool_decide_eq_true. }
  split; [|split; [|split]]; intros Hpost;
    rewrite parseLoop_step, Hflag by (rewrite !elem_of_cons; tauto);
    match goal with
    | |- context [Cli.applyValue _ _ ?flag ?w ?a] =>
      destruct (parseLoop_untouched post (applyValue flag w a))
        as (Hr & Ha & Hs & Hp);
      destruct (applyValue_values flag w a) as (Er & Ea & Es & Ep);
        [apply Hflag; rewrite !elem_of_cons; tauto|]
    end;
    [rewrite Hr, Er|rewrite Ha, Ea|rewrite Hs, Es|rewrite Hp, Ep];
    try assumption; destruct (decide _); congruence.
Qed.

Lemma parseLoop_help (argv : list jsstring) (a : CliArgs) :
  help a = true -> help (parseLoop argv a) = true.
Proof.
  loop_induction argv a; intros H.
  - exact H.
  - now destruct (applyValue_flags arg None a) as (_ & -> & _).
  - apply IH. now destruct (applyValue_flags arg (Some v) a) as (_ & -> & _).
  - apply IH. destruct (applyFlag_flags arg a) as (_ & _ & ->).
    now rewrite H.
Qed.

(** X17. Help comes first: with [-h] or [--help] read as a flag, [main] prints
    the help, whatever the other arguments are. *)
Theorem help_wins (process_cwd node script h : jsstring)
  (pre post : list jsstring) :
  dangling pre = false ->
  h = js "-h" \/ h = js "--help" ->
  main_dispatch process_cwd (parseArgs (node :: script :: pre ++ h :: post))
  = PrintHelp.
Proof.
  intros Hd Hh. unfold Cli.main_dispatch, Cli.parseArgs.
  change (drop 2 (node :: script :: ?l)) with l.
  rewrite parseLoop_app by exact Hd. rewrite parseLoop_step.
  replace (takesValue h) with false by (now destruct Hh as [-> | ->]).
  rewrite parseLoop_help; [reflexivity|].
  destruct (applyFlag_flags h (parseLoop pre noArgs)) as (_ & _ & ->).
  destruct Hh as [-> | ->]; simpl; now rewrite ?orb_true_r.
Qed.

(** X18. The web server starts only on [--web], and on the default port when no
    [--port] is among the arguments. *)
Theorem web_server_port (process_cwd : jsstring) (argv : list jsstring)
  (p : number) :
  main_dispatch process_cwd (parseArgs argv) = StartWebServer p ->
  js "--web" ∈ drop 2 argv
  /\ (js "--port" ∉ drop 2 argv -> p = port3000).
Proof.
  unfold Cli.main_dispatch.
  destruct (help (parseArgs argv)); [discriminate|].
  destruct (web (parseArgs argv)) eqn:Hweb; [|discriminate].
  intros [= <-]. split.
  - destruct (parseLoop_flags (drop 2 argv) noArgs) as (Hw & _).
    destruct (Hw Hweb) as [H|H]; [discriminate|exact H].
  - intros Hport. unfold Cli.parseArgs.
    destruct (parseLoop_untouched (drop 2 argv) noArgs) as (_ & _ & _ & ->);
      [reflexivity|exact Hport].
Qed.

End CommandLine.

(** ** The prompt of a batch *)

Lemma length_commitText (commit : CommitInfo) :
  length (commitText commit) <= length (date commit) + 256.
Proof.
  unfold commitText. rewrite !length_app.
  change (length (js "[")) with 1. change (length (js "] ")) with 2.
  pose proof (firstn_le_length 100 (subject commit)).
  pose proof (firstn_le_length 150 (body commit)).
  destruct (truthy (body commit)); [|simpl; lia].
  destruct (truthy (take 150 (body commit))); [|simpl; lia].
  rewrite !length_app. change (length (js "  ")) with 2. simpl. lia.
Qed.

Lemma length_join_le (sep : jsstring) (parts : list jsstring) (k : nat) :
  Forall (fun p => length p <= k) parts ->
  length (join sep parts)
  <= length parts * k + (length parts - 1) * length sep.
Proof.
  induction 1 as [|p parts Hp _ IH]; [simpl; lia|].
  destruct parts as [|q parts]; [simpl in *; lia|].
  rewrite join_cons by discriminate. rewrite !length_app.
  change (length (p :: q :: parts)) with (S (length (q :: parts))).
  change (length (q :: parts)) with (S (length parts)) in *. nia.
Qed.

(** X19. The commits of a batch, as the prompt shows them, take at most
    20 * 266 + 19 * 2 code units when the dates take at most 10 each,
    however long the subjects and bodies are and however many commits there
    are. *)
Theorem commitsText_bounded (commits batch : list CommitInfo) :
  Forall (fun c => length (date c) <= 10) commits ->
  batch ∈ splitBatches commits ->
  length (commitsText batch) <= 20 * 266 + 19 * 2.
Proof.
  intros Hdates Hbatch. unfold splitBatches in Hbatch.
  change 0 with (20 * 0) in Hbatch at 1.
  rewrite (batchLoop_explicit commits ((length commits + 19) / 20) 0 [])
    in Hbatch by lia.
  apply list_elem_of_fmap in Hbatch as (j & -> & _).
  set (batch := slice (20 * j) (20 * j + 20) commits).
  assert (Hlen : length batch <= 20).
  { unfold batch. rewrite length_slice. lia. }
  assert (Hsub : Forall (fun c => length (date c) <= 10) batch).
  { unfold batch, slice. apply Forall_drop, Forall_take, Hdates. }
  unfold commitsText.
  pose proof (length_join_le [LF; LF] (map commitText batch) 266) as H.
  rewrite length_map in H. change (length [LF; LF]) with 2 in H.
  enough (Forall (fun p => length p <= 266) (map commitText batch)) as Hparts
    by (specialize (H Hparts); lia).
  apply Forall_map. eapply Forall_impl; [exact Hsub|].
  intros c Hc. cbv beta in *. pose proof (length_commitText c). lia.
Qed.

Lemma commitsText_bounded_witness :
  Forall (fun c => length (date c) <= 10) [sampleCommit]
  /\ [sampleCommit] ∈ splitBatches [sampleCommit]
  /\ length (commitsText [sampleCommit]) <= 20 * 266 + 19 * 2.
Proof.
  assert (Hdates : Forall (fun c => length (date c) <= 10) [sampleCommit]).
  { constructor; [vm_compute; lia|constructor]. }
  assert (Hbatch : [sampleCommit] ∈ splitBatches [sampleCommit]).
  { vm_compute. left. }
  split; [exact Hdates|split; [exact Hbatch|]].
  exact (commitsText_bounded [sampleCommit] [sampleCommit] Hdates Hbatch).
Defined.

(** X20. Under one project context, the prompt tells the batch number, the number
    of batches and the text of the commits: two prompts are equal only if
    all three are. *)
Theorem prompt_tells_batch (batch batch' : list CommitInfo)
  (batchNum batchNum' totalBatches totalBatches' : nat)
  (projectContext : jsstring) :
  buildPrompt batch batchNum totalBatches projectContext
  = buildPrompt batch' batchNum' totalBatches' projectContext ->
  batchNum = batchNum' /\ totalBatches = totalBatches'
  /\ commitsText batch = commitsText batch'.
Proof.
  unfold buildPrompt. intros H.
  match type of H with
  | context [commitsText batch :: ?tl] => set (tail := tl) in H
  end.
  assert (Htail : tail <> []) by discriminate.
  rewrite !(join_cons _ _ (_ :: _)) in H by discriminate.
  rewrite <- !app_assoc in H.
  do 11 apply app_inv_head in H.
  rewrite !(join_cons _ _ tail Htail) in H.
  generalize dependent (join [LF] tail). clear tail Htail.
  generalize (commitsText batch), (commitsText batch'),
    (decimal_digits batchNum), (decimal_digits batchNum'),
    (decimal_digits totalBatches), (decimal_digits totalBatches'),
    (decimal_inj batchNum batchNum'), (decimal_inj totalBatches totalBatches').
  generalize (decimal batchNum), (decimal batchNum'),
    (decimal totalBatches), (decimal totalBatches').
  intros n n' t t' text text' Hn Hn' Ht Ht' Hnm Htm suffix H.
  change (js "/") with [47%N] in H.
  change (js "):") with [41%N; 58%N] in H.
  simpl in H.
  assert (n = n') as <-.
  { now apply (digit_runs_agree n n' _ _ 47%N Hn Hn' eq_refl H). }
  apply app_inv_head in H. injection H as H.
  assert (t = t') as <-.
  { now apply (digit_runs_agree t t' _ _ 41%N Ht Ht' eq_refl H). }
  apply app_inv_head in H. injection H as H.
  apply app_inv_tail in H. auto.
Qed.

Lemma prompt_tells_batch_witness :
  buildPrompt [sampleCommit] 1 3 fallbackContext
  = buildPrompt [sampleCommit] 1 3 fallbackContext
  /\ 1 = 1 /\ 3 = 3 /\ commitsText [sampleCommit] = commitsText [sampleCommit].
Proof.
  split; [reflexivity|].
  exact (prompt_tells_batch [sampleCommit] [sampleCommit] 1 1 3 3
           fallbackContext eq_refl).
Defined.

(** ** The command line, on an example *)

Lemma parseLoop_app_witness :
  Cli.dangling [js "--web"; js "--since"; js "2024-01-01"] = false
  /\ Cli.parseLoop N (fun _ => 0%N)
       ([js "--web"; js "--since"; js "2024-01-01"] ++ [js "--repo"; js "/r"])
       Cli.noArgs
     = Cli.parseLoop N (fun _ => 0%N) [js "--repo"; js "/r"]
         (Cli.parseLoop N (fun _ => 0%N)
            [js "--web"; js "--since"; js "2024-01-01"] Cli.noArgs).
Proof.
  split; [reflexivity|].
  apply (parseLoop_app N (fun _ => 0%N)). reflexivity.
Defined.

Lemma parseArgs_last_wins_witness :
  Cli.dangling [js "--repo"; js "/old"] = false
  /\ (js "--repo" ∉ [js "--analyze"] ->
      Cli.repo
        (Cli.parseArgs N (fun _ => 0%N)
           (js "node" :: js "git-log-ai.ts"
            :: [js "--repo"; js "/old"]
               ++ js "--repo" :: js "/new" :: [js "--analyze"]))
      = Some (js "/new")).
Proof.
  split; [reflexivity|].
  apply (parseArgs_last_wins N (fun _ => 0%N) (js "node") (js "git-log-ai.ts")
           [js "--repo"; js "/old"] [js "--analyze"] (js "/new")).
  reflexivity.
Defined.

Lemma help_wins_witness :
  Cli.dangling [js "--web"] = false
  /\ (js "-h" = js "-h" \/ js "-h" = js "--help")
  /\ Cli.main_dispatch N 3000%N (js "/work")
       (Cli.parseArgs N (fun _ => 0%N)
          (js "node" :: js "git-log-ai.ts"
           :: [js "--web"] ++ js "-h" :: [js "--analyze"]))
     = Cli.PrintHelp.
Proof.
  split; [reflexivity|split; [left; reflexivity|]].
  apply (help_wins N (fun _ => 0%N) 3000%N (js "/work") (js "node")
           (js "git-log-ai.ts") (js "-h") [js "--web"] [js "--analyze"]).
  - reflexivity.
  - left. reflexivity.
Defined.

Lemma web_server_port_witness :
  Cli.main_dispatch N 3000%N (js "/work")
    (Cli.parseArgs N (fun _ => 0%N)
       [js "node"; js "git-log-ai.ts"; js "--web"])
  = Cli.StartWebServer 3000%N
  /\ js "--web" ∈ drop 2 [js "node"; js "git-log-ai.ts"; js "--web"]
  /\ (js "--port" ∉ drop 2 [js "node"; js "git-log-ai.ts"; js "--web"] ->
      3000%N = 3000%N).
Proof.
  split; [reflexivity|].
  apply (web_server_port N (fun _ => 0%N) 3000%N (js "/work")
           [js "node"; js "git-log-ai.ts"; js "--web"] 3000%N).
  reflexivity.
Defined.

(** ** Commit texts in the prompt *)

Lemma paragraph_clean_app (a b : jsstring) :
  LF ∉ a -> paragraph (a ++ b) = paragraph b.
Proof.
  induction a as [|c a IH]; intros Ha; [reflexivity|].
  apply not_elem_of_cons in Ha as [Hc Ha]. cbn [app paragraph].
  rewrite IH by exact Ha.
  replace (c =? LF)%N with false; [reflexivity|].
  symmetry. apply N.eqb_neq. congruence.
Qed.

Lemma paragraph_clean (a : jsstring) : LF ∉ a -> paragraph a = true.
Proof.
  intros Ha. rewrite <- (app_nil_r a). now rewrite paragraph_clean_app.
Qed.

Lemma paragraph_tail (c : N) (s : jsstring) :
  paragraph (c :: s) = true -> paragraph s = true.
Proof. cbn [paragraph]. now intros [_ H]%andb_true_iff. Qed.

(** Paragraphs are told apart by the empty line that ends them. *)
Lemma paragraph_ends_agree (p : jsstring) :
  forall p' r r',
    paragraph p = true -> paragraph p' = true ->
    p ++ LF :: LF :: r = p' ++ LF :: LF :: r' -> p = p'.
Proof.
  assert (Hshort : forall q r r',
             paragraph q = true -> LF :: LF :: r = q ++ LF :: LF :: r' ->
             q = []).
  { intros [|c [|d q]] r r' Hq H; [reflexivity|..]; exfalso; simpl in H;
      [injection H as <- _|injection H as <- <- _]; discriminate Hq. }
  induction p as [|c p IH]; intros p' r r' Hp Hp' H.
  - symmetry. now apply (Hshort p' r r').
  - destruct p' as [|c' p'].
    + now apply (Hshort (c :: p) r' r).
    + injection H as <- H. f_equal.
      apply (IH p' r r'); [eapply paragraph_tail, Hp
                          |eapply paragraph_tail, Hp'|exact H].
Qed.

Lemma paragraph_no_empty_line (a b : jsstring) :
  paragraph (a ++ LF :: LF :: b) = false.
Proof.
  induction a as [|c a IH]; [reflexivity|].
  cbn [app paragraph]. rewrite IH. apply andb_false_r.
Qed.

Lemma join_paragraphs_inj (parts : list jsstring) :
  forall parts',
    Forall (fun p => paragraph p = true /\ p <> []) parts ->
    Forall (fun p => paragraph p = true /\ p <> []) parts' ->
    join [LF; LF] parts = join [LF; LF] parts' -> parts = parts'.
Proof.
  induction parts as [|p parts IH]; intros parts' Hparts Hparts' H.
  - destruct parts' as [|p' [|q' parts']]; [reflexivity|..]; exfalso;
      apply Forall_cons in Hparts' as [[_ Hne] _];
      [|rewrite join_cons in H by discriminate]; simpl in H;
      destruct p'; [contradiction|discriminate|contradiction|discriminate].
  - apply Forall_cons in Hparts as [[Hp Hne] Hparts].
    destruct parts' as [|p' parts'].
    { exfalso. destruct parts; [|rewrite join_cons in H by discriminate];
        simpl in H; destruct p; try contradiction; discriminate. }
    apply Forall_cons in Hparts' as [[Hp' Hne'] Hparts'].
    destruct parts as [|q parts], parts' as [|q' parts'].
    + simpl in H. now subst.
    + exfalso. rewrite (join_cons _ p') in H by discriminate.
      cbn [join app] in H. subst p.
      now rewrite paragraph_no_empty_line in Hp.
    + exfalso. rewrite (join_cons _ p) in H by discriminate.
      cbn [join app] in H. subst p'.
      now rewrite paragraph_no_empty_line in Hp'.
    + rewrite (join_cons _ p), (join_cons _ p') in H by discriminate.
      change ([LF; LF] ++ ?x) with (LF :: LF :: x) in H.
      assert (p = p') as <- by (eapply paragraph_ends_agree; eauto).
      apply app_inv_head in H. injection H as H.
      f_equal. now apply IH.
Qed.

Lemma paragraph_commitText (commit : CommitInfo) :
  (LF ∉ date commit) /\ (LF ∉ subject commit) /\ (LF ∉ body commit) ->
  paragraph (commitText commit) = true /\ commitText commit <> [].
Proof.
  intros (Hd & Hs & Hb). split; [|discriminate].
  assert (Htake : forall n (s : jsstring), LF ∉ s -> LF ∉ take n s).
  { intros n s H Hin. apply H. eapply elem_of_sublist; [exact Hin|].
    apply sublist_take. }
  unfold commitText.
  rewrite (paragraph_clean_app (js "[")) by compute_done.
  rewrite paragraph_clean_app by exact Hd.
  rewrite (paragraph_clean_app (js "] ")) by compute_done.
  rewrite paragraph_clean_app by now apply Htake.
  destruct (truthy (body commit)); [|reflexivity].
  destruct (truthy (take 150 (body commit))); [|reflexivity].
  change ([LF] ++ js "  " ++ ?x) with (LF :: 32%N :: 32%N :: x).
  change (paragraph (LF :: 32%N :: ?x)) with (paragraph (32%N :: x)).
  apply paragraph_clean. rewrite !not_elem_of_cons.
  repeat split; [discriminate..|now apply Htake].
Qed.

(** X21. The empty lines of the prompt tell the commits apart: for commits whose
    date, subject and body hold no line feed, as [fetchGitLog] returns them,
    the text of a batch determines the text of each of its commits. *)
Theorem commitsText_injective (batch batch' : list CommitInfo) :
  Forall (fun c => (LF ∉ date c) /\ (LF ∉ subject c) /\ (LF ∉ body c)) batch ->
  Forall (fun c => (LF ∉ date c) /\ (LF ∉ subject c) /\ (LF ∉ body c)) batch' ->
  commitsText batch = commitsText batch' ->
  map commitText batch = map commitText batch'.
Proof.
  intros Hb Hb' H. apply join_paragraphs_inj; [..|exact H];
    apply Forall_map; (eapply Forall_impl; [eassumption|]);
    intros c Hc; now apply paragraph_commitText.
Qed.

Lemma commitsText_injective_witness :
  Forall (fun c => (LF ∉ date c) /\ (LF ∉ subject c) /\ (LF ∉ body c))
         [sampleCommit; sampleCommit]
  /\ map commitText [sampleCommit; sampleCommit]
     = map commitText [sampleCommit; sampleCommit].
Proof.
  assert (H : Forall (fun c => (LF ∉ date c) /\ (LF ∉ subject c)
                               /\ (LF ∉ body c))
                     [sampleCommit; sampleCommit]).
  { repeat constructor; compute_done. }
  split; [exact H|].
  exact (commitsText_injective [sampleCommit; sampleCommit]
           [sampleCommit; sampleCommit] H H eq_refl).
Defined.

(** ** The git command *)

Lemma runs_agree (x : N) (a : jsstring) :
  forall b r r',
    x ∉ a -> x ∉ b -> a ++ x :: r = b ++ x :: r' -> a = b /\ r = r'.
Proof.
  induction a as [|c a IH]; intros [|d b] r r' Ha Hb H; simpl in H.
  - injection H as <-. auto.
  - injection H as <- _. exfalso. apply Hb. left.
  - injection H as -> _. exfalso. apply Ha. left.
  - injection H as <- H.
    apply not_elem_of_cons in Ha as [_ Ha], Hb as [_ Hb].
    destruct (IH b r r' Ha Hb H) as [<- <-]. auto.
Qed.

(** X22. The command line tells the author and the date apart when neither holds
    a double quote: two such requests give the same command line only if
    they are the same request.  (Quotes are not escaped.) *)
Theorem commandLine_unambiguous (author since author' since' : jsstring) :
  QUOTE ∉ author -> QUOTE ∉ since -> QUOTE ∉ author' -> QUOTE ∉ since' ->
  commandLine (gitLogCommand author since)
  = commandLine (gitLogCommand author' since') ->
  author = author' /\ since = since'.
Proof.
  intros Ha Hs Ha' Hs'. unfold commandLine, gitLogCommand. intros H.
  apply app_inv_head in H.
  rewrite !(join_cons _ _ (_ :: _)) in H by discriminate.
  apply app_inv_head in H. apply app_inv_head in H.
  rewrite <- !app_assoc in H. apply app_inv_head in H.
  change (jsq "'") with [QUOTE] in H.
  change ([QUOTE] ++ ?x) with (QUOTE :: x) in H.
  apply runs_agree in H as [<- H]; [|assumption..]. split; [reflexivity|].
  apply app_inv_head in H. apply app_inv_head in H.
  now apply runs_agree in H as [<- _].
Qed.

Lemma commandLine_unambiguous_witness :
  (QUOTE ∉ js "jane@x.com") /\ (QUOTE ∉ js "2023-05-01")
  /\ commandLine (gitLogCommand (js "jane@x.com") (js "2023-05-01"))
     = commandLine (gitLogCommand (js "jane@x.com") (js "2023-05-01"))
  /\ js "jane@x.com" = js "jane@x.com" /\ js "2023-05-01" = js "2023-05-01".
Proof.
  assert (Ha : QUOTE ∉ js "jane@x.com") by compute_done.
  assert (Hs : QUOTE ∉ js "2023-05-01") by compute_done.
  split; [exact Ha|split; [exact Hs|split; [reflexivity|]]].
  exact (commandLine_unambiguous (js "jane@x.com") (js "2023-05-01")
           (js "jane@x.com") (js "2023-05-01") Ha Hs Ha Hs eq_refl).
Defined.
